(* ===== verification/_CoqProject ===== *)
-Q . S2P
Prelude.v
Json.v
Gateway.v
Backend.v
Restaurant.v
CacheAside.v
Order.v
Notification.v
Auth.v
Services.v
Infra.v
AccessLog.v
System.v
Staleness.v
Crash.v
SystemIds.v
