(* ===== verification/Prelude.v ===== *)
(** * Food-order backend: a verification development

    The repository is a demo of micro-services in Node.js: an API gateway
    ([src/services/api-gateway/index.js]) proxies [/auth], [/restaurants],
    [/orders] and [/payments] to four Express services; the restaurant
    service ([src/services/restaurant-service/index.js]) stores restaurants
    in PostgreSQL behind a 60-second Redis cache; the order service
    ([src/services/order-service/index.js], which also bundles the shared
    queue module) stores an order and publishes an [order.created] job on
    the BullMQ queue [order-events]; the notification worker
    ([src/unnamed/part_000]) consumes that queue; the auth service
    ([src/unnamed/part_001]) waits for the database at start-up, then
    registers users (bcrypt) and logs them in (JWT); the payment service
    ([src/services/payment-service/index.js]) always answers success.
    The services share one PostgreSQL database and one Redis instance.

    ** How the code is modelled

    Each [async] handler is a program of type [handler A] (this file:
    [prog], a tree of effects [Do e k] / [Ret a]); each [await] of the
    source is one effect ([Backend.effect]: SQL query, Redis GET/SETEX,
    queue add, uuid, bcrypt, jwt, log, sleep, exit), in the order of the
    source.  [Backend.exec] gives each effect its meaning on one shared
    record [Backend.world] (database tables, database readiness time,
    Redis with expiry times, BullMQ queues, the clock, uuid and salt
    counters, the JWT secret, the console); [run_handler] runs a handler
    to its answer or to the rejection that ends it.  A rejected promise
    ends the handler ([inl] of the result): Express 4 does not catch the
    promise of an async handler, so the rejection is unhandled and the
    Node.js 18 process (the README's requirement) exits; [System.v]
    models that exit, [Crash.v] its consequences.

    Files, in dependency order:
    - [Prelude.v] (this file): the effect programs, the [let?] error
      notation, ASCII case folding, string lemmas, the hint databases.
    - [Json.v]: [JSON.stringify] and [JSON.parse] for integer-valued JSON
      (a fuel-bounded recursive-descent parser, fuel [2 |s| + 2], enough
      because every value needs at most as much fuel as its text has
      characters); outside the modelled values the parser abstains.
    - [Gateway.v], Module [Gateway]: the gateway's [express.json()]
      (strict, 100kb limit: 413 above it, 400 on malformed JSON), the
      Express mount matching and first-match dispatch over [routes], and
      the specification's longest-prefix router [longest_match].
    - [Backend.v]: JavaScript values, node-postgres parameters, the SQL
      queries of the services, Redis, BullMQ, uuid, and the classes
      [UuidSource], [Bcrypt], [Jwt] that state what the handlers rely on
      from those libraries, with executable instances; the world, the
      effects and [exec].  PostgreSQL refuses a text parameter holding
      the byte 0x00 (SQLSTATE 22021), and bcryptjs keys its cipher with
      the password's UTF-8 bytes and a NUL, cycled to 72 bytes
      ([bcrypt_key]).
    - [Restaurant.v], Module [RestaurantService]: [post_restaurants],
      [get_restaurants] (cache hit, miss, fill), and the step relation
      [rstep] of the service (requests, time, database start).
    - [CacheAside.v], Module [CacheAside]: the specification's cache-aside
      contract [getOrLoad] (4.5) as an executable function on an abstract
      store, and the simulation relation [sim] between the service's
      Redis key and that store.
    - [Order.v], Modules [QueueModule] and [OrderService]: [post_orders].
    - [Notification.v], Module [NotificationWorker]: the processor and
      BullMQ's worker loop [worker_step] / [worker_run] (concurrency 1).
    - [Auth.v], Module [AuthService]: [initDB] (the retry loop, one
      [attempt] per iteration), [auth_main], [post_register],
      [post_login], and the step relation [astep].
    - [Services.v], Module [Services]: the middleware order of each
      Express app, the morgan format, the payment handler, the route tables, the
      ports of [app.listen] and the README's deployment (host names) that
      give each gateway target its service, and [end_to_end]: a client
      request through the gateway to the handler it reaches.
    - [Infra.v], Module [Infra]: the configuration that connects the
      processes: the restaurant service's Redis URL (read as node-redis
      reads it, with the lemma that it reads back the connection a URL
      was written from), the worker's connection, the gateway's port.
    - [AccessLog.v], Module [AccessLog]: one request served by one
      service ([handle]): the world after it, the morgan lines it prints
      when its response finishes, and the response.
    - [System.v], Module [System]: the services under interleaving.  A
      state [sys] holds the world, the handlers in flight (each with its
      service and what remains of its program), the worker, the trace and
      the services whose process has exited; [sstep] starts a
      request on any route of the four apps, advances one handler in
      flight by one effect ([advance]: an [await] is where Node.js may
      switch to other work), advances the auth service's start-up
      ([auth_main]; its routes accept requests only once it resolved),
      runs one worker step, or lets time pass.  A handler that rejects
      makes its service's process exit, with the other handlers it had
      in flight.
    - [Staleness.v], Module [Staleness]: how old the data a cached read
      serves can be; [rstep] with a ghost history of the rows' insertion
      times ([tstep]), and a run of [sstep] where the bound fails.
    - [Crash.v], Module [Crash]: runs of [sstep] in which one request
      makes its service's process exit.
    - [SystemIds.v], Module [SystemIds]: the invariant that no id is
      drawn twice: the ids of the three tables and the ids drawn by
      handlers in flight and not yet inserted are all distinct.

    ** What is proved

    - JSON: [json_parse (stringify v) = inr v] for every well-formed value.
    - Restaurants: every branch of both handlers; the cache always holds
      the JSON of a prefix of the table in every reachable state; answers
      are prefixes of the table; the cache lives exactly 60 s (Redis
      keeps it readable at 60000 ms); a POST does not invalidate it; ids
      are unique; a GET before the first POST rejects; a cold GET
      after a POST of a name without NUL reads the name back as
      node-postgres stored it; served
      one request at a time, every row a read lacks was inserted at most
      60 s before it; one [GET] refines the specification's
      [getOrLoad("restaurants", SELECT, ttl)] with a TTL of 60001 ms
      (answer, stored entry and number of loader calls).
    - Orders and notifications: a placed order's event is logged by the
      worker after the earlier jobs, in FIFO order.
    - Auth: the start-up loop connects iff the database is up within
      27 s, else exits with code 1 after exactly 10 attempts; a registered
      user logs in with a password of the same bcrypt key and gets a token
      that verifies to its id and role; a second registration of an
      email rejects.
    - Gateway and services: first match equals longest match on this
      table; routing and timeouts; the gateway forwards a JSON body it
      accepted as a drained stream ([Gateway.json_body_drained]), and
      registration through the gateway always fails (with chunked framing the handler runs on an empty
      body); requests without a body pass through unchanged; a body over
      102400 bytes, and only such a body, is refused 413; a body that
      [express.json()] rejects gets the same code from every service but
      is logged only where morgan comes first.
    - Interleaving: in every interleaving reachable from boot, every job
      of [order-events] names an order in the table, and the cache holds
      the JSON of a prefix of the restaurants table (both by an invariant
      over the handlers in flight, classified by the stage they are at);
      the ids of the restaurants,
      orders and users tables are pairwise distinct although two of
      those tables have no key ([SystemIds.v]); two concurrent cold
      reads both query the table (no single-flight); a read can lack a row
      inserted 65 s earlier (the entry's 60 s count from the [SETEX], which
      can come long after the [SELECT]).
    - Exits: one [GET /restaurants] on a fresh system, one registration
      of a taken email, or one [POST /restaurants] whose name holds a
      NUL byte makes its service's process exit.

    ** Bounds and assumptions

    Time is in milliseconds ([Z]); a handler's own computation takes no
    time.  Identifiers come from an injective source (a v4 collision is
    not modelled); bcrypt compares the 72-byte cyclic keys of passwords
    (hash collisions are not modelled); JWT verification inverts signing.
    A [SELECT] without [ORDER BY] returns the rows in insertion order:
    PostgreSQL does not promise it, but a sequential scan of a heap that
    is only appended to returns them so; the prefix theorems of the cache
    rest on this idealization.
    Express 4, http-proxy-middleware 2 and Node.js 18 (an unhandled
    rejection ends the process; no restart policy is modelled) are
    assumed.  Every value of the model is finite and its integers are
    exact: the JSON numbers the services produce (ids are strings,
    [iat] is seconds) stay below 2^53, the bound [json_wf] checks.

    ** Not modelled

    Sockets and the HTTP server behind [listen] (only the ports are
    kept), the [require] lines of libraries (only the shared queue
    module's exports, which carry configuration, are modelled), the
    Redis client's connection (the shared Redis is the [world]; its
    URL is read in [Infra.v]), process start-up of the services other
    than auth, a restart of an exited container,
    the response-time token of morgan (an input), container images,
    replicas, Kubernetes manifests and the README's [docker-compose ps]
    listing,
    and the specification's registry, prober, circuit breaker and
    single-flight cache, which the code does not have. *)

From stdpp Require Import base strings list.
From Stdlib Require Import String Ascii ZArith Lia.

(** ** Notations of the development *)

Declare Scope fo_scope.
Delimit Scope fo_scope with fo.
Open Scope fo_scope.

(** ** Handlers as programs over an effect signature

    Every request handler of the services is an [async] JavaScript function
    whose only interactions with the world are its [await]ed calls (a SQL
    query, a Redis command, a queue insertion, a uuid).  We model such a
    function as a finite tree of effects: [Do e k] performs [e] and continues
    with [k] applied to the reply, whose type [R e] depends on the effect.
    Between two effects the JavaScript code runs without interruption, so
    every interleaving point of the Node.js event loop is a [Do] node.  A
    synchronous call ([uuid()], [bcrypt.compareSync], [console.log]) is a
    [Do] node too: the model may switch to other work at more places than
    Node.js does, so an invariant of every interleaving of the model holds
    of every run of the code. *)

Section Prog.
Context {E : Type} {R : E -> Type}.

Inductive prog (A : Type) : Type :=
| Ret (a : A)
| Do (e : E) (k : R e -> prog A).

Arguments Ret {A} a.
Arguments Do {A} e k.

Fixpoint prog_bind {A B} (p : prog A) (f : A -> prog B) : prog B :=
  match p with
  | Ret a => f a
  | Do e k => Do e (fun r => prog_bind (k r) f)
  end.

(** Running a program against a state: [exec] performs one effect and
    either fails (the awaited promise rejects) or returns the new state and
    the reply.  A rejection aborts the whole handler, as an uncaught
    exception does in an [async] function.  The run also returns the trace
    of effects performed, in order. *)
Context {S Err : Type} (exec : S -> forall e : E, Err + (S * R e)).

Fixpoint run {A} (p : prog A) (s : S) : S * list E * (Err + A) :=
  match p with
  | Ret a => (s, [], inr a)
  | Do e k =>
      match exec s e with
      | inl err => (s, [e], inl err)
      | inr (s', r) =>
          let '(s'', tr, res) := run (k r) s' in (s'', e :: tr, res)
      end
  end.

Lemma run_bind {A B} (p : prog A) (f : A -> prog B) s :
  run (prog_bind p f) s =
    match run p s with
    | (s', tr, inl err) => (s', tr, inl err)
    | (s', tr, inr a) => let '(s'', tr', res) := run (f a) s' in (s'', tr ++ tr', res)
    end.
Proof.
  revert s. induction p as [a|e k IH]; intros s; simpl.
  - by destruct (run (f a) s) as [[??]?].
  - destruct (exec s e) as [err|[s' r]]; [done|].
    rewrite IH. destruct (run (k r) s') as [[s1 tr1] [err|a]]; [done|].
    by destruct (run (f a) s1) as [[??]?].
Qed.
End Prog.

Arguments prog : clear implicits.
Arguments Ret {E R A} a.
Arguments Do {E R A} e k.

#[export] Instance prog_ret {E R} : MRet (prog E R) := fun A a => Ret a.
#[export] Instance prog_mbind {E R} : MBind (prog E R) := fun A B f p => prog_bind p f.

(** [perform e] is [await e]: the effect alone, its reply as the result. *)
Notation "'perform' e" := (Do e Ret) (at level 10, e at level 9) : fo_scope.

(** ** Error-or-value computations

    [E + A] is a computation that fails with [inl e] or returns [inr a];
    [let? x := c in k] sequences two of them (the left error wins). *)

Definition sbind {E A B} (c : E + A) (f : A -> E + B) : E + B :=
  match c with
  | inl e => inl e
  | inr a => f a
  end.

Notation "'let?' x := c 'in' k" := (sbind c (fun x => k))
  (at level 10, x name, c at level 100, k at level 200) : fo_scope.
Notation "'let?' ' p := c 'in' k" := (sbind c (fun x => match x with p => k end))
  (at level 10, p pattern, c at level 100, k at level 200) : fo_scope.

Lemma sbind_inr {E A B} (a : A) (f : A -> E + B) : sbind (inr a) f = f a.
Proof. reflexivity. Qed.

Lemma sbind_inl {E A B} (e : E) (f : A -> E + B) : sbind (inl e) f = inl e.
Proof. reflexivity. Qed.

(** ** ASCII case folding

    Express compiles mount paths to regular expressions with the [i] flag,
    so a path matches a mount point up to ASCII case. *)

Definition lower_ascii (c : ascii) : ascii :=
  let n := nat_of_ascii c in
  if (65 <=? n)%nat && (n <=? 90)%nat then ascii_of_nat (n + 32) else c.

Fixpoint lower (s : string) : string :=
  match s with
  | EmptyString => EmptyString
  | String c s' => String (lower_ascii c) (lower s')
  end.

(** ** Tactics and hints shared by the components *)

Create HintDb fo discriminated.
Create Rewrite HintDb fo_rw.

Ltac invc H := inversion H; subst; clear H.

(** ** Generic lemmas on strings

    stdpp declares [String.append] [simpl never]; its two computation rules
    are stated here once and used by rewriting. *)

Lemma append_nil_l (t : string) : ("" ++ t)%string = t.
Proof. reflexivity. Qed.

Lemma append_cons (c : ascii) (s t : string) : (String c s ++ t)%string = String c (s ++ t).
Proof. reflexivity. Qed.

Lemma string_app_assoc (a b c : string) : ((a ++ b) ++ c)%string = (a ++ (b ++ c))%string.
Proof. induction a as [|x a IH]; rewrite ?append_nil_l, ?append_cons; congruence. Qed.

Lemma string_app_nil_r (a : string) : (a ++ "")%string = a.
Proof. induction a as [|x a IH]; rewrite ?append_nil_l, ?append_cons; congruence. Qed.

Lemma prefix_app_true (p s : string) : String.prefix p (p ++ s) = true.
Proof.
  induction p as [|c p IH]; rewrite ?append_cons; simpl; [by destruct s|].
  destruct (ascii_dec c c); [done|congruence].
Qed.

Lemma prefix_true_app (p s : string) :
  String.prefix p s = true -> exists t, s = (p ++ t)%string.
Proof.
  revert s. induction p as [|c p IH]; intros [|d s]; simpl; try done.
  - intros _. by exists EmptyString.
  - intros _. by exists (String d s).
  - destruct (ascii_dec c d) as [->|]; [|done].
    intros H. destruct (IH s H) as [t ->]. by exists t.
Qed.

#[export] Hint Rewrite @sbind_inr @sbind_inl : fo_rw.
#[export] Hint Rewrite append_nil_l append_cons string_app_assoc string_app_nil_r
  prefix_app_true : fo_rw.
