(* ===== verification/Json.v ===== *)
(** * JSON values, [JSON.stringify] and [JSON.parse]

    Every service answers with [res.json(...)] and the restaurant service
    keeps its cache as [JSON.stringify(result.rows)], read back with
    [JSON.parse(cache)].  This file models the JavaScript values that cross
    these calls ([jval]) and the two built-ins on them, following ECMA-262
    (SerializeJSONProperty, QuoteJSONString, the JSON grammar of
    JSON.parse and OrdinaryOwnPropertyKeys for the key order of objects).

    Scope: strings are sequences of 8-bit code units ([string] of [ascii]),
    numbers are integers of magnitude at most 2^53 (where a double is
    exact).  A text outside this scope makes [json_parse] answer
    [OutOfScope], never a wrong value. *)

From S2P Require Import Prelude.
From stdpp Require Import base strings list.
From Stdlib Require Import String Ascii ZArith Lia.

(** ** Values *)

#[local] Set Warnings "-register-all".

Inductive jval : Type :=
| JNull
| JBool (b : bool)
| JNum (n : Z)
| JStr (s : string)
| JArr (xs : list jval)
| JObj (fs : list (string * jval)).

(** ** Characters used by the grammar (by code, to keep string literals plain) *)

Definition c_quote : ascii := "034"%char.
Definition c_bslash : ascii := "092"%char.

Definition str1 (c : ascii) : string := String c EmptyString.

(** Lower-case hexadecimal digit of a value below 16. *)
Definition hex_digit (n : nat) : ascii :=
  if (n <? 10)%nat then ascii_of_nat (48 + n) else ascii_of_nat (87 + n).

(** ** QuoteJSONString, one code unit *)

Definition quote_char (c : ascii) : string :=
  match nat_of_ascii c with
  | 8 => String c_bslash "b"
  | 9 => String c_bslash "t"
  | 10 => String c_bslash "n"
  | 12 => String c_bslash "f"
  | 13 => String c_bslash "r"
  | 34 => String c_bslash (str1 c_quote)
  | 92 => String c_bslash (str1 c_bslash)
  | n =>
      if (n <? 32)%nat
      then String c_bslash (String "u" (String "0" (String "0"
             (String (hex_digit (n / 16)) (str1 (hex_digit (n mod 16)))))))
      else str1 c
  end.

Fixpoint quote_body (s : string) : string :=
  match s with
  | EmptyString => EmptyString
  | String c s' => (quote_char c ++ quote_body s')%string
  end.

Definition quote (s : string) : string :=
  String c_quote (quote_body s ++ str1 c_quote)%string.

(** ** Number to string, for integers

    [ToString] of an integral double below 10^21 is its decimal numeral.
    [decimal_rev] produces the digits least significant first; the fuel
    [Pos.size_nat p] (the number of bits) bounds the number of digits. *)

Fixpoint decimal_rev (fuel : nat) (z : Z) : list ascii :=
  match fuel with
  | O => []
  | S f =>
      let d := ascii_of_nat (48 + Z.to_nat (z mod 10)) in
      if (z <? 10)%Z then [d] else d :: decimal_rev f (z / 10)
  end.

Definition pos_decimal (p : positive) : string :=
  string_of_list_ascii (rev (decimal_rev (Pos.size_nat p) (Zpos p))).

Definition number_to_string (z : Z) : string :=
  match z with
  | Z0 => "0"
  | Zpos p => pos_decimal p
  | Zneg p => String "-" (pos_decimal p)
  end.

(** ** SerializeJSONProperty, on values *)

Fixpoint join_comma (xs : list string) : string :=
  match xs with
  | [] => EmptyString
  | [x] => x
  | x :: xs' => (x ++ String "," (join_comma xs'))%string
  end.

Fixpoint stringify (v : jval) : string :=
  match v with
  | JNull => "null"
  | JBool true => "true"
  | JBool false => "false"
  | JNum n => number_to_string n
  | JStr s => quote s
  | JArr xs => String "[" (join_comma (map stringify xs) ++ "]")%string
  | JObj fs =>
      String "{" (join_comma (map (fun kv => quote kv.1 ++ String ":" (stringify kv.2)) fs)
                  ++ "}")%string
  end.

(** ** JSON.parse *)

Inductive perr : Type :=
| SyntaxError   (** JSON.parse throws a SyntaxError *)
| OutOfScope.   (** the text is valid JSON outside the modelled values *)

Definition is_ws (c : ascii) : bool :=
  match nat_of_ascii c with 9 | 10 | 13 | 32 => true | _ => false end.

Fixpoint skip_ws (s : string) : string :=
  match s with
  | String c t => if is_ws c then skip_ws t else s
  | EmptyString => EmptyString
  end.

Definition hex_value (c : ascii) : option nat :=
  let n := nat_of_ascii c in
  if (48 <=? n)%nat && (n <=? 57)%nat then Some (n - 48)
  else if (97 <=? n)%nat && (n <=? 102)%nat then Some (n - 87)
  else if (65 <=? n)%nat && (n <=? 70)%nat then Some (n - 55)
  else None.

(** The one-letter escapes of the JSON grammar. *)
Definition unescape (c : ascii) : option ascii :=
  match nat_of_ascii c with
  | 34 => Some c_quote
  | 92 => Some c_bslash
  | 47 => Some "/"%char
  | 98 => Some "008"%char
  | 102 => Some "012"%char
  | 110 => Some "010"%char
  | 114 => Some "013"%char
  | 116 => Some "009"%char
  | _ => None
  end.

Definition cons_char (c : ascii) (r : perr + (string * string)) : perr + (string * string) :=
  let? '(str, rest) := r in inr (String c str, rest).

(** The characters of a string literal after its opening quote: the
    decoded contents and the text after the closing quote. *)
Fixpoint parse_chars (s : string) : perr + (string * string) :=
  match s with
  | EmptyString => inl SyntaxError
  | String c t =>
      if Ascii.eqb c c_quote then inr (EmptyString, t)
      else if Ascii.eqb c c_bslash then
        match t with
        | String e t' =>
            if Ascii.eqb e "u" then
              match t' with
              | String h1 (String h2 (String h3 (String h4 t''))) =>
                  match hex_value h1, hex_value h2, hex_value h3, hex_value h4 with
                  | Some a, Some b, Some d, Some f =>
                      let n := a * 4096 + b * 256 + d * 16 + f in
                      if (n <? 256)%nat then cons_char (ascii_of_nat n) (parse_chars t'')
                      else inl OutOfScope
                  | _, _, _, _ => inl SyntaxError
                  end
              | _ => inl SyntaxError
              end
            else
              match unescape e with
              | Some c' => cons_char c' (parse_chars t')
              | None => inl SyntaxError
              end
        | EmptyString => inl SyntaxError
        end
      else if (nat_of_ascii c <? 32)%nat then inl SyntaxError
      else cons_char c (parse_chars t)
  end.

Definition is_digit (c : ascii) : bool :=
  let n := nat_of_ascii c in (48 <=? n)%nat && (n <=? 57)%nat.

Fixpoint take_digits (s : string) : list nat * string :=
  match s with
  | String c t =>
      if is_digit c then let '(ds, r) := take_digits t in ((nat_of_ascii c - 48)%nat :: ds, r)
      else ([], s)
  | EmptyString => ([], EmptyString)
  end.

Definition digits_value (ds : list nat) : Z :=
  fold_left (fun acc d => acc * 10 + Z.of_nat d)%Z ds 0%Z.

(** Doubles represent every integer of magnitude at most 2^53 exactly. *)
Definition max_safe : Z := (2 ^ 53)%Z.

(** The integer part has been read; a fraction or an exponent, or a
    magnitude beyond [max_safe], is outside the modelled numbers. *)
Definition finish_number (neg : bool) (ds : list nat) (r : string) : perr + (jval * string) :=
  match r with
  | String c _ =>
      if Ascii.eqb c "." || Ascii.eqb c "e" || Ascii.eqb c "E" then inl OutOfScope
      else if (digits_value ds <=? max_safe)%Z
           then inr (JNum (if neg then - digits_value ds else digits_value ds)%Z, r)
           else inl OutOfScope
  | EmptyString =>
      if (digits_value ds <=? max_safe)%Z
      then inr (JNum (if neg then - digits_value ds else digits_value ds)%Z, r)
      else inl OutOfScope
  end.

(** The integer part of a number, after its optional minus sign. *)
Definition parse_unsigned (neg : bool) (s1 : string) : perr + (jval * string) :=
  match s1 with
  | String c t =>
      if Ascii.eqb c "0" then finish_number neg [0%nat] t
      else if is_digit c then let '(ds, r) := take_digits s1 in finish_number neg ds r
      else inl SyntaxError
  | EmptyString => inl SyntaxError
  end.

Definition parse_number (s : string) : perr + (jval * string) :=
  match s with
  | String c t => if Ascii.eqb c "-" then parse_unsigned true t else parse_unsigned false s
  | EmptyString => parse_unsigned false s
  end.

(** Matching a fixed word ([null], [true], [false]) after its first letter. *)
Definition literal (w : string) (v : jval) (s : string) : perr + (jval * string) :=
  if String.prefix w s then inr (v, substring (String.length w) (String.length s) s)
  else inl SyntaxError.

(** ** Object construction: OrdinaryOwnPropertyKeys order

    JSON.parse creates the members of an object in source order with
    CreateDataProperty.  A repeated key overwrites the value in place; the
    keys of the object are enumerated array indices first, in ascending
    numeric order, then the other keys in creation order. *)

Definition max_array_index : Z := (2 ^ 32 - 2)%Z.

Definition all_digits (s : string) : bool :=
  forallb is_digit (list_ascii_of_string s).

Definition key_index (k : string) : Z :=
  digits_value (map (fun c => nat_of_ascii c - 48)%nat (list_ascii_of_string k)).

(** An array index is the canonical numeral of an integer below 2^32 - 1. *)
Definition is_array_index (k : string) : bool :=
  match k with
  | String "0" EmptyString => true
  | String c _ =>
      negb (Ascii.eqb c "0") && all_digits k && (key_index k <=? max_array_index)%Z
  | EmptyString => false
  end.

Fixpoint obj_replace (fs : list (string * jval)) (k : string) (v : jval)
    : option (list (string * jval)) :=
  match fs with
  | [] => None
  | (k', v') :: fs' =>
      if String.eqb k' k then Some ((k, v) :: fs')
      else (fun r => (k', v') :: r) <$> obj_replace fs' k v
  end.

Fixpoint index_insert (fs : list (string * jval)) (k : string) (v : jval)
    : list (string * jval) :=
  match fs with
  | [] => [(k, v)]
  | (k', v') :: fs' =>
      if is_array_index k' && (key_index k' <? key_index k)%Z
      then (k', v') :: index_insert fs' k v
      else (k, v) :: fs
  end.

Definition obj_set (fs : list (string * jval)) (k : string) (v : jval)
    : list (string * jval) :=
  match obj_replace fs k v with
  | Some fs' => fs'
  | None => if is_array_index k then index_insert fs k v else fs ++ [(k, v)]
  end.

(** ** The recursive descent

    The fuel bounds the depth of the call tree; every call starts at a
    later position of the text, except [parse_elems] calling [parse_value]
    at the same position, so twice the length of the text plus two is
    enough ([json_parse]). *)

Definition head_is (c : ascii) (s : string) : bool :=
  match s with
  | String d _ => Ascii.eqb d c
  | EmptyString => false
  end.

Definition tail (s : string) : string :=
  match s with
  | String _ t => t
  | EmptyString => EmptyString
  end.

Fixpoint parse_value (n : nat) (s : string) {struct n} : perr + (jval * string) :=
  match n with
  | O => inl SyntaxError
  | S n' =>
      match skip_ws s with
      | EmptyString => inl SyntaxError
      | String c t =>
          if Ascii.eqb c "n" then literal "ull" JNull t
          else if Ascii.eqb c "t" then literal "rue" (JBool true) t
          else if Ascii.eqb c "f" then literal "alse" (JBool false) t
          else if Ascii.eqb c c_quote then
            let? '(str, r) := parse_chars t in inr (JStr str, r)
          else if Ascii.eqb c "[" then
            if head_is "]" (skip_ws t) then inr (JArr [], tail (skip_ws t))
            else let? '(xs, r) := parse_elems n' t [] in inr (JArr xs, r)
          else if Ascii.eqb c "{" then
            if head_is "}" (skip_ws t) then inr (JObj [], tail (skip_ws t))
            else let? '(fs, r) := parse_members n' t [] in inr (JObj fs, r)
          else if Ascii.eqb c "-" || is_digit c then parse_number (String c t)
          else inl SyntaxError
      end
  end
with parse_elems (n : nat) (s : string) (acc : list jval) {struct n}
    : perr + (list jval * string) :=
  match n with
  | O => inl SyntaxError
  | S n' =>
      let? '(v, r) := parse_value n' s in
      if head_is "," (skip_ws r) then parse_elems n' (tail (skip_ws r)) (acc ++ [v])
      else if head_is "]" (skip_ws r) then inr (acc ++ [v], tail (skip_ws r))
      else inl SyntaxError
  end
with parse_members (n : nat) (s : string) (acc : list (string * jval)) {struct n}
    : perr + (list (string * jval) * string) :=
  match n with
  | O => inl SyntaxError
  | S n' =>
      if head_is c_quote (skip_ws s) then
        let? '(k, r1) := parse_chars (tail (skip_ws s)) in
        if head_is ":" (skip_ws r1) then
          let? '(v, r3) := parse_value n' (tail (skip_ws r1)) in
          if head_is "," (skip_ws r3) then parse_members n' (tail (skip_ws r3)) (obj_set acc k v)
          else if head_is "}" (skip_ws r3) then inr (obj_set acc k v, tail (skip_ws r3))
          else inl SyntaxError
        else inl SyntaxError
      else inl SyntaxError
  end.

(** [JSON.parse(text)]: one value, surrounded by white space only. *)
Definition json_parse (s : string) : perr + jval :=
  let? '(v, r) := parse_value (2 * String.length s + 2) s in
  match skip_ws r with
  | EmptyString => inr v
  | _ => inl SyntaxError
  end.

(** ** Well-formed values: those JSON.parse can produce *)

Fixpoint keys_canonical (ks : list string) : bool :=
  match ks with
  | [] => true
  | k :: ks' =>
      negb (existsb (String.eqb k) ks') &&
      (if is_array_index k
       then forallb (fun k' => negb (is_array_index k') || (key_index k <? key_index k')%Z) ks'
       else forallb (fun k' => negb (is_array_index k')) ks') &&
      keys_canonical ks'
  end.

Fixpoint json_wf (v : jval) : bool :=
  match v with
  | JNum n => (Z.abs n <=? max_safe)%Z
  | JArr xs => forallb json_wf xs
  | JObj fs => keys_canonical (map fst fs) && forallb (fun kv => json_wf kv.2) fs
  | _ => true
  end.

(** The fuel a value needs. *)
Fixpoint jsize (v : jval) : nat :=
  match v with
  | JArr xs => S (fold_right (fun x acc => S (jsize x) + acc) 0 xs)
  | JObj fs => S (fold_right (fun kv acc => S (jsize kv.2) + acc) 0 fs)
  | _ => 1
  end.

Section jval_ind.
Variable P : jval -> Prop.
Hypothesis H_null : P JNull.
Hypothesis H_bool : forall b, P (JBool b).
Hypothesis H_num : forall n, P (JNum n).
Hypothesis H_str : forall s, P (JStr s).
Hypothesis H_arr : forall xs, Forall P xs -> P (JArr xs).
Hypothesis H_obj : forall fs, Forall (fun kv => P kv.2) fs -> P (JObj fs).

Fixpoint jval_ind' (v : jval) : P v :=
  match v with
  | JNull => H_null
  | JBool b => H_bool b
  | JNum n => H_num n
  | JStr s => H_str s
  | JArr xs =>
      H_arr xs ((fix go (l : list jval) : Forall P l :=
                   match l with
                   | [] => Forall_nil_2 P
                   | x :: l' => Forall_cons_2 P x l' (jval_ind' x) (go l')
                   end) xs)
  | JObj fs =>
      H_obj fs ((fix go (l : list (string * jval)) : Forall (fun kv => P kv.2) l :=
                   match l with
                   | [] => Forall_nil_2 _
                   | kv :: l' => Forall_cons_2 _ kv l' (jval_ind' kv.2) (go l')
                   end) fs)
  end.
End jval_ind.

(** ** Round trip of string literals *)

Lemma parse_quote_char (c : ascii) (t : string) :
  parse_chars (quote_char c ++ t) = cons_char c (parse_chars t).
Proof. destruct c as [[] [] [] [] [] [] [] []]; reflexivity. Qed.

Lemma parse_quote_body (s rest : string) :
  parse_chars (quote_body s ++ String c_quote rest) = inr (s, rest).
Proof.
  induction s as [|c s IH]; [reflexivity|].
  cbn [quote_body]. rewrite string_app_assoc, parse_quote_char, IH. reflexivity.
Qed.

Lemma quote_app (s rest : string) :
  (quote s ++ rest)%string = String c_quote (quote_body s ++ String c_quote rest).
Proof. unfold quote. rewrite append_cons, string_app_assoc. reflexivity. Qed.

(** ** Round trip of integers *)

Definition to_digit (c : ascii) : nat := (nat_of_ascii c - 48)%nat.

Lemma digits_value_snoc (ds : list nat) (d : nat) :
  digits_value (ds ++ [d]) = (digits_value ds * 10 + Z.of_nat d)%Z.
Proof. unfold digits_value. by rewrite fold_left_app. Qed.

Lemma digit_char (k : nat) :
  (k < 10)%nat -> is_digit (ascii_of_nat (48 + k)) = true /\ to_digit (ascii_of_nat (48 + k)) = k.
Proof. intros Hk. do 10 (destruct k as [|k]; [split; reflexivity|]). lia. Qed.

Lemma pos_size_bound (p : positive) : (Zpos p < 2 ^ Z.of_nat (Pos.size_nat p))%Z.
Proof.
  induction p as [p IH|p IH|]; cbn [Pos.size_nat]; rewrite ?Nat2Z.inj_succ, ?Z.pow_succ_r by lia;
    [rewrite Pos2Z.inj_xI|rewrite Pos2Z.inj_xO|]; lia.
Qed.

Lemma decimal_rev_spec (f : nat) (z : Z) :
  (0 <= z < 2 ^ Z.of_nat f)%Z ->
  Forall (fun c => is_digit c = true) (decimal_rev f z) /\
  digits_value (map to_digit (rev (decimal_rev f z))) = z.
Proof.
  revert z. induction f as [|f IH]; intros z Hz.
  - simpl in Hz. assert (z = 0%Z) as -> by lia. split; [constructor|reflexivity].
  - rewrite Nat2Z.inj_succ, Z.pow_succ_r in Hz by lia.
    pose proof (Z.mod_pos_bound z 10 ltac:(lia)) as Hm.
    destruct (digit_char (Z.to_nat (z mod 10)) ltac:(lia)) as [Hd Hv].
    cbn [decimal_rev]. destruct (Z.ltb_spec z 10).
    + split; [by constructor|]. cbn [rev map app]. unfold digits_value; cbn [fold_left].
      rewrite Hv, Z2Nat.id, Z.mod_small; lia.
    + destruct (IH (z / 10)%Z) as [Hall Hval].
      { split; [apply Z.div_pos; lia|apply Z.div_lt_upper_bound; lia]. }
      split; [by constructor|].
      cbn [rev]. rewrite map_app. cbn [map]. rewrite digits_value_snoc, Hval.
      rewrite Hv, Z2Nat.id by lia. pose proof (Z.div_mod z 10). lia.
Qed.

Lemma decimal_rev_head (f : nat) (z : Z) :
  (0 < z < 2 ^ Z.of_nat f)%Z ->
  exists c cs, rev (decimal_rev f z) = c :: cs /\ to_digit c <> 0%nat.
Proof.
  revert z. induction f as [|f IH]; intros z Hz; [simpl in Hz; lia|].
  rewrite Nat2Z.inj_succ, Z.pow_succ_r in Hz by lia.
  pose proof (Z.mod_pos_bound z 10 ltac:(lia)) as Hm.
  destruct (digit_char (Z.to_nat (z mod 10)) ltac:(lia)) as [_ Hv].
  cbn [decimal_rev]. destruct (Z.ltb_spec z 10).
  - eexists _, []. split; [reflexivity|]. rewrite Hv, Z.mod_small; lia.
  - destruct (IH (z / 10)%Z) as (c & cs & Hrev & Hc).
    { split; [apply Z.div_str_pos; lia|apply Z.div_lt_upper_bound; lia]. }
    exists c, (cs ++ [ascii_of_nat (48 + Z.to_nat (z mod 10))]).
    cbn [rev]. by rewrite Hrev.
Qed.

Definition starts_nondigit (rest : string) : bool :=
  match rest with
  | String c _ => negb (is_digit c)
  | EmptyString => true
  end.

Lemma take_digits_app (cs : list ascii) (rest : string) :
  Forall (fun c => is_digit c = true) cs -> starts_nondigit rest = true ->
  take_digits (string_of_list_ascii cs ++ rest) = (map to_digit cs, rest).
Proof.
  intros Hall Hrest. induction Hall as [|c cs Hc _ IH];
    cbn [string_of_list_ascii]; rewrite ?append_nil_l, ?append_cons; cbn [take_digits].
  - destruct rest as [|c rest]; [reflexivity|]. cbn in Hrest |- *.
    destruct (is_digit c); [discriminate|reflexivity].
  - rewrite Hc, IH. reflexivity.
Qed.

Definition number_delim (rest : string) : bool :=
  match rest with
  | String c _ => negb (is_digit c || Ascii.eqb c "." || Ascii.eqb c "e" || Ascii.eqb c "E")
  | EmptyString => true
  end.

Lemma finish_number_ok (neg : bool) (ds : list nat) (rest : string) :
  number_delim rest = true -> (digits_value ds <= max_safe)%Z ->
  finish_number neg ds rest =
    inr (JNum (if neg then - digits_value ds else digits_value ds)%Z, rest).
Proof.
  intros Hr Hv%Z.leb_le. unfold finish_number.
  destruct rest as [|c r]; [by rewrite Hv|]. cbn in Hr.
  destruct (is_digit c), (Ascii.eqb c "."), (Ascii.eqb c "e"), (Ascii.eqb c "E");
    try discriminate; by rewrite Hv.
Qed.

Lemma digit_not_minus (c : ascii) : is_digit c = true -> Ascii.eqb c "-" = false.
Proof. destruct c as [[] [] [] [] [] [] [] []]; by vm_compute. Qed.

Lemma pos_decimal_digits (p : positive) :
  exists c cs, pos_decimal p = String c (string_of_list_ascii cs) /\
    is_digit c = true /\ Ascii.eqb c "0" = false /\
    Forall (fun c => is_digit c = true) cs /\
    digits_value (map to_digit (c :: cs)) = Zpos p.
Proof.
  pose proof (pos_size_bound p) as Hb.
  destruct (decimal_rev_spec (Pos.size_nat p) (Zpos p)) as [Hall Hval]; [lia|].
  destruct (decimal_rev_head (Pos.size_nat p) (Zpos p)) as (c & cs & Hrev & Hc); [lia|].
  apply Forall_rev in Hall. rewrite Hrev in Hall, Hval. apply Forall_cons in Hall as [Hd Hall].
  exists c, cs. unfold pos_decimal. rewrite Hrev. repeat split; try done.
  destruct (Ascii.eqb_spec c "0") as [->|]; [done|reflexivity].
Qed.

Lemma parse_unsigned_pos (neg : bool) (p : positive) (rest : string) :
  (Zpos p <= max_safe)%Z -> number_delim rest = true ->
  parse_unsigned neg (pos_decimal p ++ rest) =
    inr (JNum (if neg then Zneg p else Zpos p), rest).
Proof.
  intros Hp Hr. destruct (pos_decimal_digits p) as (c & cs & -> & Hd & H0 & Hall & Hval).
  rewrite append_cons. cbn [parse_unsigned]. rewrite H0, Hd.
  rewrite <- append_cons. change (String c (string_of_list_ascii cs))
    with (string_of_list_ascii (c :: cs)).
  rewrite take_digits_app; [|by constructor|].
  - rewrite finish_number_ok, Hval by (rewrite ?Hval; done). by destruct neg.
  - destruct rest as [|d r]; [done|]. cbn in Hr |- *. by destruct (is_digit d).
Qed.

Lemma parse_number_to_string (z : Z) (rest : string) :
  (Z.abs z <= max_safe)%Z -> number_delim rest = true ->
  parse_number (number_to_string z ++ rest) = inr (JNum z, rest).
Proof.
  intros Hz Hr. destruct z as [|p|p]; cbn [number_to_string].
  - rewrite append_cons, append_nil_l. cbn [parse_number parse_unsigned].
    change (Ascii.eqb "0" "-") with false. change (Ascii.eqb "0" "0") with true. cbv iota.
    rewrite finish_number_ok by done. reflexivity.
  - destruct (pos_decimal_digits p) as (c & cs & Hpd & Hd & _).
    rewrite Hpd, append_cons. cbn [parse_number]. rewrite digit_not_minus by done.
    rewrite <- append_cons, <- Hpd. apply parse_unsigned_pos; [lia|done].
  - rewrite append_cons. cbn [parse_number]. change (Ascii.eqb "-" "-") with true. cbv iota.
    apply parse_unsigned_pos; [lia|done].
Qed.

(** ** Round trip of values *)

(** What may follow a value inside a text produced by [stringify]. *)
Definition delim (rest : string) : bool :=
  match rest with
  | String c _ => Ascii.eqb c "," || Ascii.eqb c "]" || Ascii.eqb c "}"
  | EmptyString => true
  end.

Lemma delim_number_delim (rest : string) : delim rest = true -> number_delim rest = true.
Proof.
  destruct rest as [|c r]; [done|]. cbn.
  destruct c as [[] [] [] [] [] [] [] []]; by vm_compute.
Qed.

Lemma string_length_app (w r : string) :
  String.length (w ++ r) = (String.length w + String.length r)%nat.
Proof. induction w as [|c w IH]; rewrite ?append_nil_l, ?append_cons; cbn; lia. Qed.

Lemma substring_0_full (r : string) (m : nat) :
  (String.length r <= m)%nat -> substring 0 m r = r.
Proof.
  revert m. induction r as [|c r IH]; intros [|m] Hm; cbn in *; try done; [lia|].
  rewrite IH; [done|lia].
Qed.

Lemma literal_app (w r : string) (v : jval) : literal w v (w ++ r) = inr (v, r).
Proof.
  unfold literal. rewrite prefix_app_true. do 2 f_equal.
  assert (forall m, substring (String.length w) m (w ++ r) = substring 0 m r) as ->.
  { induction w as [|c w IH]; intros m; [done|]. rewrite append_cons. apply IH. }
  apply substring_0_full. rewrite string_length_app. lia.
Qed.

Lemma skip_ws_nonws (c : ascii) (t : string) :
  is_ws c = false -> skip_ws (String c t) = String c t.
Proof. intros H. cbn. by rewrite H. Qed.

Lemma parse_value_num (n : nat) (c : ascii) (t : string) :
  (Ascii.eqb c "-" || is_digit c) = true ->
  parse_value (S n) (String c t) = parse_number (String c t).
Proof.
  destruct c as [[] [] [] [] [] [] [] []]; intros H; vm_compute in H;
    try discriminate H; reflexivity.
Qed.

Lemma number_head (z : Z) :
  exists c s, number_to_string z = String c s /\ (Ascii.eqb c "-" || is_digit c) = true.
Proof.
  destruct z as [|p|p]; cbn [number_to_string].
  - by eexists _, _.
  - destruct (pos_decimal_digits p) as (c & cs & -> & Hd & _).
    exists c, (string_of_list_ascii cs). by rewrite Hd, orb_true_r.
  - by eexists _, _.
Qed.

Lemma num_head_punct (c : ascii) :
  (Ascii.eqb c "-" || is_digit c) = true ->
  is_ws c = false /\ Ascii.eqb c "]" = false /\ Ascii.eqb c "}" = false.
Proof. destruct c as [[] [] [] [] [] [] [] []]; by vm_compute. Qed.

(** Every printed value starts with a character that is neither white space
    nor a closing bracket. *)
Lemma stringify_head (v : jval) :
  exists c s, stringify v = String c s /\
    is_ws c = false /\ Ascii.eqb c "]" = false /\ Ascii.eqb c "}" = false.
Proof.
  destruct v as [|[]|z|s|xs|fs]; try by eexists _, _.
  destruct (number_head z) as (c & s & Hs & Hc). exists c, s. split; [done|].
  by apply num_head_punct.
Qed.

Lemma keys_canonical_snoc (ks : list string) (k : string) :
  keys_canonical (ks ++ [k]) = true ->
  Forall (fun k' => k' <> k) ks /\
  (is_array_index k = true ->
   Forall (fun k' => is_array_index k' = true /\ (key_index k' < key_index k)%Z) ks).
Proof.
  induction ks as [|k' ks IH]; cbn [app keys_canonical]; [done|].
  intros [[Hnd Hord]%andb_prop Hrest]%andb_prop. destruct (IH Hrest) as [IH1 IH2].
  rewrite existsb_app in Hnd. cbn in Hnd.
  destruct (String.eqb_spec k' k); [by rewrite orb_true_r in Hnd|].
  split; [by constructor|]. intros Hk. constructor; [|by apply IH2].
  destruct (is_array_index k') eqn:Hk'; rewrite forallb_app in Hord; cbn in Hord.
  - rewrite Hk in Hord. split; [done|]. apply Z.ltb_lt. by destruct (_ <? _)%Z;
      rewrite ?andb_false_r in Hord.
  - rewrite Hk in Hord. by rewrite andb_false_r in Hord.
Qed.

Lemma obj_replace_none (fs : list (string * jval)) (k : string) (v : jval) :
  Forall (fun k' => k' <> k) (map fst fs) -> obj_replace fs k v = None.
Proof.
  induction fs as [|[k' v'] fs IH]; intros Hne; [done|]. cbn in Hne |- *.
  apply Forall_cons in Hne as [Hne Hall].
  destruct (String.eqb_spec k' k); [done|]. by rewrite IH.
Qed.

Lemma index_insert_end (fs : list (string * jval)) (k : string) (v : jval) :
  Forall (fun k' => is_array_index k' = true /\ (key_index k' < key_index k)%Z) (map fst fs) ->
  index_insert fs k v = fs ++ [(k, v)].
Proof.
  induction fs as [|[k' v'] fs IH]; intros Hall; [done|]. cbn in Hall |- *.
  apply Forall_cons in Hall as [[Hi Hlt] Hall].
  rewrite Hi. apply Z.ltb_lt in Hlt. rewrite Hlt. cbn. by rewrite IH.
Qed.

(** Creating a new key at the end of the canonical order appends it. *)
Lemma obj_set_snoc (fs : list (string * jval)) (k : string) (v : jval) :
  keys_canonical (map fst fs ++ [k]) = true -> obj_set fs k v = fs ++ [(k, v)].
Proof.
  intros [Hne Hidx]%keys_canonical_snoc. unfold obj_set.
  rewrite obj_replace_none by done.
  destruct (is_array_index k) eqn:Hk; [|done]. by apply index_insert_end, Hidx.
Qed.

Lemma join_comma_cons (s : string) (ss : list string) (r : string) :
  (join_comma (s :: ss) ++ r)%string =
  (s ++ match ss with [] => r | _ => String "," (join_comma ss ++ r) end)%string.
Proof. destruct ss; cbn [join_comma]; by rewrite ?string_app_assoc, ?append_cons. Qed.

Lemma join_stringify_head (xs : list jval) (r : string) :
  xs <> [] ->
  exists c s, (join_comma (map stringify xs) ++ r)%string = String c s /\
    is_ws c = false /\ Ascii.eqb c "]" = false.
Proof.
  destruct xs as [|x xs]; [done|]. intros _. cbn [map]. rewrite join_comma_cons.
  destruct (stringify_head x) as (c & s & -> & Hw & Hb & _).
  rewrite append_cons. by eexists _, _.
Qed.

Lemma join_map_one {A} (f : A -> string) (x : A) (r : string) :
  (join_comma (map f [x]) ++ r)%string = (f x ++ r)%string.
Proof. reflexivity. Qed.

Lemma join_map_cons2 {A} (f : A -> string) (x y : A) (ys : list A) (r : string) :
  (join_comma (map f (x :: y :: ys)) ++ r)%string =
  (f x ++ String "," (join_comma (map f (y :: ys)) ++ r))%string.
Proof. cbn [map join_comma]. by rewrite string_app_assoc, append_cons. Qed.

Definition member_text (kv : string * jval) : string :=
  (quote kv.1 ++ String ":" (stringify kv.2))%string.

Lemma join_members_head (fs : list (string * jval)) (r : string) :
  fs <> [] ->
  exists s, (join_comma (map member_text fs) ++ r)%string = String c_quote s.
Proof.
  destruct fs as [|kv fs]; [done|]. intros _. cbn [map]. rewrite join_comma_cons.
  unfold member_text. rewrite string_app_assoc, quote_app. by eexists.
Qed.

Lemma stringify_obj (fs : list (string * jval)) :
  stringify (JObj fs) = String "{" (join_comma (map member_text fs) ++ "}").
Proof. reflexivity. Qed.

(** [v] is read back from its text, whatever delimiter follows it. *)
Definition parses_back (v : jval) : Prop :=
  forall n rest, (jsize v <= n)%nat -> delim rest = true ->
  parse_value n (stringify v ++ rest) = inr (v, rest).

(** Reduction of the punctuation tests on a concrete head character. *)
Ltac punct :=
  cbn [sbind]; rewrite ?skip_ws_nonws by reflexivity;
  cbn [head_is tail c_quote Ascii.eqb Bool.eqb andb orb].

Lemma parse_elems_ok (xs : list jval) :
  Forall (fun x => json_wf x = true -> parses_back x) xs -> forallb json_wf xs = true ->
  forall n acc rest, xs <> [] ->
  (fold_right (fun x a => S (jsize x) + a) 0 xs <= n)%nat ->
  parse_elems n (join_comma (map stringify xs) ++ String "]" rest) acc = inr (acc ++ xs, rest).
Proof.
  induction 1 as [|x xs Hx Hxs IH]; intros Hwf n acc rest Hne Hn; [done|].
  cbn [forallb] in Hwf. apply andb_prop in Hwf as [Hwx Hwxs].
  destruct n as [|n]; [cbn in Hn; lia|]. cbn [fold_right] in Hn. cbn [parse_elems].
  destruct xs as [|y ys].
  - rewrite join_map_one, (Hx Hwx n) by (done || lia). punct. reflexivity.
  - rewrite join_map_cons2, (Hx Hwx n) by (done || lia). punct.
    rewrite IH by (done || cbn [fold_right] in *; lia). by rewrite <- app_assoc.
Qed.

Lemma keys_canonical_app_l (l1 l2 : list string) :
  keys_canonical (l1 ++ l2) = true -> keys_canonical l1 = true.
Proof.
  induction l1 as [|k l1 IH]; [done|]. cbn [app keys_canonical].
  rewrite existsb_app, !forallb_app.
  intros [[Hnd Hord]%andb_prop Hrest]%andb_prop. rewrite (IH Hrest), andb_true_r.
  apply andb_true_intro. split.
  - destruct (existsb _ l1); [by rewrite orb_true_l in Hnd|done].
  - destruct (is_array_index k); by apply andb_prop in Hord as [-> _].
Qed.

Lemma member_text_eq (k : string) (v : jval) :
  member_text (k, v) = (quote k ++ String ":" (stringify v))%string.
Proof. reflexivity. Qed.

Lemma parse_members_ok (fs : list (string * jval)) :
  Forall (fun kv => json_wf kv.2 = true -> parses_back kv.2) fs ->
  forallb (fun kv => json_wf kv.2) fs = true ->
  forall n acc rest, fs <> [] ->
  keys_canonical (map fst (acc ++ fs)) = true ->
  (fold_right (fun kv a => S (jsize kv.2) + a) 0 fs <= n)%nat ->
  parse_members n (join_comma (map member_text fs) ++ String "}" rest) acc = inr (acc ++ fs, rest).
Proof.
  induction 1 as [|[k v] fs Hv Hfs IH]; intros Hwf n acc rest Hne Hcan Hn; [done|].
  cbn [forallb snd] in Hwf, Hv. apply andb_prop in Hwf as [Hwv Hwfs].
  destruct n as [|n]; [cbn in Hn; lia|]. cbn [fold_right snd] in Hn. cbn [parse_members].
  assert (Hset : obj_set acc k v = acc ++ [(k, v)]).
  { apply obj_set_snoc, (keys_canonical_app_l _ (map fst fs)).
    rewrite map_app in Hcan. by rewrite <- app_assoc. }
  destruct fs as [|kv' fs'].
  - rewrite join_map_one, member_text_eq, string_app_assoc, quote_app, append_cons.
    punct. rewrite parse_quote_body. punct.
    rewrite (Hv Hwv n) by (done || lia). punct. by rewrite Hset.
  - rewrite join_map_cons2, member_text_eq, string_app_assoc, quote_app, append_cons.
    punct. rewrite parse_quote_body. punct.
    rewrite (Hv Hwv n) by (done || lia). punct. rewrite Hset, IH; [by rewrite <- app_assoc|done|done|..].
    + by rewrite <- app_assoc.
    + cbn [fold_right] in *; lia.
Qed.

Lemma parse_stringify (v : jval) : json_wf v = true -> parses_back v.
Proof.
  induction v as [| [] | z | s | xs IH | fs IH] using jval_ind';
    intros Hwf n rest Hn Hr; (destruct n as [|n]; [cbn in Hn; lia|]).
  1-3: cbn [stringify]; rewrite append_cons; cbn [parse_value]; punct; apply literal_app.
  - destruct (number_head z) as (c & s & Hs & Hc).
    cbn [stringify]. rewrite Hs, append_cons, parse_value_num, <- append_cons, <- Hs by done.
    apply parse_number_to_string; [by apply Z.leb_le|by apply delim_number_delim].
  - cbn [stringify]. rewrite quote_app. cbn [parse_value]. punct.
    rewrite parse_quote_body. reflexivity.
  - cbn [stringify]. rewrite append_cons, string_app_assoc, (append_cons "]"), append_nil_l.
    cbn [parse_value]. punct. destruct xs as [|x xs].
    + cbn [map join_comma]. rewrite append_nil_l. punct. reflexivity.
    + destruct (join_stringify_head (x :: xs) (String "]" rest)) as (c & t & Ht & Hw & Hb);
        [done|].
      rewrite Ht, skip_ws_nonws by done. cbn [head_is]. rewrite Hb, <- Ht.
      rewrite parse_elems_ok by (done || cbn [jsize] in Hn; lia). reflexivity.
  - rewrite stringify_obj, append_cons, string_app_assoc, (append_cons "}"), append_nil_l.
    cbn [parse_value]. punct. destruct fs as [|kv fs].
    + cbn [map join_comma]. rewrite append_nil_l. punct. reflexivity.
    + cbn [json_wf] in Hwf. apply andb_prop in Hwf as [Hcan Hwf].
      destruct (join_members_head (kv :: fs) (String "}" rest)) as (t & Ht); [done|].
      rewrite Ht, skip_ws_nonws by done. cbn [head_is]. rewrite <- Ht.
      rewrite parse_members_ok by (done || cbn [jsize] in Hn; lia). reflexivity.
Qed.

Lemma join_comma_length (ss : list string) :
  (fold_right (fun s a => String.length s + 1 + a) 0 ss <= String.length (join_comma ss) + 1)%nat.
Proof.
  induction ss as [|s ss IH]; [cbn; lia|]. destruct ss as [|s' ss]; [cbn; lia|].
  change (join_comma (s :: s' :: ss)) with (s ++ String "," (join_comma (s' :: ss)))%string.
  rewrite string_length_app. cbn [String.length fold_right] in *. lia.
Qed.

Lemma jsize_le_length (v : jval) : (jsize v <= String.length (stringify v))%nat.
Proof.
  induction v as [| [] | z | s | xs IH | fs IH] using jval_ind'; cbn [jsize stringify];
    try (cbn; lia).
  - destruct (number_head z) as (c & s & -> & _). cbn. lia.
  - cbn [String.length]. rewrite string_length_app. cbn [String.length].
    enough (fold_right (fun x a => S (jsize x) + a) 0 xs <=
            fold_right (fun s a => String.length s + 1 + a) 0 (map stringify xs))%nat
      by (pose proof (join_comma_length (map stringify xs)); lia).
    induction IH as [|x xs Hx _ IHxs]; cbn [fold_right map]; lia.
  - cbn [String.length]. rewrite string_length_app. cbn [String.length].
    enough (fold_right (fun kv a => S (jsize kv.2) + a) 0 fs <=
            fold_right (fun s a => String.length s + 1 + a) 0
              (map (fun kv => quote kv.1 ++ String ":" (stringify kv.2))%string fs))%nat
      by (pose proof (join_comma_length
                        (map (fun kv => quote kv.1 ++ String ":" (stringify kv.2))%string fs)); lia).
    induction IH as [|[k v] fs Hv _ IHfs]; cbn [fold_right map fst snd] in *; [lia|].
    rewrite !string_length_app. cbn [String.length]. lia.
Qed.

(** The round trip, with the fuel [json_parse] gives itself. *)
Lemma json_roundtrip (v : jval) : json_wf v = true -> json_parse (stringify v) = inr v.
Proof.
  intros Hwf. unfold json_parse.
  pose proof (parse_stringify v Hwf (2 * String.length (stringify v) + 2) EmptyString) as H.
  rewrite string_app_nil_r in H. rewrite H; [reflexivity| |reflexivity].
  pose proof (jsize_le_length v). lia.
Qed.

(** C4: JSON.parse reads back what JSON.stringify wrote, for every value
    JSON.parse can produce. *)
Theorem json_parse_stringify (v : jval) : json_wf v = true -> json_parse (stringify v) = inr v.
Proof. apply json_roundtrip. Qed.

(** The decimal numeral of a natural number determines it. *)
Definition decimal_value (s : string) : Z :=
  digits_value (map to_digit (list_ascii_of_string s)).

Lemma decimal_value_nat (n : nat) : decimal_value (number_to_string (Z.of_nat n)) = Z.of_nat n.
Proof.
  destruct n as [|n]; [reflexivity|].
  change (number_to_string (Z.of_nat (S n))) with (pos_decimal (Pos.of_succ_nat n)).
  change (Z.of_nat (S n)) with (Zpos (Pos.of_succ_nat n)).
  destruct (pos_decimal_digits (Pos.of_succ_nat n)) as (c & cs & -> & _ & _ & _ & Hv).
  unfold decimal_value. cbn [list_ascii_of_string].
  by rewrite list_ascii_of_string_of_list_ascii.
Qed.

Lemma number_to_string_nat_inj (m n : nat) :
  number_to_string (Z.of_nat m) = number_to_string (Z.of_nat n) -> m = n.
Proof.
  intros H. apply (f_equal decimal_value) in H. rewrite !decimal_value_nat in H. lia.
Qed.

(** A restaurant row list as the cache stores it, with a backslash, a
    negative number and nested values. *)
Definition sample_rows : jval :=
  JArr [JObj [("id", JStr "00000000-0000-4000-8000-1"); ("name", JStr "C:\Pizza")];
        JObj [("id", JStr "7"); ("name", JNull); ("stars", JArr [JNum (-42); JBool true])]].

Lemma json_parse_stringify_witness : json_parse (stringify sample_rows) = inr sample_rows.
Proof. apply json_parse_stringify. vm_compute. reflexivity. Defined.
