(* ===== verification/Gateway.v ===== *)
(** * The API gateway ([services/api-gateway/index.js])

    An Express 4 application: [express.json()] first, then four
    [http-proxy-middleware] (v2) mounts, [/auth], [/restaurants],
    [/orders], [/payments], each forwarding to one service.  Express tries
    the mounts in order; a mount path matches the request's pathname
    case-insensitively up to a segment boundary ([^\/auth\/?(?=\/|$)]
    with flag [i]).  The proxy forwards [req.originalUrl], the URL as the
    client sent it, so the services see their own paths.  No match is
    Express's 404.

    [express.json()] reads the body of every request whose Content-Type is
    [application/json]: it answers 413 when the body is over its 100kb
    limit, 400 when the body is not JSON (or, in strict mode, when it does
    not start with [{] or [[]), and otherwise leaves the request stream
    drained (the identity content encoding and UTF-8 are assumed).  The proxy then pipes a drained
    stream: the upstream receives the headers (with the original
    Content-Length) and no body.

    The theorems show that first-match dispatch agrees with the
    longest-prefix dispatch of the specification for this table, where
    each path goes, the 100kb body limit and the timeouts, and that a
    JSON body the gateway accepted is forwarded as a drained stream. *)

From S2P Require Import Prelude Json.
From stdpp Require Import base strings list.
From Stdlib Require Import String Ascii ZArith Lia.

Module Gateway.

(** ** The route table *)

(** The options given to [createProxyMiddleware]. *)
Record proxy_options := mk_proxy {
  target : string;
  changeOrigin : bool;
  timeout : option Z;        (** ms; [None]: no timeout set *)
  proxyTimeout : option Z
}.

(** [app.use(mount, createProxyMiddleware(options))], in the order of the source. *)
Definition routes : list (string * proxy_options) := [
  ("/auth", mk_proxy "http://auth-service:4001" true (Some 60000%Z) (Some 60000%Z));
  ("/restaurants", mk_proxy "http://restaurant-service:4002" true None None);
  ("/orders", mk_proxy "http://order-service:4003" true None None);
  ("/payments", mk_proxy "http://payment-service:4004" true None None)
]%string.

(** ** Requests and what the gateway does with them *)

(** A request: [url] as on the request line (origin form), [json_type]
    when its Content-Type is [application/json], [body] [None] when it
    has no body framing (no Content-Length, no Transfer-Encoding), and
    [chunked] when the body is framed by Transfer-Encoding rather than by
    Content-Length. *)
Record request := mk_request {
  method : string;
  url : string;
  json_type : bool;
  body : option string;
  chunked : bool
}.

(** What reaches the service: the body as sent, or a drained stream. *)
Inductive forwarded_body : Type :=
| Intact (b : option string)
| Drained.

Inductive outcome : Type :=
| Forward (to : string) (path : string) (b : forwarded_body) (t pt : option Z)
| Refused (code : Z)  (** 400 or 413 from [express.json()] *)
| NotFound            (** Express's final 404 *)
| Unmodelled.         (** a JSON body outside the modelled values *)

(** [parseurl(req).pathname]: the URL up to its query or fragment. *)
Fixpoint pathname (u : string) : string :=
  match u with
  | EmptyString => EmptyString
  | String c r => if Ascii.eqb c "?" || Ascii.eqb c "#" then EmptyString else String c (pathname r)
  end.

(** The lookahead [(?=\/|$)]: the rest is empty or starts a new segment. *)
Definition boundary (rest : string) : bool :=
  match rest with
  | EmptyString => true
  | String c _ => Ascii.eqb c "/"
  end.

(** The mount regexp [^\/m\/?(?=\/|$)] with flag [i], on a pathname.
    ([\/?] may take a slash only if another slash or the end follows, so
    it changes nothing.) *)
Definition mount_matches (m path : string) : bool :=
  let lm := lower m in
  let lp := lower path in
  String.prefix lm lp && boundary (substring (String.length lm) (String.length lp) lp).

(** Express's router: the first mount whose path matches. *)
Definition dispatch (path : string) : option (string * proxy_options) :=
  List.find (fun r => mount_matches r.1 path) routes.

(** ** [express.json()] (body-parser, strict mode) *)

Inductive body_state : Type :=
| Untouched        (** not a JSON request, or no body: the stream is left alone *)
| Consumed (v : jval)   (** parsed into [req.body]; the stream is drained *)
| Rejected (code : Z)   (** 400: not JSON; 413: over the 100kb limit *)
| BodyUnmodelled.

(** The strict check: the first non-whitespace character is [{] or [[]. *)
Definition strict_first (s : string) : bool :=
  match skip_ws s with
  | String c _ => Ascii.eqb c "{" || Ascii.eqb c "["
  | EmptyString => false
  end.

(** body-parser's default [limit] of 100kb, in bytes. *)
Definition body_limit : Z := 102400.

Definition json_body (r : request) : body_state :=
  if json_type r then
    match body r with
    | None => Untouched
    | Some s =>
        if (body_limit <? Z.of_nat (String.length s))%Z then Rejected 413
        else match s with
        | EmptyString => Consumed (JObj [])
        | _ =>
            if strict_first s then
              match json_parse s with
              | inr v => Consumed v
              | inl SyntaxError => Rejected 400
              | inl OutOfScope => BodyUnmodelled
              end
            else Rejected 400
        end
    end
  else Untouched.

(** The gateway on one request. *)
Definition gateway (r : request) : outcome :=
  match json_body r with
  | Rejected c => Refused c
  | BodyUnmodelled => Unmodelled
  | st =>
      match dispatch (pathname (url r)) with
      | Some (_, o) =>
          Forward (target o) (url r)
                  (match st with Consumed _ => Drained | _ => Intact (body r) end)
                  (timeout o) (proxyTimeout o)
      | None => NotFound
      end
  end.

(** ** The specification's router: the longest matching prefix wins *)

Definition longer (r : string * proxy_options) (best : option (string * proxy_options)) : bool :=
  match best with
  | None => true
  | Some b => (String.length b.1 <? String.length r.1)%nat
  end.

Definition longest_match (path : string) : option (string * proxy_options) :=
  fold_left (fun best r => if mount_matches r.1 path && longer r best then Some r else best)
            routes None.

(** ** Dispatch *)

Lemma prefix_common (a b s : string) :
  String.prefix a s = true -> String.prefix b s = true ->
  String.prefix a b = true \/ String.prefix b a = true.
Proof.
  revert b s. induction a as [|c a IH]; intros [|d b] [|e s]; cbn; auto; try discriminate.
  destruct (ascii_dec c e) as [<-|]; [|discriminate]. destruct (ascii_dec d c) as [<-|]; [|discriminate].
  destruct (ascii_dec d d); [|congruence]. eauto.
Qed.

(** Two mounts neither of whose paths is a prefix of the other never match
    the same pathname. *)
Lemma two_mounts (m1 m2 p : string) :
  String.prefix (lower m1) (lower m2) = false -> String.prefix (lower m2) (lower m1) = false ->
  mount_matches m1 p = true -> mount_matches m2 p = false.
Proof.
  unfold mount_matches. intros H12 H21 [H1 _]%andb_prop.
  destruct (String.prefix (lower m2) (lower p)) eqn:H2; [|done].
  destruct (prefix_common _ _ _ H1 H2); congruence.
Qed.

Ltac mounts_apart :=
  match goal with
  | H : mount_matches ?m1 ?p = true |- context [mount_matches ?m2 ?p] =>
      rewrite (two_mounts m1 m2 p) by (done || vm_compute; reflexivity)
  end.

(** The mount that matches is the one dispatch picks. *)
Lemma dispatch_some (m : string) (o : proxy_options) (p : string) :
  In (m, o) routes -> mount_matches m p = true -> dispatch p = Some (m, o).
Proof.
  unfold dispatch. intros Hin Hm. cbn in Hin.
  repeat destruct Hin as [Heq|Hin]; try done; injection Heq as <- <-;
    cbn -[mount_matches]; rewrite Hm; repeat mounts_apart; reflexivity.
Qed.

Lemma dispatch_none (p : string) :
  Forall (fun r => mount_matches r.1 p = false) routes -> dispatch p = None.
Proof.
  unfold dispatch. intros Hall.
  induction Hall as [|r rs Hr _ IH]; cbn; [done|]. rewrite Hr. by apply IH.
Qed.
(** ** Properties *)

(** C17: First match is longest match.  For every pathname, the mount
    Express picks (the first in source order that matches) is the one the
    specification's router picks (the longest matching prefix): no two
    mounts of the table can both match a path. *)
Theorem dispatch_longest (p : string) : dispatch p = longest_match p.
Proof.
  unfold dispatch, longest_match, routes. cbn -[mount_matches].
  destruct (mount_matches "/auth" p) eqn:Ha; [repeat mounts_apart; reflexivity|].
  destruct (mount_matches "/restaurants" p) eqn:Hr; [repeat mounts_apart; reflexivity|].
  destruct (mount_matches "/orders" p) eqn:Ho; [repeat mounts_apart; reflexivity|].
  by destruct (mount_matches "/payments" p).
Qed.

(** C26: Routing.  A request whose body [express.json()] accepts (or does
    not read) and whose pathname matches the mount [m] is forwarded to
    [m]'s service with its URL unchanged and [m]'s timeouts; a request
    whose pathname matches no mount is answered 404. *)
Theorem gateway_routes (r : request) (m : string) (o : proxy_options) :
  json_body r = Untouched \/ (exists v, json_body r = Consumed v) ->
  (In (m, o) routes -> mount_matches m (pathname (url r)) = true ->
   exists b, gateway r = Forward (target o) (url r) b (timeout o) (proxyTimeout o)) /\
  (Forall (fun r' => mount_matches r'.1 (pathname (url r)) = false) routes -> gateway r = NotFound).
Proof.
  intros Hb. split.
  - intros Hin Hm. unfold gateway. rewrite (dispatch_some m o _ Hin Hm).
    destruct Hb as [-> | [v ->]]; eauto.
  - intros Hnone. unfold gateway. rewrite dispatch_none by done. by destruct Hb as [-> | [v ->]].
Qed.

Lemma json_body_drained (r : request) (s : string) to path b t pt :
  json_type r = true -> body r = Some s ->
  gateway r = Forward to path b t pt -> b = Drained.
Proof.
  intros Hj Hs. unfold gateway, json_body. rewrite Hj, Hs.
  destruct (body_limit <? _)%Z; [discriminate|].
  destruct s as [|c s']; [by destruct (dispatch _) as [[]|]; intros; simplify_eq|].
  destruct (strict_first _); [|discriminate].
  destruct (json_parse _) as [[]|]; try discriminate.
  destruct (dispatch _) as [[]|]; by intros; simplify_eq.
Qed.

(** C28: Only [/auth] has a timeout.  A request forwarded to any service
    but the auth service is forwarded with neither [timeout] nor
    [proxyTimeout]: the gateway waits for those services without bound. *)
Theorem gateway_timeouts (r : request) to path b t pt :
  gateway r = Forward to path b t pt ->
  (to = "http://auth-service:4001"%string /\ t = Some 60000%Z /\ pt = Some 60000%Z) \/
  (to <> "http://auth-service:4001"%string /\ t = None /\ pt = None).
Proof.
  unfold gateway, dispatch, routes. cbn -[mount_matches json_body].
  destruct (json_body r); try discriminate;
    repeat case_match; intros; simplify_eq; (left; done) || (right; done).
Qed.

(** Whatever the gateway does with a request, it is not [Refused 413]
    unless [express.json()] rejected it for its size. *)
Lemma gateway_refused (r : request) (c : Z) : gateway r = Refused c <-> json_body r = Rejected c.
Proof.
  unfold gateway. split; [|by intros ->].
  destruct (json_body r); try discriminate; [..|by intros [= ->]];
    destruct (dispatch _) as [[]|]; discriminate.
Qed.

(** C24: The 100kb limit, at its boundary.  A request with a JSON body is
    refused with 413 by the gateway exactly when its body has more than
    102400 bytes: a body of 102400 bytes is let through (or answered 400
    when malformed), one of 102401 bytes is not. *)
Theorem gateway_body_limit (r : request) (s : string) :
  json_type r = true -> body r = Some s ->
  gateway r = Refused 413 <-> (102400 < Z.of_nat (String.length s))%Z.
Proof.
  intros Hj Hb. rewrite gateway_refused. unfold json_body. rewrite Hj, Hb.
  unfold body_limit. destruct (Z.ltb_spec 102400 (Z.of_nat (String.length s))); [done|].
  split; [|lia]. destruct s; [discriminate|].
  destruct (strict_first _); [|discriminate]. by destruct (json_parse _) as [[]|].
Qed.

(** ** Requests through the gateway *)

Definition register_json : string :=
  stringify (JObj [("email", JStr "ada@example.com"); ("password", JStr "pw")]).
Definition post_register_req : request := mk_request "POST" "/auth/register" true (Some register_json) false.
Definition get_restaurants_req : request := mk_request "GET" "/Restaurants?page=1" false None false.
Definition get_authx_req : request := mk_request "GET" "/authx" false None false.

Lemma gateway_routes_witness :
  (exists b, gateway get_restaurants_req =
     Forward "http://restaurant-service:4002" "/Restaurants?page=1" b None None) /\
  gateway get_authx_req = NotFound.
Proof.
  split.
  - apply (gateway_routes get_restaurants_req "/restaurants"
             (mk_proxy "http://restaurant-service:4002" true None None)); [by left|..].
    + cbn. tauto.
    + vm_compute. reflexivity.
  - apply (gateway_routes get_authx_req "/auth"
             (mk_proxy "http://auth-service:4001" true (Some 60000%Z) (Some 60000%Z))); [by left|].
    repeat constructor; vm_compute; reflexivity.
Defined.

Lemma gateway_timeouts_witness :
  gateway get_restaurants_req = Forward "http://restaurant-service:4002" "/Restaurants?page=1"
                                        (Intact None) None None /\
  ("http://restaurant-service:4002"%string <> "http://auth-service:4001"%string /\
   @None Z = None /\ @None Z = None).
Proof.
  assert (Hg : gateway get_restaurants_req = Forward "http://restaurant-service:4002"
             "/Restaurants?page=1" (Intact None) None None) by (vm_compute; reflexivity).
  split; [exact Hg|].
  destruct (gateway_timeouts _ _ _ _ _ _ Hg) as [[Heq _]|Hr]; [discriminate Heq|exact Hr].
Defined.

(** A JSON array padded with spaces to [n] bytes. *)
Definition padded_json (n : Z) : string :=
  String "[" (string_of_list_ascii (repeat " "%char (Z.to_nat (n - 2))) ++ "]").
Definition sized_req (n : Z) : request :=
  mk_request "POST" "/payments" true (Some (padded_json n)) false.

Lemma gateway_body_limit_witness :
  gateway (sized_req 102401) = Refused 413 /\ gateway (sized_req 102400) <> Refused 413.
Proof.
  split.
  - apply (gateway_body_limit (sized_req 102401) (padded_json 102401)); [reflexivity..|].
    vm_compute. reflexivity.
  - intros Hg. apply (gateway_body_limit (sized_req 102400) (padded_json 102400)) in Hg;
      [|reflexivity..]. vm_compute in Hg. discriminate Hg.
Defined.

End Gateway.
