(* ===== verification/Backend.v ===== *)
(** * The shared backend: PostgreSQL, Redis, the BullMQ queue, uuid

    All services talk to one PostgreSQL database ([shared/db/postgres]),
    one Redis instance (the restaurant cache, and through BullMQ the
    [order-events] queue of [shared/queue/redis]) and draw identifiers from
    [uuid].  This file models that world as one record [world] and every
    awaited call of the handlers as an [effect] whose execution [exec]
    changes the world, so that the handlers of the services are programs
    ([prog effect reply]) run against one shared state.

    The semantics of the libraries (node-postgres, PostgreSQL, Redis,
    BullMQ) is written from their documented behaviour; the code of the
    repository is in the service files. *)

From S2P Require Import Prelude Json.
From stdpp Require Import base strings list gmap.
From Stdlib Require Import String Ascii ZArith Lia.

(** ** JavaScript values seen by the handlers

    [None] is [undefined]; [Some v] a value JSON can carry.  After
    [express.json()] (Express 4) [req.body] is an object or an array, [{}]
    when the request had no JSON body. *)

Definition jsv := option jval.

(** Property access [o.k]: an own property of an object, [undefined]
    otherwise (the handlers only read [name], [email], [password], [role],
    which no array or primitive has). *)
Fixpoint assoc (k : string) (fs : list (string * jval)) : jsv :=
  match fs with
  | [] => None
  | (k', v) :: fs' => if String.eqb k' k then Some v else assoc k fs'
  end.

Definition js_get (o : jsv) (k : string) : jsv :=
  match o with
  | Some (JObj fs) => assoc k fs
  | _ => None
  end.

(** ToBoolean, for [if (cache)] and [role || "USER"]. *)
Definition js_truthy (v : jsv) : bool :=
  match v with
  | None | Some JNull | Some (JBool false) | Some (JNum 0) => false
  | Some (JStr s) => negb (String.eqb s "")
  | _ => true
  end.

(** [a || b] *)
Definition js_or (a b : jsv) : jsv := if js_truthy a then a else b.

(** ** node-postgres: how a JavaScript parameter becomes an SQL value

    [prepareValue] of node-postgres ([lib/utils.js]): [null] and
    [undefined] become NULL, arrays a PostgreSQL array literal, other
    objects their JSON text, primitives their [toString()]. *)

Definition escape_element (s : string) : string :=
  String c_quote
    (String.concat ""
       (map (fun c => if Ascii.eqb c c_bslash then String c_bslash (str1 c_bslash)
                      else if Ascii.eqb c c_quote then String c_bslash (str1 c_quote)
                      else str1 c) (list_ascii_of_string s)) ++ str1 c_quote).

Fixpoint prepare_value (v : jval) : option string :=
  match v with
  | JNull => None
  | JBool true => Some "true"
  | JBool false => Some "false"
  | JNum n => Some (number_to_string n)
  | JStr s => Some s
  | JObj _ => Some (stringify v)
  | JArr xs =>
      Some (String "{"
              (String.concat ","
                 (map (fun x => match x with
                                | JNull => "NULL"
                                | JArr _ => default "" (prepare_value x)
                                | _ => escape_element (default "" (prepare_value x))
                                end) xs) ++ "}"))
  end.

Definition prepare (v : jsv) : option string := v ≫= prepare_value.

(** ** PostgreSQL: the three tables and the queries the services send *)

Record restaurant_row := mk_restaurant { r_id : string; r_name : option string }.
Record order_row := mk_order { o_id : string; o_status : option string }.
Record user_row := mk_user { u_id : string; u_email : string; u_password : string; u_role : string }.

(** A table that has not been created yet is [None]. *)
Record db := mk_db {
  t_restaurants : option (list restaurant_row);
  t_orders : option (list order_row);
  t_users : option (list user_row)
}.

Definition db_empty : db := mk_db None None None.

(** The SQL texts of the services, with their parameters. *)
Inductive query : Type :=
| CreateRestaurants                             (** CREATE TABLE IF NOT EXISTS restaurants(id UUID, name TEXT) *)
| InsertRestaurant (id : string) (name : jsv)   (** INSERT INTO restaurants VALUES($1,$2) *)
| SelectRestaurants                             (** SELECT * FROM restaurants *)
| CreateOrders                                  (** CREATE TABLE IF NOT EXISTS orders(id UUID, status TEXT) *)
| InsertOrder (id : string) (status : jsv)      (** INSERT INTO orders VALUES($1,$2) *)
| CreateUsers                                   (** CREATE TABLE IF NOT EXISTS users (...) *)
| InsertUser (id : string) (email password role : jsv)  (** INSERT INTO users VALUES($1,$2,$3,$4) *)
| SelectUserByEmail (email : jsv).              (** SELECT * FROM users WHERE email=$1 *)

Inductive db_error : Type :=
| ConnectionRefused     (** the server is not accepting connections yet *)
| UndefinedTable        (** relation does not exist *)
| NotNullViolation
| UniqueViolation
| InvalidByteSequence.  (** 22021: a text parameter contains the byte 0x00 *)

(** Rows as node-postgres returns them: one object per row, its columns in
    table order; a UUID comes back as its text, NULL as [null]. *)
Definition sql_json (v : option string) : jval :=
  match v with Some s => JStr s | None => JNull end.

Definition restaurant_json (r : restaurant_row) : jval :=
  JObj [("id", JStr (r_id r)); ("name", sql_json (r_name r))].

Definition user_json (u : user_row) : jval :=
  JObj [("id", JStr (u_id u)); ("email", JStr (u_email u));
        ("password", JStr (u_password u)); ("role", JStr (u_role u))].

(** PostgreSQL refuses a text parameter that contains NUL when it binds
    the parameters: after the table is resolved, before any constraint. *)
Definition has_nul (s : string) : bool := existsb (fun c => Ascii.eqb c "000"%char) (list_ascii_of_string s).

Definition param_nul (v : option string) : bool :=
  match v with Some s => has_nul s | None => false end.

(** Rows are read back in insertion order: the tables are only ever
    appended to, and a sequential scan of such a heap returns them so. *)
Definition exec_query (d : db) (q : query) : db_error + (db * list jval) :=
  match q with
  | CreateRestaurants =>
      inr (mk_db (Some (default [] (t_restaurants d))) (t_orders d) (t_users d), [])
  | InsertRestaurant id name =>
      match t_restaurants d with
      | None => inl UndefinedTable
      | Some rs =>
          if param_nul (prepare name) then inl InvalidByteSequence
          else inr (mk_db (Some (rs ++ [mk_restaurant id (prepare name)])) (t_orders d) (t_users d), [])
      end
  | SelectRestaurants =>
      match t_restaurants d with
      | None => inl UndefinedTable
      | Some rs => inr (d, map restaurant_json rs)
      end
  | CreateOrders =>
      inr (mk_db (t_restaurants d) (Some (default [] (t_orders d))) (t_users d), [])
  | InsertOrder id status =>
      match t_orders d with
      | None => inl UndefinedTable
      | Some os =>
          if param_nul (prepare status) then inl InvalidByteSequence
          else inr (mk_db (t_restaurants d) (Some (os ++ [mk_order id (prepare status)])) (t_users d), [])
      end
  | CreateUsers =>
      inr (mk_db (t_restaurants d) (t_orders d) (Some (default [] (t_users d))), [])
  | InsertUser id email password role =>
      match t_users d with
      | None => inl UndefinedTable
      | Some us =>
          if param_nul (prepare email) || param_nul (prepare password) || param_nul (prepare role)
          then inl InvalidByteSequence else
          match prepare email, prepare password, prepare role with
          | Some e, Some p, Some r =>
              if existsb (fun u => String.eqb (u_id u) id || String.eqb (u_email u) e) us
              then inl UniqueViolation
              else inr (mk_db (t_restaurants d) (t_orders d) (Some (us ++ [mk_user id e p r])), [])
          | _, _, _ => inl NotNullViolation
          end
      end
  | SelectUserByEmail email =>
      match t_users d with
      | None => inl UndefinedTable
      | Some us =>
          if param_nul (prepare email) then inl InvalidByteSequence else
          match prepare email with
          | None => inr (d, [])          (** [email = NULL] holds for no row *)
          | Some e => inr (d, map user_json (filter (fun u => u_email u = e) us))
          end
      end
  end.

(** ** Redis strings with an expiry

    [SETEX k s v] stores [v] with the absolute expiry time now + s seconds
    (in milliseconds); a key is expired, and reads as absent, once the
    clock is strictly past that time (Redis [keyIsExpired]: [now > when]).
    Expiry is passive: an expired key may still be stored. *)

Record rentry := mk_rentry { rv_value : string; rv_expires_at : Z }.

Definition redis_get (r : gmap string rentry) (now : Z) (k : string) : option string :=
  match r !! k with
  | Some e => if (now <=? rv_expires_at e)%Z then Some (rv_value e) else None
  | None => None
  end.

Definition redis_setex (r : gmap string rentry) (now : Z) (k : string) (secs : Z) (v : string)
    : gmap string rentry :=
  <[k := mk_rentry v (now + secs * 1000)%Z]> r.

(** ** BullMQ queues

    Queues live in Redis under their name.  [Queue.add] takes the next id
    from the queue's counter (1, 2, ...) and puts the job on the wait list;
    a worker moves the oldest waiting job to the active list, runs its
    processor and moves the job to the completed list (completed jobs are
    kept: [removeOnComplete] is not set). *)

Record job := mk_job { job_id : nat; job_name : string; job_data : jval }.

Record bqueue := mk_queue {
  q_last_id : nat;
  q_wait : list job;
  q_active : list job;
  q_completed : list job;
  q_failed : list job
}.

Definition queue_empty : bqueue := mk_queue 0 [] [] [] [].

Definition queue_add (q : bqueue) (name : string) (data : jval) : bqueue * job :=
  let j := mk_job (S (q_last_id q)) name data in
  (mk_queue (S (q_last_id q)) (q_wait q ++ [j]) (q_active q) (q_completed q) (q_failed q), j).

(** The worker takes the oldest waiting job ([moveToActive]). *)
Definition queue_take (q : bqueue) : option (bqueue * job) :=
  match q_wait q with
  | [] => None
  | j :: rest => Some (mk_queue (q_last_id q) rest (q_active q ++ [j]) (q_completed q) (q_failed q), j)
  end.

(** The processor of job [j] resolved ([moveToCompleted]). *)
Definition queue_complete (q : bqueue) (j : job) : bqueue :=
  mk_queue (q_last_id q) (q_wait q) (filter (fun j' => job_id j' <> job_id j) (q_active q))
           (q_completed q ++ [j]) (q_failed q).

(** The processor of job [j] rejected ([moveToFailed]; no retry is configured). *)
Definition queue_fail (q : bqueue) (j : job) : bqueue :=
  mk_queue (q_last_id q) (q_wait q) (filter (fun j' => job_id j' <> job_id j) (q_active q))
           (q_completed q) (q_failed q ++ [j]).

(** ** uuid

    [uuid()] (v4) draws 122 random bits; the model draws the n-th
    identifier of an injective source, so identifiers never repeat (a
    collision of random v4 identifiers is not modelled). *)

Class UuidSource := {
  uuid_of : nat -> string;
  uuid_of_inj : forall m n, uuid_of m = uuid_of n -> m = n
}.

(** A concrete source, for running the model on examples. *)
#[export] Program Instance counter_uuid : UuidSource := {|
  uuid_of n := ("00000000-0000-4000-8000-" ++ number_to_string (Z.of_nat n))%string
|}.
Next Obligation.
  intros m n H. apply number_to_string_nat_inj. by apply (inj (String.append _)) in H.
Qed.

(** ** bcryptjs and jsonwebtoken

    [bcrypt.hash(p, cost)] draws a salt and hashes; [bcrypt.compareSync(p,
    h)] checks [p] against [h].  bcryptjs (salts [$2a$]/[$2b$]) takes the
    UTF-8 bytes of the password followed by one NUL byte, and its key
    schedule reads 72 bytes from that sequence repeated cyclically: that
    is the key, and comparison succeeds exactly when the keys agree
    (collisions of the hash are not modelled).  So bytes past the 72nd
    are ignored, and [""] and ["\u0000"], or ["a"] and ["a\u0000a"],
    have the same key.  The hash is text (base64 after [$2a$]): it has
    no NUL.  [jwt.sign(payload, secret)] produces a token that the same
    secret verifies back to the payload. *)

Definition utf8_unit (c : ascii) : list Z :=
  let n := Z.of_nat (nat_of_ascii c) in
  if (n <? 128)%Z then [n] else [(192 + n / 64)%Z; (128 + n mod 64)%Z].

Definition bcrypt_key (p : string) : list Z :=
  firstn 72 (List.concat (replicate 72 (flat_map utf8_unit (list_ascii_of_string p) ++ [0%Z]))).

Class Bcrypt := {
  bcrypt_hash : string -> Z -> nat -> string;      (** password, cost, salt draw *)
  bcrypt_compare : string -> string -> bool;
  bcrypt_compare_hash : forall p q cost salt,
    bcrypt_compare p (bcrypt_hash q cost salt) = bool_decide (bcrypt_key p = bcrypt_key q);
  bcrypt_hash_text : forall q cost salt, has_nul (bcrypt_hash q cost salt) = false
}.

Class Jwt := {
  jwt_sign : jval -> string -> string;
  jwt_verify : string -> string -> option jval;
  jwt_verify_sign : forall p k, json_wf p = true -> jwt_verify (jwt_sign p k) k = Some p
}.

(** Executable instances, used by the scenarios: the hash is the key
    itself, each byte written as two characters [1 + z / 16] and
    [1 + z mod 16] (text without NUL, as a bcrypt hash is); the token is
    the payload and the secret as a JSON array, verified by parsing it
    back. *)
Definition byte_text (z : Z) : list ascii :=
  [ascii_of_nat (S (Z.to_nat (z / 16))); ascii_of_nat (S (Z.to_nat (z mod 16)))].

Definition key_text (p : string) : string :=
  string_of_list_ascii (flat_map byte_text (bcrypt_key p)).

Lemma utf8_unit_byte (c : ascii) : Forall (fun z => 0 <= z < 256)%Z (utf8_unit c).
Proof.
  pose proof (nat_ascii_bounded c). unfold utf8_unit.
  set (n := Z.of_nat (nat_of_ascii c)).
  assert (0 <= n < 256)%Z by (subst n; lia).
  pose proof (Z.mod_pos_bound n 64). pose proof (Z.div_pos n 64).
  assert (n / 64 < 4)%Z by (apply Z.div_lt_upper_bound; lia).
  destruct (Z.ltb_spec n 128); repeat constructor; lia.
Qed.

Lemma bcrypt_key_bytes (p : string) : Forall (fun z => 0 <= z < 256)%Z (bcrypt_key p).
Proof.
  unfold bcrypt_key. apply Forall_take, Forall_concat, Forall_replicate.
  apply Forall_app_2; [|by repeat constructor].
  induction (list_ascii_of_string p) as [|c cs IH]; [constructor|].
  cbn. apply Forall_app_2; [apply utf8_unit_byte|exact IH].
Qed.

(** The two characters of a byte are in 1..16. *)
Lemma byte_text_digits (z : Z) : (0 <= z < 256)%Z ->
  (Z.to_nat (z / 16) < 16)%nat /\ (Z.to_nat (z mod 16) < 16)%nat.
Proof.
  intros Hz. pose proof (Z.mod_pos_bound z 16). pose proof (Z.div_pos z 16).
  assert (z / 16 < 16)%Z by (apply Z.div_lt_upper_bound; lia). lia.
Qed.

Lemma byte_text_inj (x y : Z) : (0 <= x < 256)%Z -> (0 <= y < 256)%Z -> byte_text x = byte_text y -> x = y.
Proof.
  intros Hx Hy Heq. destruct (byte_text_digits x Hx), (byte_text_digits y Hy).
  injection Heq as Hd Hm. apply (f_equal nat_of_ascii) in Hd, Hm.
  rewrite !nat_ascii_embedding in Hd, Hm by lia.
  pose proof (Z.div_pos x 16). pose proof (Z.div_pos y 16).
  pose proof (Z.mod_pos_bound x 16). pose proof (Z.mod_pos_bound y 16).
  rewrite (Z.div_mod x 16), (Z.div_mod y 16) by lia. lia.
Qed.

Lemma bytes_text_inj (l1 l2 : list Z) :
  Forall (fun z => 0 <= z < 256)%Z l1 -> Forall (fun z => 0 <= z < 256)%Z l2 ->
  flat_map byte_text l1 = flat_map byte_text l2 -> l1 = l2.
Proof.
  intros H1. revert l2. induction H1 as [|x l1 Hx _ IH]; intros [|y l2] H2 Heq; try done.
  inversion H2 as [|? ? Hy H2']; subst. cbn in Heq.
  injection Heq as Ha Hb Hl. assert (Hxy : x = y) by (apply byte_text_inj; [done..|unfold byte_text; by rewrite Ha, Hb]).
  subst y. f_equal. by apply IH.
Qed.

Lemma key_text_no_nul (p : string) : has_nul (key_text p) = false.
Proof.
  unfold has_nul, key_text. rewrite list_ascii_of_string_of_list_ascii.
  induction (bcrypt_key_bytes p) as [|z l Hz _ IH]; [done|]. cbn. rewrite IH.
  destruct (byte_text_digits z Hz).
  destruct (Ascii.eqb_spec (ascii_of_nat (S (Z.to_nat (z / 16)))) "000"%char) as [E|];
    [apply (f_equal nat_of_ascii) in E; rewrite nat_ascii_embedding in E by lia; discriminate|].
  destruct (Ascii.eqb_spec (ascii_of_nat (S (Z.to_nat (z mod 16)))) "000"%char) as [E|];
    [apply (f_equal nat_of_ascii) in E; rewrite nat_ascii_embedding in E by lia; discriminate|].
  done.
Qed.

#[export] Program Instance model_bcrypt : Bcrypt := {|
  bcrypt_hash q _ _ := key_text q;
  bcrypt_compare p h := String.eqb (key_text p) h
|}.
Next Obligation.
  intros p q cost salt. cbn -[bcrypt_key]. unfold key_text.
  destruct (String.eqb_spec (string_of_list_ascii (flat_map byte_text (bcrypt_key p)))
              (string_of_list_ascii (flat_map byte_text (bcrypt_key q)))) as [Heq|Hne];
    case_bool_decide as Hk; try done.
  - apply (f_equal list_ascii_of_string) in Heq. rewrite !list_ascii_of_string_of_list_ascii in Heq.
    contradict Hk. apply bytes_text_inj; auto using bcrypt_key_bytes.
  - by rewrite Hk in Hne.
Qed.
Next Obligation. intros q ? ?. apply key_text_no_nul. Qed.

Definition model_jwt_sign (p : jval) (k : string) : string := stringify (JArr [p; JStr k]).

Definition model_jwt_verify (t k : string) : option jval :=
  match json_parse t with
  | inr (JArr [p; JStr k']) => if String.eqb k' k then Some p else None
  | _ => None
  end.

Lemma model_jwt_verify_sign (p : jval) (k : string) :
  json_wf p = true -> model_jwt_verify (model_jwt_sign p k) k = Some p.
Proof.
  intros Hwf. unfold model_jwt_verify, model_jwt_sign.
  rewrite json_roundtrip by (cbn; rewrite Hwf; reflexivity). by rewrite String.eqb_refl.
Qed.

#[export] Instance model_jwt : Jwt :=
  {| jwt_sign := model_jwt_sign; jwt_verify := model_jwt_verify;
     jwt_verify_sign := model_jwt_verify_sign |}.

(** ** The world *)

Inductive log_entry : Type :=
| LogLine (s : string)                    (** a fixed message *)
| LogJob (name : string) (data : jval).   (** [[NOTIFICATION-SERVICE] Processing job], name, data *)

Record world := mk_world {
  w_db : db;
  w_db_ready_at : Z;   (** the database accepts connections from this time on *)
  w_redis : gmap string rentry;
  w_queues : gmap string bqueue;   (** BullMQ queues, by name *)
  w_now : Z;   (** milliseconds *)
  w_uuid : nat;   (** identifiers drawn so far *)
  w_rand : nat;   (** bcrypt salts drawn so far *)
  w_secret : option string;   (** [process.env.JWT_SECRET] of the auth service *)
  w_log : list log_entry   (** console output *)
}.

Definition set_db (w : world) (d : db) : world :=
  mk_world d (w_db_ready_at w) (w_redis w) (w_queues w) (w_now w) (w_uuid w) (w_rand w) (w_secret w) (w_log w).
Definition set_db_ready_at (w : world) (t : Z) : world :=
  mk_world (w_db w) t (w_redis w) (w_queues w) (w_now w) (w_uuid w) (w_rand w) (w_secret w) (w_log w).
Definition set_redis (w : world) (r : gmap string rentry) : world :=
  mk_world (w_db w) (w_db_ready_at w) r (w_queues w) (w_now w) (w_uuid w) (w_rand w) (w_secret w) (w_log w).
Definition set_queues (w : world) (qs : gmap string bqueue) : world :=
  mk_world (w_db w) (w_db_ready_at w) (w_redis w) qs (w_now w) (w_uuid w) (w_rand w) (w_secret w) (w_log w).
Definition set_now (w : world) (t : Z) : world :=
  mk_world (w_db w) (w_db_ready_at w) (w_redis w) (w_queues w) t (w_uuid w) (w_rand w) (w_secret w) (w_log w).
Definition set_uuid (w : world) (n : nat) : world :=
  mk_world (w_db w) (w_db_ready_at w) (w_redis w) (w_queues w) (w_now w) n (w_rand w) (w_secret w) (w_log w).
Definition set_rand (w : world) (n : nat) : world :=
  mk_world (w_db w) (w_db_ready_at w) (w_redis w) (w_queues w) (w_now w) (w_uuid w) n (w_secret w) (w_log w).
Definition set_secret (w : world) (k : option string) : world :=
  mk_world (w_db w) (w_db_ready_at w) (w_redis w) (w_queues w) (w_now w) (w_uuid w) (w_rand w) k (w_log w).
Definition set_log (w : world) (l : list log_entry) : world :=
  mk_world (w_db w) (w_db_ready_at w) (w_redis w) (w_queues w) (w_now w) (w_uuid w) (w_rand w) (w_secret w) l.

(** The queue of that name, empty if nothing was ever added to it. *)
Definition queue_of (w : world) (name : string) : bqueue :=
  default queue_empty (w_queues w !! name).

(** First boot: empty database (accepting connections from time 0), empty
    Redis, no secret configured. *)
Definition boot_world : world := mk_world db_empty 0 ∅ ∅ 0 0 0 None [].

(** The database accepts connections now. *)
Abbreviation db_up w := (Z.leb (w_db_ready_at w) (w_now w)).

(** ** Effects: the awaited calls of the handlers *)

(** Why a handler stops without answering: its promise rejects, or the
    process ends. *)
Inductive js_error : Type :=
| DbError (e : db_error)           (** an awaited query rejected *)
| RedisInvalidExpire               (** SETEX with a non-positive time *)
| JsonSyntaxError                  (** JSON.parse threw *)
| OutsideModel                     (** a value outside the modelled JSON values *)
| IllegalArguments                 (** bcryptjs was given a non-string *)
| JwtNoSecret                      (** jwt.sign without a secret *)
| ProcessExit (code : Z).          (** the process terminated *)

(** What a handler sends: [res.json(v)] (status 200, body the JSON text of
    [v]) or [res.sendStatus(code)]. *)
Inductive response : Type :=
| RJson (v : jval)
| RStatus (code : Z).

Inductive effect : Type :=
| Query (q : query)                 (** [await db.query(...)]: rejects on error *)
| TryQuery (q : query)              (** [try { await db.query(...) } catch (err)] *)
| RedisGet (k : string)             (** [await client.get(k)] *)
| RedisSetEx (k : string) (secs : Z) (v : string)   (** [await client.setEx(k, secs, v)] *)
| QueueAdd (queue name : string) (data : jval)      (** [await queue.add(name, data)] *)
| Log (l : log_entry)               (** [console.log(...)] *)
| BcryptHash (p : jsv) (cost : Z)   (** [await bcrypt.hash(p, cost)] *)
| BcryptCompare (p h : jsv)         (** [bcrypt.compareSync(p, h)] *)
| JwtSign (payload : jval)          (** [jwt.sign(payload, process.env.JWT_SECRET)] *)
| NewUuid                           (** [uuid()] *)
| Sleep (ms : Z)                    (** [await new Promise(res => setTimeout(res, ms))] *)
| Exit (code : Z)                   (** [process.exit(code)] *)
| Throw (err : js_error).           (** a synchronous [throw] *)

Definition reply (e : effect) : Type :=
  match e with
  | Query _ => list jval
  | TryQuery _ => db_error + list jval
  | RedisGet _ => option string
  | RedisSetEx _ _ _ => unit
  | QueueAdd _ _ _ => job
  | Log _ => unit
  | BcryptHash _ _ => string
  | BcryptCompare _ _ => bool
  | JwtSign _ => string
  | NewUuid => string
  | Sleep _ => unit
  | Exit _ => Empty_set
  | Throw _ => Empty_set
  end.

Abbreviation handler := (prog effect reply).

Section Exec.
Context `{UuidSource} `{Bcrypt} `{Jwt}.

Definition run_query (w : world) (q : query) : db_error + (world * list jval) :=
  if db_up w then
    let? '(d, rows) := exec_query (w_db w) q in inr (set_db w d, rows)
  else inl ConnectionRefused.

Definition exec (w : world) (e : effect) : js_error + (world * reply e) :=
  match e as e0 return js_error + (world * reply e0) with
  | Query q =>
      match run_query w q with
      | inl err => inl (DbError err)
      | inr (w', rows) => inr (w', rows)
      end
  | TryQuery q =>
      match run_query w q with
      | inl err => inr (w, inl err)
      | inr (w', rows) => inr (w', inr rows)
      end
  | RedisGet k => inr (w, redis_get (w_redis w) (w_now w) k)
  | RedisSetEx k secs v =>
      if (0 <? secs)%Z then inr (set_redis w (redis_setex (w_redis w) (w_now w) k secs v), tt)
      else inl RedisInvalidExpire
  | QueueAdd queue name data =>
      let '(q', j) := queue_add (queue_of w queue) name data in
      inr (set_queues w (<[queue := q']> (w_queues w)), j)
  | Log l => inr (set_log w (w_log w ++ [l]), tt)
  | BcryptHash (Some (JStr p)) cost =>
      inr (set_rand w (S (w_rand w)), bcrypt_hash p cost (w_rand w))
  | BcryptHash _ _ => inl IllegalArguments
  | BcryptCompare (Some (JStr p)) (Some (JStr h)) => inr (w, bcrypt_compare p h)
  | BcryptCompare _ _ => inl IllegalArguments
  | JwtSign payload =>
      match w_secret w with
      | Some k =>
          if String.eqb k "" then inl JwtNoSecret
          else
            let stamped := match payload with
                           | JObj fs => JObj (fs ++ [("iat", JNum (w_now w / 1000))])
                           | _ => payload
                           end in
            inr (w, jwt_sign stamped k)
      | None => inl JwtNoSecret
      end
  | NewUuid => inr (set_uuid w (S (w_uuid w)), uuid_of (w_uuid w))
  | Sleep ms => inr (set_now w (w_now w + Z.max 0 ms)%Z, tt)
  | Exit code => inl (ProcessExit code)
  | Throw err => inl err
  end.

(** Running a handler to completion from a world. *)
Definition run_handler {A} (h : handler A) (w : world) : world * list effect * (js_error + A) :=
  run exec h w.
End Exec.

(** [throw err] inside an async function: the handler's promise rejects. *)
Definition throw {A} (err : js_error) : handler A :=
  Do (Throw err) (fun r : Empty_set => match r with end).

(** [process.exit(code)]: nothing runs after it. *)
Definition exit {A} (code : Z) : handler A :=
  Do (Exit code) (fun r : Empty_set => match r with end).

(** [JSON.parse(s)] inside a handler: a [SyntaxError] is thrown. *)
Definition json_parse_or_throw (s : string) : handler jval :=
  match json_parse s with
  | inr v => mret v
  | inl SyntaxError => throw JsonSyntaxError
  | inl OutOfScope => throw OutsideModel
  end.

(** ** Generic facts about running handlers *)

Section RunFacts.
Context `{UuidSource} `{Bcrypt} `{Jwt}.

Lemma run_handler_ret {A} (a : A) w : run_handler (mret a) w = (w, [], inr a).
Proof. reflexivity. Qed.

Lemma run_handler_bind {A B} (p : handler A) (f : A -> handler B) w :
  run_handler (x ← p; f x) w =
    match run_handler p w with
    | (w', tr, inl err) => (w', tr, inl err)
    | (w', tr, inr a) => let '(w'', tr', res) := run_handler (f a) w' in (w'', tr ++ tr', res)
    end.
Proof. apply run_bind. Qed.

Lemma run_handler_do {A} (e : effect) (k : reply e -> handler A) w :
  run_handler (Do e k) w =
    match exec w e with
    | inl err => (w, [e], inl err)
    | inr (w', r) => let '(w'', tr, res) := run_handler (k r) w' in (w'', e :: tr, res)
    end.
Proof. reflexivity. Qed.

Lemma set_db_same (w : world) : set_db w (w_db w) = w.
Proof. by destruct w. Qed.

Lemma run_query_up (w : world) (q : query) :
  db_up w = true ->
  run_query w q = let? '(d, rows) := exec_query (w_db w) q in inr (set_db w d, rows).
Proof. intros Hup. unfold run_query. by rewrite Hup. Qed.
End RunFacts.
