(* ===== verification/Restaurant.v ===== *)
(** * The restaurant service ([services/restaurant-service/index.js])

    Two handlers over the shared backend:
    - [POST /restaurants] creates the table if needed, draws a uuid, inserts
      [(id, req.body.name)] and answers [{ id }];
    - [GET /restaurants] is a cache-aside read: it answers the Redis value
      of the key [restaurants] when there is one, and otherwise reads the
      table, stores its JSON text under the key for 60 seconds and answers
      the rows.

    The theorems describe each handler on every branch (cache hit, cache
    miss, missing table), the expiry boundary of the cache, and the
    coherence invariant of the cache with the table: the cached list is
    always an earlier state (a prefix) of the table, so a read may be stale
    for up to 60 seconds after a write, never wrong otherwise.  A cold read
    after a write returns the name as node-postgres stored it: as text. *)

From S2P Require Import Prelude Json Backend.
From stdpp Require Import base strings list gmap relations.
From Stdlib Require Import String Ascii ZArith Lia.

Module RestaurantService.

(** ** The handlers *)

Definition cache_key : string := "restaurants".
Definition cache_ttl : Z := 60.

(** [app.post("/restaurants", async (req, res) => {...})] *)
Definition post_restaurants (body : jsv) : handler response :=
  _ ← perform (Query CreateRestaurants);
  id ← perform NewUuid;
  _ ← perform (Query (InsertRestaurant id (js_get body "name")));
  mret (RJson (JObj [("id", JStr id)])).

(** After a miss: [await client.setEx("restaurants", 60, JSON.stringify(result.rows));
    res.json(result.rows);] *)
Definition get_restaurants_fill (rows : list jval) : handler response :=
  _ ← perform (RedisSetEx cache_key cache_ttl (stringify (JArr rows)));
  mret (RJson (JArr rows)).

(** [const result = await db.query("SELECT * FROM restaurants"); ...] *)
Definition get_restaurants_miss : handler response :=
  rows ← perform (Query SelectRestaurants);
  get_restaurants_fill rows.

(** [if (cache) return res.json(JSON.parse(cache));], then the miss path. *)
Definition get_restaurants_cached (cache : option string) : handler response :=
  match cache with
  | Some s =>
      if js_truthy (Some (JStr s)) then v ← json_parse_or_throw s; mret (RJson v)
      else get_restaurants_miss
  | None => get_restaurants_miss
  end.

(** [app.get("/restaurants", async (req, res) => {...})] *)
Definition get_restaurants : handler response :=
  cache ← perform (RedisGet cache_key);
  get_restaurants_cached cache.

(** ** Views of the world used by the statements *)

(** The value the handler reads under the key now. *)
Definition live_cache (w : world) : option string :=
  redis_get (w_redis w) (w_now w) cache_key.

(** The JSON rows of a table state, as [SELECT *] returns them. *)
Definition rows_of (rs : list restaurant_row) : list jval := map restaurant_json rs.

(** The world after [POST /restaurants] inserted the row [(id, name)]. *)
Definition add_restaurant (w : world) (id : string) (name : option string) : world :=
  set_db (set_uuid w (S (w_uuid w)))
    (mk_db (Some (default [] (t_restaurants (w_db w)) ++ [mk_restaurant id name]))
           (t_orders (w_db w)) (t_users (w_db w))).

(** The world after a [POST /restaurants] whose [INSERT] was refused (a
    name with NUL): the table was created and an id drawn, no row added. *)
Definition post_refused (w : world) : world :=
  set_uuid (set_db w (mk_db (Some (default [] (t_restaurants (w_db w)))) (t_orders (w_db w)) (t_users (w_db w))))
    (S (w_uuid w)).

(** The world after a miss stored the rows [rows] in the cache. *)
Definition fill_cache (w : world) (rows : list jval) : world :=
  set_redis w (redis_setex (w_redis w) (w_now w) cache_key cache_ttl (stringify (JArr rows))).

(** ** Every branch of the handlers *)

Section Handlers.
Context `{UuidSource} `{Bcrypt} `{Jwt}.

Lemma rows_wf (rs : list restaurant_row) : json_wf (JArr (rows_of rs)) = true.
Proof.
  unfold rows_of. induction rs as [|[id [nm|]] rs IH]; [done| |];
    cbn [map json_wf forallb] in *; rewrite IH; reflexivity.
Qed.

Lemma stringify_truthy (v : jval) : js_truthy (Some (JStr (stringify v))) = true.
Proof. by destruct (stringify_head v) as (c & s & -> & _). Qed.

(** A hit answers the cached value and performs no query. *)
Lemma get_restaurants_hit (w : world) (v : jval) :
  json_wf v = true -> live_cache w = Some (stringify v) ->
  run_handler get_restaurants w = (w, [RedisGet cache_key], inr (RJson v)).
Proof.
  intros Hwf Hc. unfold get_restaurants, live_cache in *. cbn. rewrite Hc.
  unfold get_restaurants_cached. rewrite stringify_truthy.
  unfold json_parse_or_throw. rewrite json_roundtrip by done. reflexivity.
Qed.

(** A miss reads the table, caches its JSON text for 60 seconds and
    answers the rows. *)
Lemma get_restaurants_miss_ok (w : world) (rs : list restaurant_row) :
  live_cache w = None -> db_up w = true -> t_restaurants (w_db w) = Some rs ->
  run_handler get_restaurants w =
    (fill_cache w (rows_of rs),
     [RedisGet cache_key; Query SelectRestaurants;
      RedisSetEx cache_key cache_ttl (stringify (JArr (rows_of rs)))],
     inr (RJson (JArr (rows_of rs)))).
Proof.
  intros Hc Hup Ht. unfold get_restaurants, live_cache in *. cbn. rewrite Hc.
  cbn. unfold run_query. rewrite Hup. cbn. rewrite Ht. cbn. by rewrite set_db_same.
Qed.

(** C21: Before the first [POST], the table does not exist: a miss rejects
    with an undefined-table error, a rejection no code handles (in the
    whole system it takes the service down, [Crash.v]). *)
Lemma get_restaurants_no_table (w : world) :
  live_cache w = None -> db_up w = true -> t_restaurants (w_db w) = None ->
  run_handler get_restaurants w =
    (w, [RedisGet cache_key; Query SelectRestaurants], inl (DbError UndefinedTable)).
Proof.
  intros Hc Hup Ht. unfold get_restaurants, live_cache in *. cbn. rewrite Hc.
  cbn. unfold run_query. rewrite Hup. cbn. by rewrite Ht.
Qed.

(** [POST /restaurants] appends one row with a fresh id and the name of
    the body (as node-postgres converts it), creating the table first if
    needed, and answers that id; the cache is left as it was. *)
Lemma post_restaurants_ok (w : world) (body : jsv) :
  db_up w = true -> param_nul (prepare (js_get body "name")) = false ->
  run_handler (post_restaurants body) w =
    (add_restaurant w (uuid_of (w_uuid w)) (prepare (js_get body "name")),
     [Query CreateRestaurants; NewUuid;
      Query (InsertRestaurant (uuid_of (w_uuid w)) (js_get body "name"))],
     inr (RJson (JObj [("id", JStr (uuid_of (w_uuid w)))]))).
Proof.
  intros Hup Hn. unfold post_restaurants. cbn. unfold run_query. rewrite Hup. cbn.
  rewrite ?Hup, Hn. reflexivity.
Qed.

(** A name containing NUL: the table is created and an id drawn, then the
    [INSERT] rejects, a rejection no code handles. *)
Lemma post_restaurants_nul (w : world) (body : jsv) :
  db_up w = true -> param_nul (prepare (js_get body "name")) = true ->
  run_handler (post_restaurants body) w =
    (post_refused w,
     [Query CreateRestaurants; NewUuid;
      Query (InsertRestaurant (uuid_of (w_uuid w)) (js_get body "name"))],
     inl (DbError InvalidByteSequence)).
Proof.
  intros Hup Hn. unfold post_restaurants. cbn. unfold run_query. rewrite Hup. cbn.
  rewrite ?Hup, Hn. reflexivity.
Qed.

(** The cache entry written by a miss is read back until 60 seconds have
    passed, the last millisecond included, and is absent after. *)
Lemma live_cache_after_fill (w : world) (rows : list jval) (t : Z) :
  live_cache (set_now (fill_cache w rows) t) =
    if (t <=? w_now w + cache_ttl * 1000)%Z then Some (stringify (JArr rows)) else None.
Proof. unfold live_cache, fill_cache, redis_get, redis_setex. cbn. by rewrite lookup_insert_eq. Qed.

(** The two outcomes of a GET on the world: unchanged, or the cache
    filled with the whole table. *)
Lemma get_restaurants_miss_shape (w w' : world) tr res :
  run_handler get_restaurants_miss w = (w', tr, res) ->
  w' = w \/ exists rs, t_restaurants (w_db w) = Some rs /\ w' = fill_cache w (rows_of rs).
Proof.
  unfold get_restaurants_miss. cbn. unfold run_query. destruct (db_up w); cbn;
    [|intros [=]; by left].
  destruct (t_restaurants (w_db w)) as [rs|] eqn:Ht; cbn; intros [=]; subst;
    [right; exists rs; by rewrite set_db_same|by left].
Qed.

Lemma get_restaurants_shape (w w' : world) tr res :
  run_handler get_restaurants w = (w', tr, res) ->
  w' = w \/ exists rs, t_restaurants (w_db w) = Some rs /\ w' = fill_cache w (rows_of rs).
Proof.
  unfold get_restaurants, run_handler. cbn -[get_restaurants_miss json_parse_or_throw].
  destruct (redis_get _ _ _) as [s|]; cbn -[get_restaurants_miss json_parse_or_throw].
  - destruct (negb (s =? "")%string).
    + unfold json_parse_or_throw. destruct (json_parse s) as [[]|v]; cbn; intros [=]; by left.
    + destruct (run exec get_restaurants_miss w) as [[w1 tr1] res1] eqn:E. intros [= <- _ _].
      by apply (get_restaurants_miss_shape w w1 tr1 res1).
  - destruct (run exec get_restaurants_miss w) as [[w1 tr1] res1] eqn:E. intros [= <- _ _].
    by apply (get_restaurants_miss_shape w w1 tr1 res1).
Qed.

(** The three outcomes of a POST: unchanged (the database refused the
    connection), one row appended, or the [INSERT] refused. *)
Lemma post_restaurants_shape (w w' : world) body tr res :
  run_handler (post_restaurants body) w = (w', tr, res) ->
  w' = w \/ w' = add_restaurant w (uuid_of (w_uuid w)) (prepare (js_get body "name")) \/
  w' = post_refused w.
Proof.
  destruct (db_up w) eqn:Hup.
  - destruct (param_nul (prepare (js_get body "name"))) eqn:Hn;
      [rewrite post_restaurants_nul by done|rewrite post_restaurants_ok by done];
      intros [= <- _ _]; tauto.
  - unfold post_restaurants. cbn. unfold run_query. rewrite Hup. cbn. intros [=]. by left.
Qed.
End Handlers.

(** ** Coherence of the cache with the table

    The service alone, seen from the outside: requests run one after the
    other, the clock advances, the database goes up or down. *)

Inductive rstep `{UuidSource} `{Bcrypt} `{Jwt} : world -> world -> Prop :=
| rstep_post (w w' : world) body tr res :
    run_handler (post_restaurants body) w = (w', tr, res) -> rstep w w'
| rstep_get (w w' : world) tr res :
    run_handler get_restaurants w = (w', tr, res) -> rstep w w'
| rstep_tick (w : world) (d : Z) : (0 <= d)%Z -> rstep w (set_now w (w_now w + d))
| rstep_db (w : world) (t : Z) : rstep w (set_db_ready_at w t).

(** The cached text is the JSON of an earlier state of the table: the table
    only grows, so an earlier state is a prefix of the current one. *)
Definition cache_coherent (w : world) : Prop :=
  forall e, w_redis w !! cache_key = Some e ->
  exists rs rs', t_restaurants (w_db w) = Some rs /\ rs' `prefix_of` rs /\
                 rv_value e = stringify (JArr (rows_of rs')).


Section Coherence.
Context `{UuidSource} `{Bcrypt} `{Jwt}.

Lemma coherent_boot : cache_coherent boot_world.
Proof. intros e He. cbn in He. by rewrite lookup_empty in He. Qed.

Lemma coherent_add (w : world) id name :
  cache_coherent w -> cache_coherent (add_restaurant w id name).
Proof.
  intros Hc e He. destruct (Hc e He) as (rs & rs' & Ht & Hp & Hv).
  exists (rs ++ [mk_restaurant id name]), rs'. cbn. rewrite Ht.
  split; [done|]. split; [by apply prefix_app_r|done].
Qed.

Lemma coherent_refused (w : world) : cache_coherent w -> cache_coherent (post_refused w).
Proof.
  intros Hc e He. destruct (Hc e He) as (rs & rs' & Ht & Hp & Hv).
  exists rs, rs'. cbn. by rewrite Ht.
Qed.

Lemma coherent_fill (w : world) rs :
  t_restaurants (w_db w) = Some rs -> cache_coherent (fill_cache w (rows_of rs)).
Proof.
  intros Ht e. unfold fill_cache, redis_setex. cbn. rewrite lookup_insert_eq.
  intros [= <-]. exists rs, rs. by repeat split.
Qed.

Lemma rstep_coherent (w w' : world) : cache_coherent w -> rstep w w' -> cache_coherent w'.
Proof.
  intros Hc Hs. destruct Hs as [w w' body tr res Hr|w w' tr res Hr|w d _|w t].
  - destruct (post_restaurants_shape _ _ _ _ _ Hr) as [->|[->| ->]];
      [done|by apply coherent_add|by apply coherent_refused].
  - destruct (get_restaurants_shape _ _ _ _ Hr) as [->|(rs & Ht & ->)]; [done|].
    by apply coherent_fill.
  - exact Hc.
  - exact Hc.
Qed.

Lemma get_restaurants_on_miss (w : world) :
  live_cache w = None ->
  run_handler get_restaurants w =
    let '(w', tr, res) := run_handler get_restaurants_miss w in
    (w', RedisGet cache_key :: tr, res).
Proof.
  intros Hl. unfold get_restaurants, run_handler, live_cache in *.
  cbn -[get_restaurants_miss]. by rewrite Hl.
Qed.

Lemma get_restaurants_miss_answer (w w' : world) tr v :
  run_handler get_restaurants_miss w = (w', tr, inr (RJson v)) ->
  exists rs, t_restaurants (w_db w) = Some rs /\ v = JArr (rows_of rs).
Proof.
  unfold get_restaurants_miss. cbn. unfold run_query. destruct (db_up w); cbn; [|done].
  destruct (t_restaurants (w_db w)) as [rs|] eqn:Ht; cbn; [|done].
  intros [= _ _ <-]. by exists rs.
Qed.

Lemma rtc_rstep_coherent (w w' : world) :
  rtc rstep w w' -> cache_coherent w -> cache_coherent w'.
Proof.
  induction 1 as [|w1 w2 w3 Hs _ IH]; intros Hc; [done|].
  by apply IH, (rstep_coherent w1).
Qed.

(** Every id in the table was drawn from the uuid source before, and no
    two rows share one.  The table has no key constraint: uniqueness
    comes from the ids alone. *)
Definition ids_fresh (w : world) : Prop :=
  forall rs, t_restaurants (w_db w) = Some rs ->
  NoDup (map r_id rs) /\ Forall (fun r => exists n, (n < w_uuid w)%nat /\ r_id r = uuid_of n) rs.

Lemma ids_fresh_add (w : world) name :
  ids_fresh w -> ids_fresh (add_restaurant w (uuid_of (w_uuid w)) name).
Proof.
  intros Hf rs'. cbn. intros [= <-].
  destruct (t_restaurants (w_db w)) as [rs|] eqn:Ht; cbn.
  - destruct (Hf rs Ht) as [Hnd Hall]. rewrite map_app. split.
    + apply NoDup_app. split; [done|]. split; [|apply NoDup_singleton].
      intros x Hx ->%list_elem_of_singleton. apply list_elem_of_In, in_map_iff in Hx as (r & Hr & Hin).
      rewrite Forall_forall in Hall. apply list_elem_of_In in Hin.
      destruct (Hall r Hin) as (n & Hn & Hid). cbn in Hr.
      rewrite Hid in Hr. apply uuid_of_inj in Hr. lia.
    + apply Forall_app. split; [|constructor; [exists (w_uuid w); split; [lia|done]|constructor]].
      eapply Forall_impl; [exact Hall|]. intros r (n & Hn & Hid). exists n. split; [lia|done].
  - split; [apply NoDup_singleton|].
    constructor; [exists (w_uuid w); split; [lia|done]|constructor].
Qed.

Lemma ids_fresh_refused (w : world) : ids_fresh w -> ids_fresh (post_refused w).
Proof.
  intros Hf rs'. cbn. intros [= <-].
  destruct (t_restaurants (w_db w)) as [rs|] eqn:Ht; cbn; [|split; constructor].
  destruct (Hf rs Ht) as [Hnd Hall]. split; [done|].
  eapply Forall_impl; [exact Hall|]. intros r (n & Hn & Hid). exists n. split; [lia|done].
Qed.

Lemma rstep_ids_fresh (w w' : world) : ids_fresh w -> rstep w w' -> ids_fresh w'.
Proof.
  intros Hf Hs. destruct Hs as [w w' body tr res Hr|w w' tr res Hr|w d _|w t].
  - destruct (post_restaurants_shape _ _ _ _ _ Hr) as [->|[->| ->]];
      [done|by apply ids_fresh_add|by apply ids_fresh_refused].
  - destruct (get_restaurants_shape _ _ _ _ Hr) as [->|(rs & Ht & ->)]; done.
  - exact Hf.
  - exact Hf.
Qed.

Lemma rtc_rstep_ids_fresh (w w' : world) : rtc rstep w w' -> ids_fresh w -> ids_fresh w'.
Proof.
  induction 1 as [|w1 w2 w3 Hs _ IH]; intros Hf; [done|].
  by apply IH, (rstep_ids_fresh w1).
Qed.
(** On a coherent cache every answer of [GET /restaurants] is the list of
    rows of a prefix of the table. *)
Lemma coherent_get_answer (w w' : world) tr (v : jval) :
  cache_coherent w -> run_handler get_restaurants w = (w', tr, inr (RJson v)) ->
  exists rs rs', t_restaurants (w_db w) = Some rs /\ rs' `prefix_of` rs /\
                 v = JArr (rows_of rs').
Proof.
  intros Hc Hrun.
  destruct (live_cache w) as [s|] eqn:Hl.
  - unfold live_cache, redis_get in Hl.
    destruct (w_redis w !! cache_key) as [e|] eqn:He; [|discriminate].
    destruct (w_now w <=? rv_expires_at e)%Z eqn:Hle; [|discriminate]. injection Hl as <-.
    destruct (Hc e He) as (rs & rs' & Ht & Hp & Hv). exists rs, rs'.
    do 2 (split; [done|]).
    rewrite (get_restaurants_hit w (JArr (rows_of rs'))) in Hrun; [by injection Hrun| |].
    + apply rows_wf.
    + unfold live_cache, redis_get. by rewrite He, Hle, Hv.
  - rewrite get_restaurants_on_miss in Hrun by done.
    destruct (run_handler get_restaurants_miss w) as [[w1 tr1] res1] eqn:E.
    injection Hrun as -> _ ->. destruct (get_restaurants_miss_answer _ _ _ _ E) as (rs & Ht & ->).
    exists rs, rs. by repeat split.
Qed.

End Coherence.

(** ** Properties of the restaurant service *)

Section Properties.
Context `{UuidSource} `{Bcrypt} `{Jwt}.

(** C1: The cache is coherent with the table in every state the service
    reaches from its first boot: if the key [restaurants] holds a value,
    it is the JSON text of an earlier state (a prefix) of the table. *)
Theorem restaurant_cache_coherent (w : world) :
  rtc rstep boot_world w -> cache_coherent w.
Proof. intros Hr. exact (rtc_rstep_coherent _ _ Hr coherent_boot). Qed.

(** C18: Every answer of [GET /restaurants], in every state reached from the
    first boot, is the list of rows of a prefix of the current table: the
    whole table on a miss, an earlier state of it on a hit. *)
Theorem get_restaurants_answers_prefix (w w' : world) tr (v : jval) :
  rtc rstep boot_world w ->
  run_handler get_restaurants w = (w', tr, inr (RJson v)) ->
  exists rs rs', t_restaurants (w_db w) = Some rs /\ rs' `prefix_of` rs /\
                 v = JArr (rows_of rs').
Proof. intros Hr. apply coherent_get_answer, (rtc_rstep_coherent _ _ Hr coherent_boot). Qed.

(** C16: The cache lives 60 seconds.  After a GET that missed at time [t]
    (and filled the cache), a GET at [t + d] performs no query and answers
    the same rows when [d <= 60000] ms, and queries the table again when
    [d > 60000] ms. *)
Theorem get_restaurants_ttl (w w1 : world) tr1 res1 (rs : list restaurant_row) (d : Z) :
  live_cache w = None -> db_up w = true -> t_restaurants (w_db w) = Some rs ->
  run_handler get_restaurants w = (w1, tr1, res1) ->
  let w2 := set_now w1 (w_now w + d) in
  ((d <= cache_ttl * 1000)%Z ->
     run_handler get_restaurants w2 = (w2, [RedisGet cache_key], inr (RJson (JArr (rows_of rs))))) /\
  ((cache_ttl * 1000 < d)%Z ->
     run_handler get_restaurants w2 =
       (fill_cache w2 (rows_of rs),
        [RedisGet cache_key; Query SelectRestaurants;
         RedisSetEx cache_key cache_ttl (stringify (JArr (rows_of rs)))],
        inr (RJson (JArr (rows_of rs))))).
Proof.
  intros Hl Hup Ht Hrun. rewrite (get_restaurants_miss_ok w rs) in Hrun by done.
  injection Hrun as <- _ _. cbv zeta. split; intros Hd.
  - apply get_restaurants_hit; [apply rows_wf|]. rewrite live_cache_after_fill.
    by destruct (Z.leb_spec (w_now w + d) (w_now w + cache_ttl * 1000)); [|lia].
  - apply (get_restaurants_miss_ok _ rs); [| |done].
    + rewrite live_cache_after_fill.
      by destruct (Z.leb_spec (w_now w + d) (w_now w + cache_ttl * 1000)); [lia|].
    + cbn. apply Z.leb_le in Hup. apply Z.leb_le. unfold cache_ttl in Hd. lia.
Qed.

(** C19: A write does not invalidate the cache: while the cache holds the
    rows [rs'], a [POST /restaurants] followed by a [GET /restaurants]
    answers [rs'] again, without the restaurant just created. *)
Theorem post_restaurants_keeps_stale_cache (w w1 : world) body tr1 res1
    (rs' : list restaurant_row) :
  db_up w = true -> live_cache w = Some (stringify (JArr (rows_of rs'))) ->
  run_handler (post_restaurants body) w = (w1, tr1, res1) ->
  run_handler get_restaurants w1 = (w1, [RedisGet cache_key], inr (RJson (JArr (rows_of rs')))).
Proof.
  intros Hup Hl Hrun. destruct (param_nul (prepare (js_get body "name"))) eqn:Hn;
    [rewrite post_restaurants_nul in Hrun by done|rewrite post_restaurants_ok in Hrun by done];
    injection Hrun as <- _ _; apply get_restaurants_hit; [apply rows_wf|exact Hl|apply rows_wf|exact Hl].
Qed.

(** C27: Restaurant ids are unique: in every state reached from the first
    boot, no two rows of the table have the same id. *)
Theorem restaurant_ids_unique (w : world) (rs : list restaurant_row) :
  rtc rstep boot_world w -> t_restaurants (w_db w) = Some rs -> NoDup (map r_id rs).
Proof.
  intros Hr Ht. refine (proj1 (rtc_rstep_ids_fresh _ _ Hr _ rs Ht)).
  intros rs0 Hrs0. discriminate Hrs0.
Qed.
(** C20: What a [POST] stores is what the next cold [GET] reads.  With the
    database up and no live cache entry, [POST /restaurants] answers the
    id it drew, and the following [GET /restaurants] answers the earlier
    rows followed by [{ id, name }], where the name is the body's [name]
    as node-postgres sends it to the TEXT column: a string as it is,
    [null] or a missing name as [null], and any other value as text (the
    number [42] comes back as the string ["42"]).  A name whose text
    contains NUL is refused by PostgreSQL instead
    ([post_restaurants_nul]; [Crash.post_nul_name_crashes]). *)
Theorem post_then_get (w : world) (body : jsv) :
  db_up w = true -> live_cache w = None -> param_nul (prepare (js_get body "name")) = false ->
  exists w' t, run_handler (post_restaurants body) w = (w', t, inr (RJson (JObj [("id", JStr (uuid_of (w_uuid w)))]))) /\
    (run_handler get_restaurants w').2 =
      inr (RJson (JArr (rows_of (default [] (t_restaurants (w_db w))) ++
                        [JObj [("id", JStr (uuid_of (w_uuid w))); ("name", sql_json (prepare (js_get body "name")))]]))).
Proof.
  intros Hup Hc Hn. rewrite post_restaurants_ok by done. do 2 eexists. split; [reflexivity|].
  erewrite get_restaurants_miss_ok; [|exact Hc|exact Hup|reflexivity].
  cbn. unfold rows_of. by rewrite map_app.
Qed.
End Properties.

(** ** A run of the service

    The README's walk-through: the database comes up, "Pizza Palace" is
    added, the list is read twice (a miss, then a hit).  The witnesses
    below apply the properties to these concrete states. *)

Definition pizza : jsv := Some (JObj [("name", JStr "Pizza Palace")]).
Definition sushi : jsv := Some (JObj [("name", JStr "Sushi Bar")]).

Definition demo_w1 : world := set_db_ready_at boot_world 0.
Definition demo_w2 : world := (run_handler (post_restaurants pizza) demo_w1).1.1.
Definition demo_w3 : world := (run_handler get_restaurants demo_w2).1.1.
Definition pizza_row : restaurant_row :=
  mk_restaurant (uuid_of 0) (Some "Pizza Palace").

Lemma demo_reach : rtc rstep boot_world demo_w3.
Proof.
  apply (rtc_l _ _ demo_w1); [apply rstep_db|].
  apply (rtc_l _ _ demo_w2); [eapply (rstep_post _ _ pizza); reflexivity|].
  apply (rtc_l _ _ demo_w3); [eapply rstep_get; reflexivity|].
  apply rtc_refl.
Qed.

Lemma restaurant_cache_coherent_witness : cache_coherent demo_w3.
Proof. apply (restaurant_cache_coherent demo_w3). exact demo_reach. Defined.

Lemma get_restaurants_answers_prefix_witness :
  exists rs rs', t_restaurants (w_db demo_w3) = Some rs /\ rs' `prefix_of` rs /\
                 JArr (rows_of [pizza_row]) = JArr (rows_of rs').
Proof.
  apply (get_restaurants_answers_prefix demo_w3 demo_w3 [RedisGet cache_key]).
  - exact demo_reach.
  - reflexivity.
Defined.

Lemma get_restaurants_ttl_witness :
  run_handler get_restaurants (set_now demo_w3 30000) =
    (set_now demo_w3 30000, [RedisGet cache_key], inr (RJson (JArr (rows_of [pizza_row])))) /\
  run_handler get_restaurants (set_now demo_w3 61000) =
    (fill_cache (set_now demo_w3 61000) (rows_of [pizza_row]),
     [RedisGet cache_key; Query SelectRestaurants;
      RedisSetEx cache_key cache_ttl (stringify (JArr (rows_of [pizza_row])))],
     inr (RJson (JArr (rows_of [pizza_row])))).
Proof.
  split.
  - apply (proj1 (get_restaurants_ttl demo_w2 demo_w3 [RedisGet cache_key; Query SelectRestaurants;
      RedisSetEx cache_key cache_ttl (stringify (JArr (rows_of [pizza_row])))]
      (inr (RJson (JArr (rows_of [pizza_row])))) [pizza_row] 30000
      eq_refl eq_refl eq_refl eq_refl)).
    vm_compute. congruence.
  - apply (proj2 (get_restaurants_ttl demo_w2 demo_w3 [RedisGet cache_key; Query SelectRestaurants;
      RedisSetEx cache_key cache_ttl (stringify (JArr (rows_of [pizza_row])))]
      (inr (RJson (JArr (rows_of [pizza_row])))) [pizza_row] 61000
      eq_refl eq_refl eq_refl eq_refl)).
    vm_compute. reflexivity.
Defined.

Definition demo_w4 : world := (run_handler (post_restaurants sushi) demo_w3).1.1.

Lemma post_restaurants_keeps_stale_cache_witness :
  run_handler get_restaurants demo_w4 =
    (demo_w4, [RedisGet cache_key], inr (RJson (JArr (rows_of [pizza_row])))).
Proof.
  apply (post_restaurants_keeps_stale_cache demo_w3 demo_w4 sushi
           [Query CreateRestaurants; NewUuid; Query (InsertRestaurant (uuid_of 1) (js_get sushi "name"))]
           (inr (RJson (JObj [("id", JStr (uuid_of 1))]))) [pizza_row]); reflexivity.
Defined.

Lemma restaurant_ids_unique_witness : NoDup (map r_id [pizza_row]).
Proof. apply (restaurant_ids_unique demo_w3); [exact demo_reach|reflexivity]. Defined.

Lemma get_restaurants_no_table_witness :
  run_handler get_restaurants demo_w1 =
    (demo_w1, [RedisGet cache_key; Query SelectRestaurants], inl (DbError UndefinedTable)).
Proof. apply (get_restaurants_no_table demo_w1); reflexivity. Defined.

Definition numeric_name : jsv := Some (JObj [("name", JNum 42)]).

Lemma post_then_get_witness :
  exists w' t, run_handler (post_restaurants numeric_name) demo_w1 =
      (w', t, inr (RJson (JObj [("id", JStr (uuid_of 0))]))) /\
    (run_handler get_restaurants w').2 =
      inr (RJson (JArr [JObj [("id", JStr (uuid_of 0)); ("name", JStr "42")]])).
Proof. apply (post_then_get demo_w1 numeric_name); reflexivity. Defined.

End RestaurantService.
