(* ===== verification/CacheAside.v ===== *)
(** * The restaurant cache as the specification's cache-aside store

    The specification (4.5) states the contract of the cache as an
    operation [getOrLoad(key, loader, ttl)] on a store of entries
    (value, insertion time, TTL): a live entry ([now < insertion + ttl])
    is returned without calling the loader; otherwise the loader is
    called once, a success is stored with the current time and returned,
    and a failure is propagated and leaves the key absent.

    [get_or_load] is that contract, executable, on an abstract store
    [cstore]; it returns the new store, the result and the number of
    loader calls.  [sim w st] relates the service's world to an abstract
    store: from now on, the two read the same value under the key
    [restaurants] at every instant.  The refinement theorem is the
    simulation diagram of one [GET /restaurants]: the handler's new
    world, its answer (or rejection) and the number of [SELECT]s it runs
    are those of [getOrLoad("restaurants", SELECT, 60001 ms)].  The TTL
    is 60001 ms and not 60000 ms because Redis serves a key through its
    expiry millisecond (the divergence [get_restaurants_ttl] shows);
    sequentially the code implements the contract with that TTL exactly.
    Single-flight is not part of this sequential contract: the code has
    none ([System.no_single_flight]). *)

From S2P Require Import Prelude Json Backend Restaurant.
From stdpp Require Import base strings list gmap.
From Stdlib Require Import String ZArith Lia.

Module CacheAside.
Import RestaurantService.

(** ** The contract of the specification *)

(** A [CacheEntry]: value payload, insertion timestamp, TTL (ms). *)
Record centry := mk_centry { c_value : jval; c_inserted : Z; c_ttl : Z }.

Abbreviation cstore := (gmap string centry).

(** An entry is served only while [now < insertion + TTL]. *)
Definition clive (e : centry) (now : Z) : bool := (now <? c_inserted e + c_ttl e)%Z.

(** What a read of [k] at time [now] sees: expired entries are absent. *)
Definition cview (st : cstore) (now : Z) (k : string) : option jval :=
  e ← st !! k; if clive e now then Some (c_value e) else None.

(** [getOrLoad(key, loader, ttl)] at time [now], for one caller at a time. *)
Definition get_or_load {Err} (st : cstore) (key : string) (loader : unit -> Err + jval) (ttl now : Z)
    : cstore * (Err + jval) * nat :=
  match cview st now key with
  | Some v => (st, inr v, 0%nat)
  | None =>
      match loader tt with
      | inl err => (delete key st, inl err, 1%nat)
      | inr v => (<[key := mk_centry v now ttl]> st, inr v, 1%nat)
      end
  end.

(** ** The code's side *)

(** The loader of [GET /restaurants]:
    [await db.query("SELECT * FROM restaurants")], its rows as an array. *)
Definition restaurants_loader (w : world) (_ : unit) : db_error + jval :=
  match run_query w SelectRestaurants with
  | inl err => inl err
  | inr (_, rows) => inr (JArr rows)
  end.

(** What the service reads under the key at time [t]: the cached text,
    parsed. *)
Definition code_view (w : world) (t : Z) : option jval :=
  s ← redis_get (w_redis w) t cache_key;
  match json_parse s with inr v => Some v | inl _ => None end.

(** The TTL the code implements: 60 s, the expiry millisecond included. *)
Definition code_ttl : Z := cache_ttl * 1000 + 1.

(** The world and the abstract store agree on every read from now on. *)
Definition sim (w : world) (st : cstore) : Prop :=
  forall t, (w_now w <= t)%Z -> cview st t cache_key = code_view w t.

(** How an answer of the handler corresponds to a result of [getOrLoad]. *)
Definition result_rel (res : js_error + response) (r : db_error + jval) : Prop :=
  match r with
  | inr v => res = inr (RJson v)
  | inl err => res = inl (DbError err)
  end.

Definition selects (tr : list effect) : nat :=
  List.length (List.filter (fun e => match e with Query SelectRestaurants => true | _ => false end) tr).

Section Refinement.
Context `{UuidSource} `{Bcrypt} `{Jwt}.

(** ** The branches of the handler *)

Lemma get_restaurants_db_down (w : world) :
  live_cache w = None -> db_up w = false ->
  run_handler get_restaurants w =
    (w, [RedisGet cache_key; Query SelectRestaurants], inl (DbError ConnectionRefused)).
Proof.
  intros Hc Hdown. unfold get_restaurants, live_cache in *. cbn. rewrite Hc.
  cbn. unfold run_query. by rewrite Hdown.
Qed.

(** An entry that is not readable now is not readable later. *)
Lemma redis_get_expired (r : gmap string rentry) (now t : Z) (k : string) :
  redis_get r now k = None -> (now <= t)%Z -> redis_get r t k = None.
Proof.
  unfold redis_get. destruct (r !! k) as [e|]; [|done].
  destruct (Z.leb_spec now (rv_expires_at e)); [discriminate|].
  intros _ ?. destruct (Z.leb_spec t (rv_expires_at e)); [lia|done].
Qed.

Lemma code_view_stringify (w : world) (t : Z) (v : jval) :
  json_wf v = true -> redis_get (w_redis w) t cache_key = Some (stringify v) -> code_view w t = Some v.
Proof. intros Hwf Hg. unfold code_view. rewrite Hg. cbn. by rewrite json_roundtrip. Qed.

(** After a miss that stored [v] now, both sides read [v] for 60000 ms
    and nothing after. *)
Lemma sim_fill (w : world) (st : cstore) (rs : list restaurant_row) :
  sim (fill_cache w (rows_of rs))
      (<[cache_key := mk_centry (JArr (rows_of rs)) (w_now w) code_ttl]> st).
Proof.
  intros t Ht. cbn in Ht. unfold cview, code_view, fill_cache, redis_get, redis_setex, clive, code_ttl.
  cbn -[stringify]. rewrite !lookup_insert_eq. cbn -[stringify].
  destruct (Z.ltb_spec t (w_now w + (cache_ttl * 1000 + 1))),
           (Z.leb_spec t (w_now w + cache_ttl * 1000)); try lia; [|done].
  cbn -[stringify json_parse]. by rewrite json_roundtrip by apply rows_wf.
Qed.

(** A failed load leaves the key absent on both sides. *)
Lemma sim_fail (w : world) (st : cstore) :
  live_cache w = None -> sim w (delete cache_key st).
Proof.
  intros Hc t Ht. unfold cview, code_view. rewrite lookup_delete_eq.
  unfold live_cache in Hc. by rewrite (redis_get_expired _ _ _ _ Hc Ht).
Qed.

(** On a miss, the abstract store has no live entry either. *)
Lemma sim_miss (w : world) (st : cstore) :
  sim w st -> live_cache w = None -> cview st (w_now w) cache_key = None.
Proof. intros Hs Hc. rewrite (Hs (w_now w)) by lia. unfold code_view, live_cache in *. by rewrite Hc. Qed.

(** Time passing and writes keep the relation: a [POST] does not touch
    the cache, and the specification has no invalidation either. *)
Lemma sim_later (w : world) (st : cstore) (t : Z) :
  sim w st -> (w_now w <= t)%Z -> sim (set_now w t) st.
Proof. intros Hs Ht t' Ht'. cbn in Ht'. apply Hs. lia. Qed.

Lemma sim_post (w w' : world) (st : cstore) body tr res :
  sim w st -> run_handler (post_restaurants body) w = (w', tr, res) -> sim w' st.
Proof. intros Hs Hr. by destruct (post_restaurants_shape _ _ _ _ _ Hr) as [->|[->| ->]]. Qed.

Lemma sim_boot : sim boot_world ∅.
Proof. intros t _. done. Qed.
End Refinement.

Section Properties.
Context `{UuidSource} `{Bcrypt} `{Jwt}.

(** C12: [GET /restaurants] refines the specification's [getOrLoad].  On
    a world whose cache is coherent with the table (every reachable one)
    and an abstract store that reads the same as the world from now on,
    one [GET /restaurants] is simulated by one [getOrLoad("restaurants",
    SELECT, 60001 ms)]: the new world reads as the new store, the handler
    answers the value [getOrLoad] returns (or rejects with the error the
    loader failed with), and it runs the [SELECT] exactly as many times
    as [getOrLoad] calls the loader (at most once, and never on a hit). *)
Theorem get_restaurants_refines (w : world) (st : cstore) w' tr res :
  cache_coherent w -> sim w st -> run_handler get_restaurants w = (w', tr, res) ->
  let '(st', r, calls) := get_or_load st cache_key (restaurants_loader w) code_ttl (w_now w) in
  sim w' st' /\ result_rel res r /\ selects tr = calls.
Proof.
  intros Hc Hs Hrun. unfold get_or_load.
  destruct (live_cache w) as [s|] eqn:Hl.
  - pose proof Hl as Hl'. unfold live_cache, redis_get in Hl'.
    destruct (w_redis w !! cache_key) as [e|] eqn:He; [|discriminate].
    destruct (w_now w <=? rv_expires_at e)%Z eqn:Hf; [|discriminate]. injection Hl' as <-.
    destruct (Hc e He) as (rs & rs' & _ & _ & Hv). rewrite Hv in Hl.
    rewrite (get_restaurants_hit w (JArr (rows_of rs'))) in Hrun by (done || apply rows_wf). injection Hrun as <- <- <-.
    rewrite (Hs (w_now w)) by lia. rewrite (code_view_stringify _ _ _ (rows_wf rs') Hl). done.
  - rewrite (sim_miss w st Hs Hl). unfold restaurants_loader, run_query.
    destruct (db_up w) eqn:Hup.
    + cbn. destruct (t_restaurants (w_db w)) as [rs|] eqn:Ht; cbn.
      * rewrite (get_restaurants_miss_ok w rs) in Hrun by done. injection Hrun as <- <- <-.
        split; [apply sim_fill|done].
      * rewrite get_restaurants_no_table in Hrun by done. injection Hrun as <- <- <-.
        split; [by apply sim_fail|done].
    + rewrite get_restaurants_db_down in Hrun by done. injection Hrun as <- <- <-.
      split; [by apply sim_fail|done].
Qed.
End Properties.

(** The walk-through: the first read misses, the second hits. *)
Definition demo_store1 : cstore :=
  (get_or_load ∅ cache_key (restaurants_loader demo_w2) code_ttl (w_now demo_w2)).1.1.

Lemma get_restaurants_refines_witness :
  let '(st', r, calls) := get_or_load demo_store1 cache_key (restaurants_loader demo_w3) code_ttl (w_now demo_w3) in
  sim demo_w3 st' /\ result_rel (inr (RJson (JArr (rows_of [pizza_row])))) r /\ selects [RedisGet cache_key] = calls.
Proof.
  apply (get_restaurants_refines demo_w3 demo_store1 demo_w3 [RedisGet cache_key]).
  - exact (rtc_rstep_coherent _ _ demo_reach coherent_boot).
  - pose proof (get_restaurants_refines demo_w2 ∅ demo_w3 (run_handler get_restaurants demo_w2).1.2
                  (run_handler get_restaurants demo_w2).2) as Hmiss.
    unfold demo_store1. destruct (get_or_load ∅ cache_key (restaurants_loader demo_w2) code_ttl (w_now demo_w2))
      as [[st r] c]. apply Hmiss; [|apply sim_boot|reflexivity].
    intros e He. vm_compute in He. discriminate He.
  - reflexivity.
Defined.

End CacheAside.
