(* ===== verification/Order.v ===== *)
(** * The order service ([services/order-service/index.js])

    [POST /orders] creates the [orders] table if needed, draws a uuid,
    inserts [(id, "PLACED")], publishes the job [order.created] with data
    [{ orderId: id }] on the BullMQ queue [order-events] of the shared queue
    module, and answers [{ orderId: id, status: "PLACED" }].  The request
    body is not read.

    The shared queue module ([shared/queue/redis.js], bundled in the same
    source file) creates the queue [order-events] on the Redis host [redis],
    port 6379; the notification worker ([Notification.v]) consumes it. *)

From S2P Require Import Prelude Json Backend.
From stdpp Require Import base strings list gmap relations.
From Stdlib Require Import String Ascii ZArith Lia.

(** ** [shared/queue/redis.js] *)
Module QueueModule.
Record connection := mk_connection { host : string; port : Z }.

(** [const connection = { host: "redis", port: 6379 };] *)
Definition connection_cfg : connection := mk_connection "redis" 6379.

(** [const orderQueue = new Queue("order-events", { connection });] *)
Definition orderQueue : string := "order-events".

(** [module.exports = { orderQueue, connection };] *)
Record queue_exports := mk_exports { ex_orderQueue : string; ex_connection : connection }.
Definition exports : queue_exports := mk_exports orderQueue connection_cfg.
End QueueModule.

Module OrderService.
Import QueueModule.

Definition order_created : string := "order.created".
Definition placed : string := "PLACED".

(** The job payload and the answer for order [id]. *)
Definition order_event (id : string) : jval := JObj [("orderId", JStr id)].
Definition order_answer (id : string) : jval := JObj [("orderId", JStr id); ("status", JStr placed)].

(** The rest of the handler once the order row is inserted:
    [await orderQueue.add("order.created", { orderId: id });
     res.json({ orderId: id, status: "PLACED" });] *)
Definition post_orders_publish (id : string) : handler response :=
  _ ← perform (QueueAdd orderQueue order_created (order_event id));
  mret (RJson (order_answer id)).

(** [await db.query("INSERT INTO orders VALUES($1,$2)", [id, "PLACED"]);] and the rest *)
Definition post_orders_insert (id : string) : handler response :=
  _ ← perform (Query (InsertOrder id (Some (JStr placed))));
  post_orders_publish id.

(** [app.post("/orders", async (req, res) => {...})] *)
Definition post_orders : handler response :=
  _ ← perform (Query CreateOrders);
  id ← perform NewUuid;
  post_orders_insert id.

(** ** Views of the world *)

Definition orders_of (w : world) : list order_row := default [] (t_orders (w_db w)).

(** All jobs of the queue, waiting, active or completed. *)
Definition all_jobs (q : bqueue) : list job := q_wait q ++ q_active q ++ q_completed q.

(** The world after a successful [POST /orders] with order id [id]. *)
Definition place_order (w : world) (id : string) : world :=
  let q := queue_of w orderQueue in
  set_queues
    (set_db (set_uuid w (S (w_uuid w)))
       (mk_db (t_restaurants (w_db w)) (Some (orders_of w ++ [mk_order id (Some placed)]))
              (t_users (w_db w))))
    (<[orderQueue := (queue_add q order_created (order_event id)).1]> (w_queues w)).

Section Handler.
Context `{UuidSource} `{Bcrypt} `{Jwt}.

(** [POST /orders] on every branch: with the database up it inserts the
    order, publishes its event and answers; otherwise it rejects at the
    first query and changes nothing. *)
Lemma post_orders_ok (w : world) :
  db_up w = true ->
  run_handler post_orders w =
    (place_order w (uuid_of (w_uuid w)),
     [Query CreateOrders; NewUuid; Query (InsertOrder (uuid_of (w_uuid w)) (Some (JStr placed)));
      QueueAdd orderQueue order_created (order_event (uuid_of (w_uuid w)))],
     inr (RJson (order_answer (uuid_of (w_uuid w))))).
Proof.
  intros Hup. unfold post_orders. cbn. unfold run_query. rewrite Hup. cbn.
  rewrite ?Hup. reflexivity.
Qed.

Lemma post_orders_down (w : world) :
  db_up w = false ->
  run_handler post_orders w = (w, [Query CreateOrders], inl (DbError ConnectionRefused)).
Proof. intros Hdown. unfold post_orders. cbn. unfold run_query. by rewrite Hdown. Qed.
End Handler.

End OrderService.
