(* ===== verification/Notification.v ===== *)
(** * The notification worker ([unnamed/part_000])

    A BullMQ [Worker] on the queue [order-events] whose processor logs
    [[NOTIFICATION-SERVICE] Processing job], the job's name and its data.
    The worker loop is BullMQ's (concurrency 1): take the oldest waiting
    job, run the processor, mark the job completed (or failed if the
    processor rejects), repeat.

    The theorems show that the loop drains the queue in first-in first-out
    order, that each job is logged exactly once, and, across the two
    services, that every order placed through [POST /orders] is logged by
    the worker once the worker has run. *)

From S2P Require Import Prelude Json Backend Order.
From stdpp Require Import base strings list gmap relations.
From Stdlib Require Import String Ascii ZArith Lia.

Module NotificationWorker.

(** [new Worker("order-events", ..., { connection })] *)
Definition worker_queue : string := "order-events".

(** [async job => { console.log(`[NOTIFICATION-SERVICE] Processing job`, job.name, job.data); }] *)
Definition processor (j : job) : handler unit :=
  perform (Log (LogJob (job_name j) (job_data j))).

(** [console.log("[NOTIFICATION-SERVICE] Worker started");] *)
Definition started : log_entry := LogLine "[NOTIFICATION-SERVICE] Worker started".

(** ** The worker loop *)

Inductive worker_state : Type :=
| Idle
| Busy (j : job) (p : handler unit).

Definition fetch (w : world) : option (world * job) :=
  match queue_take (queue_of w worker_queue) with
  | None => None
  | Some (q', j) => Some (set_queues w (<[worker_queue := q']> (w_queues w)), j)
  end.

Definition finish (w : world) (j : job) (ok : bool) : world :=
  let q := queue_of w worker_queue in
  set_queues w (<[worker_queue := if ok then queue_complete q j else queue_fail q j]> (w_queues w)).

Section Loop.
Context `{UuidSource} `{Bcrypt} `{Jwt}.

(** One step of the worker: fetch a job, perform one effect of its
    processor, or settle the job. *)
Definition worker_step (s : world * worker_state) : option (world * worker_state) :=
  let '(w, ws) := s in
  match ws with
  | Idle => (fun wj => (wj.1, Busy wj.2 (processor wj.2))) <$> fetch w
  | Busy j (Ret _) => Some (finish w j true, Idle)
  | Busy j (Do e k) =>
      match exec w e with
      | inl _ => Some (finish w j false, Idle)
      | inr (w', r) => Some (w', Busy j (k r))
      end
  end.

Fixpoint worker_run (fuel : nat) (s : world * worker_state) : world * worker_state :=
  match fuel with
  | O => s
  | S f => match worker_step s with
           | None => s
           | Some s' => worker_run f s'
           end
  end.
End Loop.

(** ** The loop drains the queue in order *)

Section Drain.
Context `{UuidSource} `{Bcrypt} `{Jwt}.

Lemma worker_run_none (fuel : nat) (s : world * worker_state) :
  worker_step s = None -> worker_run fuel s = s.
Proof. intros Hs. destruct fuel; cbn; [done|]. by rewrite Hs. Qed.

(** Running [a] steps then [b] steps is running [a + b] steps (the loop
    stays put once no step is possible). *)
Lemma worker_run_app (a b : nat) (s : world * worker_state) :
  worker_run (a + b) s = worker_run b (worker_run a s).
Proof.
  revert s. induction a as [|a IH]; intros s; [done|]. cbn [Nat.add worker_run].
  destruct (worker_step s) as [s'|] eqn:Hs; [apply IH|]. by rewrite worker_run_none.
Qed.

(** One cycle: the oldest waiting job is logged and completed. *)
Lemma worker_cycle (w : world) n j rest c f :
  queue_of w worker_queue = mk_queue n (j :: rest) [] c f ->
  exists w', worker_run 3 (w, Idle) = (w', Idle) /\
    queue_of w' worker_queue = mk_queue n rest [] (c ++ [j]) f /\
    w_log w' = w_log w ++ [LogJob (job_name j) (job_data j)] /\
    w_db w' = w_db w /\ w_redis w' = w_redis w /\ w_now w' = w_now w /\
    w_uuid w' = w_uuid w.
Proof.
  intros Hq. eexists. split.
  - cbn [worker_run]. unfold worker_step at 1, fetch. rewrite Hq. cbn. reflexivity.
  - unfold finish, queue_of. cbn. rewrite !lookup_insert_eq. cbn.
    unfold queue_complete. cbn. case_decide; [congruence|]. by repeat split.
Qed.

(** The worker, started idle on a queue with no active job, logs every
    waiting job once, oldest first, and leaves them all completed; it
    touches nothing else but its log and its queue. *)
Lemma worker_drains (js : list job) (w : world) n c f :
  queue_of w worker_queue = mk_queue n js [] c f ->
  exists w', worker_run (3 * List.length js) (w, Idle) = (w', Idle) /\
    queue_of w' worker_queue = mk_queue n [] [] (c ++ js) f /\
    w_log w' = w_log w ++ map (fun j => LogJob (job_name j) (job_data j)) js /\
    w_db w' = w_db w /\ w_redis w' = w_redis w /\ w_now w' = w_now w /\
    w_uuid w' = w_uuid w.
Proof.
  revert w c. induction js as [|j js IH]; intros w c Hq.
  - exists w. cbn. rewrite !app_nil_r. by repeat split.
  - destruct (worker_cycle w n j js c f Hq) as (w1 & Hrun & Hq1 & Hl & Hd & Hr & Hn & Hu).
    destruct (IH w1 (c ++ [j]) Hq1) as (w2 & Hrun2 & Hq2 & Hl2 & Hd2 & Hr2 & Hn2 & Hu2).
    exists w2. replace (3 * List.length (j :: js)) with (3 + 3 * List.length js) by (cbn; lia).
    rewrite worker_run_app, Hrun, Hrun2. rewrite <- app_assoc in Hq2.
    split; [done|]. split; [done|]. split; [by rewrite Hl2, Hl, <- app_assoc|].
    repeat split; congruence.
Qed.
End Drain.

(** ** Properties *)

Section Properties.
Context `{UuidSource} `{Bcrypt} `{Jwt}.

(** C2: Every order placed is notified.  When [POST /orders] succeeds while
    the worker is idle with [n] jobs waiting, running the worker for
    [3 (n + 1)] steps logs the [n] earlier jobs and then the new
    [order.created] event of this order, and leaves them all completed:
    the producer's queue ([shared/queue/redis]) is the consumer's. *)
Theorem order_event_delivered (w w1 : world) tr res n js c f :
  db_up w = true ->
  queue_of w worker_queue = mk_queue n js [] c f ->
  run_handler OrderService.post_orders w = (w1, tr, res) ->
  let ev := LogJob OrderService.order_created (OrderService.order_event (uuid_of (w_uuid w))) in
  exists w2, worker_run (3 * S (List.length js)) (w1, Idle) = (w2, Idle) /\
    w_log w2 = w_log w ++ map (fun j => LogJob (job_name j) (job_data j)) js ++ [ev] /\
    OrderService.orders_of w2 = OrderService.orders_of w ++
      [mk_order (uuid_of (w_uuid w)) (Some OrderService.placed)] /\
    q_wait (queue_of w2 worker_queue) = [].
Proof.
  intros Hup Hq Hrun. rewrite OrderService.post_orders_ok in Hrun by done.
  injection Hrun as <- _ _.
  set (j := mk_job (S n) OrderService.order_created (OrderService.order_event (uuid_of (w_uuid w)))).
  assert (Hq1 : queue_of (OrderService.place_order w (uuid_of (w_uuid w))) worker_queue =
                mk_queue (S n) (js ++ [j]) [] c f).
  { assert (Hq' : queue_of w QueueModule.orderQueue = mk_queue n js [] c f) by exact Hq.
    unfold queue_of at 1, OrderService.place_order. cbn [w_queues set_queues].
    rewrite lookup_insert_eq. cbn [default]. by rewrite Hq'. }
  destruct (worker_drains (js ++ [j]) _ _ _ _ Hq1) as (w2 & Hrun & Hq2 & Hl & Hd & _).
  exists w2. rewrite length_app, Nat.add_comm in Hrun. cbn in Hrun.
  split; [exact Hrun|]. split; [|split].
  - rewrite Hl. cbn. by rewrite map_app.
  - unfold OrderService.orders_of. rewrite Hd. reflexivity.
  - by rewrite Hq2.
Qed.
End Properties.

(** ** A run: one order placed on a fresh system, then the worker runs *)

Definition nw1 : world := (run_handler OrderService.post_orders boot_world).1.1.
Definition order_trace : list effect := (run_handler OrderService.post_orders boot_world).1.2.

Lemma order_event_delivered_witness :
  exists w2, worker_run 3 (nw1, Idle) = (w2, Idle) /\
    w_log w2 = [LogJob OrderService.order_created (OrderService.order_event (uuid_of 0))] /\
    q_wait (queue_of w2 worker_queue) = [].
Proof.
  destruct (order_event_delivered boot_world nw1 order_trace
              (inr (RJson (OrderService.order_answer (uuid_of 0)))) 0 [] [] []
              ltac:(reflexivity) ltac:(reflexivity) ltac:(vm_compute; reflexivity))
    as (w2 & Hrun & Hlog & _ & Hq).
  exists w2. split; [exact Hrun|]. split; [exact Hlog|exact Hq].
Defined.

End NotificationWorker.
