(* ===== verification/Auth.v ===== *)
(** * The auth service ([unnamed/part_001])

    At start the service runs [initDB()]: up to 10 attempts, 3000 ms
    apart, to create the [users] table, exiting the process with code 1
    when the last attempt fails; only then does it listen.  [POST
    /auth/register] hashes the password with bcrypt (cost 8) and inserts a
    user with a fresh uuid and the role sent, [USER] by default; [POST
    /auth/login] looks the email up, checks the password with
    [bcrypt.compareSync] and answers a JWT of [{ id, role }].

    The theorems give the outcome of the start-up loop for every time at
    which the database comes up, and the functional behaviour of
    registration and login on every branch: a registered user logs in with
    a password of the same bcrypt key and obtains a token that verifies to
    the id and role stored; registering a taken email rejects and is
    not handled.  bcryptjs keys the cipher with the password's UTF-8
    bytes followed by a NUL byte, repeated to 72 bytes ([bcrypt_key]),
    and PostgreSQL refuses a NUL byte in a text parameter. *)

From S2P Require Import Prelude Json Backend.
From stdpp Require Import base strings list gmap relations.
From Stdlib Require Import String Ascii ZArith Lia.

Module AuthService.

(** [err.code] of the errors a query rejects with: the Node.js code of a
    refused connection, the SQLSTATE of a server error. *)
Definition err_code (e : db_error) : string :=
  match e with
  | ConnectionRefused => "ECONNREFUSED"
  | UndefinedTable => "42P01"
  | NotNullViolation => "23502"
  | UniqueViolation => "23505"
  | InvalidByteSequence => "22021"
  end.

Definition trying : log_entry := LogLine "[AUTH-SERVICE] Trying to connect to DB...".
Definition db_ready : log_entry := LogLine "[AUTH-SERVICE] DB ready".
(** [console.error(`[AUTH-SERVICE] DB not ready, retries left: ${retries}`, err.code)] *)
Definition not_ready (retries : nat) (e : db_error) : log_entry :=
  LogLine ("[AUTH-SERVICE] DB not ready, retries left: " ++ number_to_string (Z.of_nat retries)
           ++ " " ++ err_code e).
Definition failed_permanently : log_entry := LogLine "[AUTH-SERVICE] DB connection failed permanently".
Definition running : log_entry := LogLine "[AUTH-SERVICE] Running on port 4001".

(** One iteration of [while (retries) {...}] with [r] retries left after
    it; [again] is the rest of the loop. *)
Definition attempt (r : nat) (delay : Z) (again : handler unit) : handler unit :=
  _ ← perform (Log trying);
  res ← perform (TryQuery CreateUsers);
  match res with
  | inr _ => perform (Log db_ready)
  | inl err =>
      _ ← perform (Log (not_ready r err));
      match r with
      | O => _ ← perform (Log failed_permanently); exit 1
      | S _ => _ ← perform (Sleep delay); again
      end
  end.

(** [async function initDB(retries = 10, delay = 3000) { while (retries) {...} }]:
    [retries] counts down to 0, where [process.exit(1)] ends the process. *)
Fixpoint initDB (retries : nat) (delay : Z) : handler unit :=
  match retries with
  | O => mret tt
  | S r => attempt r delay (initDB r delay)
  end.

(** [initDB().then(() => app.listen(4001, ...))] *)
Definition auth_main : handler unit :=
  _ ← initDB 10 3000;
  perform (Log running).

(** ** The handlers *)

(** [const { email, password, role } = req.body;] reads properties;
    [{ k: v, ... }] with [undefined] values, as [JSON.stringify] (and so
    [jwt.sign]) sees it: the properties holding [undefined] are left out. *)
Definition js_object (fs : list (string * jsv)) : jval :=
  JObj (omap (fun kv => pair kv.1 <$> kv.2) fs).

Definition registered : jval := JObj [("message", JStr "User registered")].

(** [app.post("/auth/register", async (req, res) => {...})] *)
Definition post_register (body : jsv) : handler response :=
  hash ← perform (BcryptHash (js_get body "password") 8);
  id ← perform NewUuid;
  _ ← perform (Query (InsertUser id (js_get body "email") (Some (JStr hash))
                                 (js_or (js_get body "role") (Some (JStr "USER")))));
  mret (RJson registered).

(** The rest of [POST /auth/login] once the user row [user] is found. *)
Definition login_check (body : jsv) (user : jval) : handler response :=
  Do (BcryptCompare (js_get body "password") (js_get (Some user) "password")) (fun ok : bool =>
  if ok then
    token ← perform (JwtSign (js_object [("id", js_get (Some user) "id");
                                        ("role", js_get (Some user) "role")]));
    mret (RJson (JObj [("token", JStr token)]))
  else mret (RStatus 401)).

(** [app.post("/auth/login", async (req, res) => {...})] *)
Definition post_login (body : jsv) : handler response :=
  rows ← perform (Query (SelectUserByEmail (js_get body "email")));
  match rows with
  | [] => mret (RStatus 401)
  | user :: _ => login_check body user
  end.

(** The number of connection attempts in a trace. *)
Definition is_attempt (e : effect) : bool := match e with TryQuery _ => true | _ => false end.
Definition attempts (tr : list effect) : nat := List.length (List.filter is_attempt tr).

(** The database after the [users] table is created. *)
Definition with_users (d : db) : db :=
  mk_db (t_restaurants d) (t_orders d) (Some (default [] (t_users d))).

(** ** The start-up loop *)

Section Startup.
Context `{UuidSource} `{Bcrypt} `{Jwt}.

(** One attempt while the database is down, with retries left: the
    loop logs, waits [delay] and goes on. *)
Lemma attempt_down (r : nat) (d : Z) (k : handler unit) (w : world) :
  db_up w = false ->
  run_handler (attempt (S r) d k) w =
    let w1 := set_now (set_log w (w_log w ++ [trying; not_ready (S r) ConnectionRefused]))
                      (w_now w + Z.max 0 d)%Z in
    let '(w', tr, res) := run_handler k w1 in
    (w', Log trying :: TryQuery CreateUsers :: Log (not_ready (S r) ConnectionRefused) :: Sleep d :: tr, res).
Proof.
  intros Hdown. cbn. unfold run_query. cbn. rewrite Hdown. cbn.
  change (set_log (set_log w ?a) ?b) with (set_log w b). rewrite <- app_assoc.
  unfold run_handler. by destruct (run exec k _) as [[??]?].
Qed.

(** An attempt while the database is up creates the table and ends the loop. *)
Lemma attempt_up (r : nat) (d : Z) (k : handler unit) (w : world) :
  db_up w = true ->
  run_handler (attempt r d k) w =
    (set_log (set_db w (with_users (w_db w))) (w_log w ++ [trying; db_ready]),
     [Log trying; TryQuery CreateUsers; Log db_ready], inr tt).
Proof.
  intros Hup. cbn. unfold run_query. cbn. rewrite Hup. cbn.
  unfold set_log, set_db. cbn. by rewrite <- app_assoc.
Qed.

(** The last attempt fails: the process exits with code 1. *)
Lemma attempt_last (d : Z) (k : handler unit) (w : world) :
  db_up w = false ->
  run_handler (attempt 0 d k) w =
    (set_log w (w_log w ++ [trying; not_ready 0 ConnectionRefused; failed_permanently]),
     [Log trying; TryQuery CreateUsers; Log (not_ready 0 ConnectionRefused);
      Log failed_permanently; Exit 1], inl (ProcessExit 1)).
Proof.
  intros Hdown. cbn. unfold run_query. cbn. rewrite Hdown. cbn.
  unfold set_log. cbn. by rewrite <- !app_assoc.
Qed.

Lemma initDB_S (r : nat) (d : Z) : initDB (S r) d = attempt r d (initDB r d).
Proof. reflexivity. Qed.

(** The loop connects when the database comes up by its last attempt:
    the [users] table exists afterwards, and the loop stopped at the
    first attempt made once the database was up. *)
Lemma initDB_connects (r : nat) (d : Z) (w : world) :
  (0 <= d)%Z -> (w_db_ready_at w <= w_now w + Z.of_nat r * d)%Z ->
  exists w' tr, run_handler (initDB (S r) d) w = (w', tr, inr tt) /\
    w_db w' = with_users (w_db w) /\ (w_db_ready_at w <= w_now w')%Z /\
    (w_now w' = w_now w \/ w_now w' < w_db_ready_at w + d)%Z /\
    (attempts tr <= S r)%nat.
Proof.
  revert w. induction r as [|r IH]; intros w Hd Hready; rewrite initDB_S.
  all: destruct (db_up w) eqn:Hup.
  1,3: rewrite attempt_up by done; apply Z.leb_le in Hup;
       do 2 eexists; split; [reflexivity|]; cbn; repeat split; auto; lia.
  - apply Z.leb_gt in Hup. lia.
  - rewrite attempt_down by done. cbv zeta. apply Z.leb_gt in Hup.
    edestruct (IH (set_now (set_log w (w_log w ++ [trying; not_ready (S r) ConnectionRefused]))
                           (w_now w + Z.max 0 d)%Z)) as (w' & tr & Hrun & Hdb & Hge & Hfirst & Hn);
      [cbn; lia..|].
    rewrite Hrun. do 2 eexists. split; [reflexivity|]. cbn in *. unfold attempts in Hn. split; [done|]. lia.
Qed.

(** The loop exits when the database is still down at its last attempt:
    every retry is spent, nothing is created, and the last line logged
    says the connection failed permanently. *)
Lemma initDB_exits (r : nat) (d : Z) (w : world) :
  (0 <= d)%Z -> (w_now w + Z.of_nat r * d < w_db_ready_at w)%Z ->
  exists w' tr, run_handler (initDB (S r) d) w = (w', tr, inl (ProcessExit 1)) /\
    w_db w' = w_db w /\ w_now w' = (w_now w + Z.of_nat r * d)%Z /\
    attempts tr = S r /\ last (w_log w') = Some failed_permanently.
Proof.
  revert w. induction r as [|r IH]; intros w Hd Hlate; rewrite initDB_S.
  all: assert (Hup : db_up w = false) by (apply Z.leb_gt; lia).
  - rewrite attempt_last by done. do 2 eexists. split; [reflexivity|]. cbn.
    rewrite last_app_cons. repeat split; lia.
  - rewrite attempt_down by done. cbv zeta.
    edestruct (IH (set_now (set_log w (w_log w ++ [trying; not_ready (S r) ConnectionRefused]))
                           (w_now w + Z.max 0 d)%Z)) as (w' & tr & Hrun & Hdb & Hnow & Hn & Hlast);
      [cbn; lia..|].
    rewrite Hrun. do 2 eexists. split; [reflexivity|]. cbn in *.
    unfold attempts in Hn. repeat split; [done|lia|lia|done].
Qed.
End Startup.

(** ** Registration and login *)

Definition users_of (w : world) : list user_row := default [] (t_users (w_db w)).

(** The table after the row [u] is appended. *)
Definition add_user (d : db) (u : user_row) : db :=
  mk_db (t_restaurants d) (t_orders d) (Some (default [] (t_users d) ++ [u])).

(** The payload signed for user row [u] at time [now] ([iat] in seconds). *)
Definition token_payload (u : user_row) (now : Z) : jval :=
  JObj [("id", JStr (u_id u)); ("role", JStr (u_role u)); ("iat", JNum (now / 1000))].

Definition clashes (id e : string) (u : user_row) : bool := String.eqb (u_id u) id || String.eqb (u_email u) e.

Lemma token_payload_wf (u : user_row) (now : Z) :
  (0 <= now <= max_safe)%Z -> json_wf (token_payload u now) = true.
Proof.
  intros Hnow. assert (Hk : keys_canonical ["id"; "role"; "iat"]%string = true) by (vm_compute; reflexivity).
  unfold token_payload. cbn [json_wf map fst snd forallb]. rewrite Hk. cbn [andb].
  rewrite andb_true_r. apply Z.leb_le.
  pose proof (Z.div_pos now 1000). pose proof (Z.div_le_upper_bound now 1000 now). lia.
Qed.

(** No row clashes with [(id, e)]: the email [e] selects no row. *)
Lemma select_fresh_email (us : list user_row) (id e : string) :
  existsb (clashes id e) us = false -> filter (fun u => u_email u = e) us = [].
Proof.
  induction us as [|u us IH]; intros Hx; [done|]. cbn [existsb] in Hx.
  apply orb_false_iff in Hx as [Hu Hrest]. unfold clashes in Hu.
  apply orb_false_iff in Hu as [_ He]. apply String.eqb_neq in He.
  rewrite filter_cons_False by done. auto.
Qed.

Section Handlers.
Context `{UuidSource} `{Bcrypt} `{Jwt}.

(** [POST /auth/register] with a string password, an email and a role
    that are not NULL and have no NUL: the salt and the uuid are drawn,
    then the row is inserted unless its id or email is taken. *)
Lemma post_register_run (body : jsv) (w : world) (us : list user_row) (p e r : string) :
  db_up w = true -> t_users (w_db w) = Some us ->
  js_get body "password" = Some (JStr p) -> prepare (js_get body "email") = Some e ->
  prepare (js_or (js_get body "role") (Some (JStr "USER"))) = Some r ->
  has_nul e = false -> has_nul r = false ->
  let id := uuid_of (w_uuid w) in
  let u := mk_user id e (bcrypt_hash p 8 (w_rand w)) r in
  let w1 := set_uuid (set_rand w (S (w_rand w))) (S (w_uuid w)) in
  let tr := [BcryptHash (Some (JStr p)) 8; NewUuid;
             Query (InsertUser id (js_get body "email") (Some (JStr (u_password u)))
                               (js_or (js_get body "role") (Some (JStr "USER"))))] in
  run_handler (post_register body) w =
    if existsb (clashes id e) us then (w1, tr, inl (DbError UniqueViolation))
    else (set_db w1 (add_user (w_db w) u), tr, inr (RJson registered)).
Proof.
  intros Hup Hus Hp He Hr He0 Hr0. unfold post_register. rewrite Hp. cbn. unfold run_query. cbn.
  rewrite Hup. cbn. rewrite Hus, He, Hr. cbn [param_nul]. rewrite He0, Hr0, bcrypt_hash_text. cbn. unfold clashes.
  destruct (existsb _ us); cbn; [done|]. unfold add_user. by rewrite Hus.
Qed.

(** A registration that succeeds stored an email and a role without NUL:
    PostgreSQL refuses such text parameters. *)
Lemma post_register_success_text (body : jsv) (w w1 : world) tr res (p e r : string) :
  js_get body "password" = Some (JStr p) -> prepare (js_get body "email") = Some e ->
  prepare (js_or (js_get body "role") (Some (JStr "USER"))) = Some r ->
  run_handler (post_register body) w = (w1, tr, inr res) -> has_nul e = false /\ has_nul r = false.
Proof.
  intros Hp He Hr. unfold post_register. rewrite Hp. cbn. unfold run_query. cbn.
  destruct (db_up w); cbn; [|intros [=]].
  destruct (t_users (w_db w)); cbn; [|intros [=]].
  rewrite He, Hr. cbn [param_nul]. rewrite bcrypt_hash_text.
  destruct (has_nul e), (has_nul r); cbn; try (intros [=]); [].
  by destruct (existsb _ _).
Qed.

(** [POST /auth/login] looks the email up: no row means 401, otherwise
    the first row is checked.  The database is only read. *)
Lemma post_login_run (body : jsv) (w : world) (us : list user_row) (e : string) :
  db_up w = true -> t_users (w_db w) = Some us -> prepare (js_get body "email") = Some e ->
  has_nul e = false ->
  run_handler (post_login body) w =
    match filter (fun u => u_email u = e) us with
    | [] => (w, [Query (SelectUserByEmail (js_get body "email"))], inr (RStatus 401))
    | u :: _ =>
        let '(w', tr, res) := run_handler (login_check body (user_json u)) w in
        (w', Query (SelectUserByEmail (js_get body "email")) :: tr, res)
    end.
Proof.
  intros Hup Hus He He0. unfold post_login. rewrite run_handler_bind. cbn -[login_check].
  unfold run_query. rewrite Hup. cbn -[login_check]. rewrite Hus, He. cbn [param_nul]. rewrite He0.
  cbn -[login_check].
  assert (Hd : set_db w (w_db w) = w) by (by destruct w).
  rewrite Hd. by destruct (filter _ us).
Qed.

(** The password check and the token: with a secret configured, a
    password of the row's key is answered a token of the row's id and
    role; any other password 401. *)
Lemma login_check_run (body : jsv) (u : user_row) (w : world) (p k : string) :
  js_get body "password" = Some (JStr p) -> w_secret w = Some k -> k <> ""%string ->
  exists tr, run_handler (login_check body (user_json u)) w =
    (w, tr, inr (if bcrypt_compare p (u_password u)
                 then RJson (JObj [("token", JStr (jwt_sign (token_payload u (w_now w)) k))])
                 else RStatus 401)).
Proof.
  intros Hp Hk Hne. unfold login_check. rewrite Hp. cbn.
  destruct (bcrypt_compare p (u_password u)); cbn; [|by eexists].
  rewrite Hk. apply String.eqb_neq in Hne. rewrite Hne. by eexists.
Qed.

(** Whatever the request, registration leaves the users unchanged or
    appends one row whose id and email no row had. *)
Lemma post_register_users (body : jsv) (w w' : world) tr res :
  run_handler (post_register body) w = (w', tr, res) ->
  users_of w' = users_of w \/
  exists u, users_of w' = users_of w ++ [u] /\ existsb (clashes (u_id u) (u_email u)) (users_of w) = false.
Proof.
  unfold post_register, users_of. cbn. destruct (js_get body "password") as [[]|];
    cbn; try (intros; simplify_eq/=; auto; fail).
  unfold run_query. cbn. destruct (db_up w); cbn; [|intros; simplify_eq/=; auto].
  destruct (t_users (w_db w)) as [us|] eqn:Hus; cbn; [|intros; simplify_eq; cbn; rewrite ?Hus; auto].
  destruct (param_nul _ || _ || _); cbn; [intros; simplify_eq; cbn; rewrite ?Hus; auto|].
  destruct (prepare (js_get body "email")), (prepare (js_or (js_get body "role") (Some (JStr "USER"))));
    cbn; try (intros; simplify_eq; cbn; rewrite ?Hus; auto; fail).
  destruct (existsb _ us) eqn:Hx; cbn; intros; simplify_eq; cbn; rewrite ?Hus; auto.
  right. eexists. split; [reflexivity|]. by unfold clashes.
Qed.

Lemma login_check_readonly (body : jsv) (u : jval) (w : world) :
  (run_handler (login_check body u) w).1.1 = w.
Proof.
  unfold login_check. rewrite run_handler_do.
  destruct (exec w _) as [|[w1 ok]] eqn:He; [done|].
  assert (w1 = w) as -> by (cbn in He; repeat case_match; by simplify_eq).
  destruct ok; cbn -[run_handler]; [rewrite run_handler_do|done].
  destruct (exec w (JwtSign _)) as [|[w2 t]] eqn:Hj; [done|].
  assert (w2 = w) as -> by (cbn in Hj; repeat case_match; by simplify_eq).
  done.
Qed.

(** Login only reads: the world is the same on every branch. *)
Lemma post_login_readonly (body : jsv) (w w' : world) tr res :
  run_handler (post_login body) w = (w', tr, res) -> w' = w.
Proof.
  intros Hrun. destruct (db_up w) eqn:Hup; cycle 1.
  { revert Hrun. unfold post_login. cbn. unfold run_query. rewrite Hup. by intros; simplify_eq. }
  destruct (t_users (w_db w)) as [us|] eqn:Hus; cycle 1.
  { revert Hrun. unfold post_login. cbn. unfold run_query. rewrite Hup. cbn. rewrite Hus.
    cbn. by intros; simplify_eq. }
  destruct (prepare (js_get body "email")) as [e|] eqn:He; cycle 1.
  { revert Hrun. unfold post_login. cbn. unfold run_query. rewrite Hup. cbn. rewrite Hus, He. cbn.
    intros; simplify_eq. by destruct w. }
  destruct (has_nul e) eqn:Hn.
  { revert Hrun. unfold post_login. cbn. unfold run_query. rewrite Hup. cbn. rewrite Hus, He.
    cbn [param_nul]. rewrite Hn. cbn. by intros; simplify_eq. }
  rewrite (post_login_run body w us e) in Hrun by done.
  destruct (filter _ us) as [|u rest]; [by simplify_eq|].
  pose proof (login_check_readonly body (user_json u) w) as Hro.
  destruct (run_handler (login_check body (user_json u)) w) as [[w1 tr1] res1].
  cbn in Hro. by simplify_eq.
Qed.
End Handlers.

(** ** Properties *)

Section Properties.
Context `{UuidSource} `{Bcrypt} `{Jwt}.

(** C5: Start-up of the auth service.  With the defaults (10 attempts,
    3000 ms apart) the service starts listening exactly when the
    database accepts connections within 27 s of start: it then has
    created the [users] table at the first attempt made after the
    database came up.  Otherwise the process exits with code 1 after 10
    failed attempts, 27 s after start, without creating anything. *)
Theorem auth_startup (w : world) :
  ((w_db_ready_at w <= w_now w + 27000)%Z ->
   exists w' tr, run_handler auth_main w = (w', tr, inr tt) /\
     w_db w' = with_users (w_db w) /\ last (w_log w') = Some running /\
     (w_now w' = w_now w \/ w_now w' < w_db_ready_at w + 3000)%Z /\
     (w_db_ready_at w <= w_now w')%Z /\ (attempts tr <= 10)%nat) /\
  ((w_now w + 27000 < w_db_ready_at w)%Z ->
   exists w' tr, run_handler auth_main w = (w', tr, inl (ProcessExit 1)) /\
     w_db w' = w_db w /\ w_now w' = (w_now w + 27000)%Z /\ attempts tr = 10%nat /\
     last (w_log w') = Some failed_permanently).
Proof.
  unfold auth_main. split; intros Hready.
  - destruct (initDB_connects 9 3000 w) as (w' & tr & Hrun & Hdb & Hge & Hfirst & Hn); [lia..|].
    rewrite run_handler_bind, Hrun. cbn. do 2 eexists. split; [reflexivity|].
    split; [done|]. split; [apply last_snoc|]. unfold attempts in *.
    rewrite List.filter_app, length_app. cbn. lia.
  - destruct (initDB_exits 9 3000 w) as (w' & tr & Hrun & Hdb & Hnow & Hn & Hlast); [lia..|].
    rewrite run_handler_bind, Hrun. do 2 eexists. split; [reflexivity|]. repeat split; auto; lia.
Qed.

(** C3: Register then log in.  When [POST /auth/register] succeeds for
    email [e], password [p] and role [r] ([USER] when none is sent), the
    users table gains exactly that row; a later [POST /auth/login] with
    email [e] and a password of the same bcrypt key as [p] is answered a
    token that the secret verifies to the new user's id, the role [r]
    and the time of issue, and a password of another key is answered
    401.  Login changes nothing. *)
Theorem register_then_login (w w1 : world) (br bl : jsv) (us : list user_row)
    (e p p' r k : string) tr res :
  db_up w = true -> t_users (w_db w) = Some us -> (0 <= w_now w <= max_safe)%Z ->
  w_secret w = Some k -> k <> ""%string ->
  js_get br "password" = Some (JStr p) -> prepare (js_get br "email") = Some e ->
  prepare (js_or (js_get br "role") (Some (JStr "USER"))) = Some r ->
  js_get bl "password" = Some (JStr p') -> prepare (js_get bl "email") = Some e ->
  run_handler (post_register br) w = (w1, tr, inr res) ->
  exists u tr' resp,
    users_of w1 = us ++ [u] /\ u_id u = uuid_of (w_uuid w) /\ u_email u = e /\ u_role u = r /\
    run_handler (post_login bl) w1 = (w1, tr', inr resp) /\
    (bcrypt_key p' = bcrypt_key p ->
     exists t, resp = RJson (JObj [("token", JStr t)]) /\
       jwt_verify t k = Some (JObj [("id", JStr (u_id u)); ("role", JStr r);
                                    ("iat", JNum (w_now w / 1000))])) /\
    (bcrypt_key p' <> bcrypt_key p -> resp = RStatus 401).
Proof.
  intros Hup Hus Hnow Hk Hne Hp He Hr Hp' He' Hreg.
  destruct (post_register_success_text br w w1 tr res p e r Hp He Hr Hreg) as [He0 Hr0].
  rewrite (post_register_run br w us p e r) in Hreg by done. cbv zeta in Hreg.
  destruct (existsb _ us) eqn:Hfresh; [discriminate|]. injection Hreg as <- _ _.
  set (u := mk_user (uuid_of (w_uuid w)) e (bcrypt_hash p 8 (w_rand w)) r).
  assert (Hsel : filter (fun u' => u_email u' = e) (us ++ [u]) = [u]).
  { rewrite filter_app, (select_fresh_email us _ e Hfresh). by rewrite filter_cons_True. }
  rewrite (post_login_run bl _ (us ++ [u]) e) by (cbn; rewrite ?Hus; done).
  rewrite Hsel.
  destruct (login_check_run bl u (set_db (set_uuid (set_rand w (S (w_rand w))) (S (w_uuid w)))
              (add_user (w_db w) u)) p' k) as [tr' Hrun]; [done..|].
  rewrite Hrun. cbn [u_password u]. rewrite bcrypt_compare_hash.
  exists u. do 2 eexists. split; [by unfold users_of, add_user; cbn; rewrite Hus|].
  do 4 (split; [done|]). split; intros Hkey.
  - rewrite bool_decide_true by done. eexists. split; [reflexivity|].
    by rewrite jwt_verify_sign by (apply token_payload_wf; done).
  - by rewrite bool_decide_false.
Qed.

(** C22: Registering a taken email is rejected, with no answer.  With
    the database up, a [POST /auth/register] whose email is already the
    email of a row (and whose role, like every stored email, has no NUL,
    which PostgreSQL would refuse first) makes the [INSERT] reject with a
    unique violation: the users table is left as it was, and the
    rejection escapes the async
    handler: Express 4 does not catch it, so no error status is sent (in
    the whole system the auth process exits, [Crash.v]). *)
Theorem register_duplicate_email (body : jsv) (w : world) (us : list user_row) (p e r : string)
    (u0 : user_row) :
  db_up w = true -> t_users (w_db w) = Some us ->
  js_get body "password" = Some (JStr p) -> prepare (js_get body "email") = Some e ->
  prepare (js_or (js_get body "role") (Some (JStr "USER"))) = Some r ->
  u0 ∈ us -> u_email u0 = e -> has_nul e = false -> has_nul r = false ->
  exists w' tr, run_handler (post_register body) w = (w', tr, inl (DbError UniqueViolation)) /\
    w_db w' = w_db w.
Proof.
  intros Hup Hus Hp He Hr Hin Hu0 He0 Hr0. rewrite (post_register_run body w us p e r) by done. cbv zeta.
  replace (existsb _ us) with true; [by do 2 eexists|].
  symmetry. apply existsb_exists. exists u0. split; [by apply list_elem_of_In|].
  unfold clashes. rewrite Hu0, String.eqb_refl. apply orb_true_r.
Qed.
End Properties.

(** ** A run of the service

    The database comes up 5 s after the service starts, so the third
    attempt (at 6 s) connects; a user registers with the role [ADMIN] and
    a 73-character password, then logs in with a password that differs
    from it only in its 73rd character. *)

Definition secret : string := "s3cr3t".
Definition aw0 : world := set_secret (set_db_ready_at boot_world 5000) (Some secret).
Definition aw1 : world := (run_handler auth_main aw0).1.1.

Definition long_password (c : ascii) : string :=
  (string_of_list_ascii (repeat "a"%char 72) ++ String c EmptyString)%string.

Definition register_body : jsv :=
  Some (JObj [("email", JStr "ada@example.com"); ("password", JStr (long_password "1"));
              ("role", JStr "ADMIN")]).
Definition login_body : jsv :=
  Some (JObj [("email", JStr "ada@example.com"); ("password", JStr (long_password "2"))]).

Definition aw2 : world := (run_handler (post_register register_body) aw1).1.1.
Definition register_trace : list effect := (run_handler (post_register register_body) aw1).1.2.

(** The database late by more than 27 s: the service gives up. *)
Definition aw_late : world := set_db_ready_at boot_world 30000.

(** The database up after 5 s: the service starts; up after 30 s: it
    gives up. *)
Lemma auth_startup_witness :
  (exists w' tr, run_handler auth_main aw0 = (w', tr, inr tt) /\ last (w_log w') = Some running /\
    (attempts tr <= 10)%nat) /\
  (exists w' tr, run_handler auth_main aw_late = (w', tr, inl (ProcessExit 1)) /\ attempts tr = 10%nat).
Proof.
  split.
  - destruct (proj1 (auth_startup aw0) ltac:(vm_compute; discriminate))
      as (w' & tr & Hrun & _ & Hlast & _ & _ & Hn).
    exists w', tr. split; [exact Hrun|]. split; [exact Hlast|exact Hn].
  - destruct (proj2 (auth_startup aw_late) ltac:(vm_compute; reflexivity))
      as (w' & tr & Hrun & _ & _ & Hn & _).
    exists w', tr. split; [exact Hrun|exact Hn].
Defined.

Lemma register_then_login_witness :
  long_password "1" <> long_password "2" /\
  exists u tr' resp,
    users_of aw2 = [] ++ [u] /\ u_id u = uuid_of (w_uuid aw1) /\ u_email u = "ada@example.com"%string /\
    u_role u = "ADMIN"%string /\
    run_handler (post_login login_body) aw2 = (aw2, tr', inr resp) /\
    (bcrypt_key (long_password "2") = bcrypt_key (long_password "1") ->
     exists t, resp = RJson (JObj [("token", JStr t)]) /\
       jwt_verify t secret = Some (JObj [("id", JStr (u_id u)); ("role", JStr "ADMIN");
                                        ("iat", JNum (w_now aw1 / 1000))])) /\
    (bcrypt_key (long_password "2") <> bcrypt_key (long_password "1") -> resp = RStatus 401).
Proof.
  split; [vm_compute; discriminate|].
  apply (register_then_login aw1 aw2 register_body login_body [] "ada@example.com" (long_password "1")
           (long_password "2") "ADMIN" secret register_trace (RJson registered));
    try (vm_compute; reflexivity); try (vm_compute; discriminate).
  vm_compute. split; discriminate.
Defined.

(** Ada registers again, as the existing row: rejected. *)
Lemma register_duplicate_email_witness :
  exists w' tr, run_handler (post_register register_body) aw2 = (w', tr, inl (DbError UniqueViolation)) /\
    w_db w' = w_db aw2.
Proof.
  apply (register_duplicate_email register_body aw2
           [mk_user (uuid_of 0) "ada@example.com" (bcrypt_hash (long_password "1") 8 0) "ADMIN"]
           (long_password "1") "ada@example.com" "ADMIN"
           (mk_user (uuid_of 0) "ada@example.com" (bcrypt_hash (long_password "1") 8 0) "ADMIN"));
    try reflexivity. apply list_elem_of_here.
Defined.

End AuthService.
