(* ===== verification/Services.v ===== *)
(** * The four Express services and the path through the gateway

    Each service is an Express 4 application: a pipeline of [app.use]
    middleware ([morgan] with the service's access-log format and
    [express.json()], in the order of its source), then its routes.  The
    payment service ([services/payment-service/index.js]) has one route
    that always answers [{ status: "PAYMENT_SUCCESS" }].

    [end_to_end] sends a client request through the gateway ([Gateway.v])
    and on to the service it forwards to, where the handlers of
    [Restaurant.v], [Order.v] and [Auth.v] run.

    The theorems show that the gateway is transparent for requests
    without a JSON body, that with chunked framing a JSON request reaches
    its handler with [req.body = {}] (so that a registration always
    fails), and which services log a request whose JSON is malformed. *)

From S2P Require Import Prelude Json Gateway Backend Restaurant Order Auth.
From stdpp Require Import base strings list.
From Stdlib Require Import String Ascii ZArith Lia.

Module Services.
Import Gateway.

(** ** The payment service *)

(** [app.post("/payments", (req, res) => { res.json({ status: "PAYMENT_SUCCESS" }); })] *)
Definition post_payments (body : jsv) : handler response :=
  mret (RJson (JObj [("status", JStr "PAYMENT_SUCCESS")])).

(** ** morgan *)

(** The format function of every service:
    [[`[${SERVICE_NAME}]`, method, url, status, "-", response-time, "ms"].join(" ")].
    A token that is [undefined] (no status because no header was sent, no
    response time) joins as the empty string. *)
Definition morgan_line (service meth u : string) (status : option Z) (rt : option string) : string :=
  String.concat " " [("[" ++ service ++ "]")%string; meth; u;
                     default "" (number_to_string <$> status); "-"; default "" rt; "ms"].

(** Whether a string contains the character [c]. *)
Fixpoint has_char (c : ascii) (s : string) : bool :=
  match s with
  | EmptyString => false
  | String a s' => Ascii.eqb a c || has_char c s'
  end.

(** ** Express applications *)

Inductive middleware : Type :=
| Morgan
| JsonParser.

(** A route: method (lower case), path, handler of [req.body]. *)
Definition route : Type := (string * string * (jsv -> handler response))%type.

Record service := mk_service {
  svc_name : string;
  pipeline : list middleware;
  svc_routes : list route;
  svc_port : Z                  (** [app.listen(port)] *)
}.

(** [app.METHOD(path, ...)] matches [^path\/?$] with flag [i] on the
    pathname; a GET route also answers HEAD. *)
Definition route_matches (rt : route) (meth path : string) : bool :=
  let '(m, p, _) := rt in
  let lm := lower meth in
  (String.eqb lm m || (String.eqb lm "head" && String.eqb m "get")) &&
  (String.eqb (lower path) (lower p) || String.eqb (lower path) (lower p ++ "/")).

Definition find_route (svc : service) (meth path : string) : option (jsv -> handler response) :=
  (fun rt : route => rt.2) <$> List.find (fun rt => route_matches rt meth path) (svc_routes svc).

(** Whether [morgan] runs before [express.json()]: only then does it log a
    request that the JSON parser answers with 400. *)
Definition morgan_first (pl : list middleware) : bool :=
  match pl with
  | [] => false
  | Morgan :: _ => true
  | JsonParser :: _ => false
  end.

(** [req.body] after [express.json()]: the parsed value, [{}] otherwise. *)
Definition req_body (st : body_state) : jsv :=
  match st with
  | Consumed v => Some v
  | _ => Some (JObj [])
  end.

Inductive served : Type :=
| SRefused (code : Z) (logged : bool)  (** 400 or 413 from [express.json()]; whether morgan logs it *)
| SNotFound                       (** Express's 404 *)
| SHandler (h : handler response) (** the route's handler runs *)
| SUnmodelled.

Definition serve (svc : service) (r : request) : served :=
  match json_body r with
  | Rejected c => SRefused c (morgan_first (pipeline svc))
  | BodyUnmodelled => SUnmodelled
  | st =>
      match find_route svc (method r) (pathname (url r)) with
      | Some h => SHandler (h (req_body st))
      | None => SNotFound
      end
  end.

(** The ports the services listen on: [app.listen(4002, ...)] and so on. *)
Definition restaurant_listen : Z := 4002.
Definition order_listen : Z := 4003.
Definition auth_listen : Z := 4001.
Definition payment_listen : Z := 4004.

(** [services/restaurant-service/index.js]: morgan, then [express.json()]. *)
Definition restaurant_service : service :=
  mk_service "RESTAURANT-SERVICE" [Morgan; JsonParser]
    [("post", "/restaurants", RestaurantService.post_restaurants);
     ("get", "/restaurants", fun _ => RestaurantService.get_restaurants)]%string
    restaurant_listen.

(** [services/order-service/index.js]: [express.json()], then morgan. *)
Definition order_service : service :=
  mk_service "ORDER-SERVICE" [JsonParser; Morgan]
    [("post", "/orders", fun _ => OrderService.post_orders)]%string
    order_listen.

(** [unnamed/part_001]: morgan, then [express.json()]. *)
Definition auth_service : service :=
  mk_service "AUTH-SERVICE" [Morgan; JsonParser]
    [("post", "/auth/register", AuthService.post_register);
     ("post", "/auth/login", AuthService.post_login)]%string
    auth_listen.

(** [services/payment-service/index.js]: [express.json()], then morgan. *)
Definition payment_service : service :=
  mk_service "PAYMENT-SERVICE" [JsonParser; Morgan]
    [("post", "/payments", post_payments)]%string
    payment_listen.

(** The deployment of the README ([docker-compose ps]): each service runs
    under its host name on the shared network. *)
Definition deployment : list (string * service) :=
  [("auth-service", auth_service); ("restaurant-service", restaurant_service);
   ("order-service", order_service); ("payment-service", payment_service)]%string.

(** The URL at which a deployed service is reached. *)
Definition service_url (hs : string * service) : string :=
  ("http://" ++ hs.1 ++ ":" ++ number_to_string (svc_port hs.2))%string.

(** The service behind each target of the gateway: the one whose host and
    listening port the target names. *)
Definition service_at (target : string) : option service :=
  snd <$> List.find (fun hs => String.eqb target (service_url hs)) deployment.

(** ** Through the gateway *)

(** What the service receives.  A drained body arrives as no bytes: with
    chunked framing that is an empty body; with Content-Length framing the
    service waits for bytes that never come ([None]), unless the length
    was 0. *)
Definition upstream (r : request) (b : forwarded_body) : option request :=
  match b with
  | Intact _ => Some r
  | Drained =>
      if chunked r || bool_decide (body r = Some EmptyString)
      then Some (mk_request (method r) (url r) (json_type r) (Some EmptyString) (chunked r))
      else None
  end.

Inductive e2e : Type :=
| AtGateway (code : Z)                  (** answered by the gateway itself *)
| Stalled (to : string) (pt : option Z) (** the service waits for the body; [pt]: the proxy's timeout *)
| AtService (svc : service) (s : served)
| E2EUnmodelled.

Definition end_to_end (r : request) : e2e :=
  match gateway r with
  | Refused c => AtGateway c
  | NotFound => AtGateway 404
  | Unmodelled => E2EUnmodelled
  | Forward to _ b _ pt =>
      match service_at to with
      | None => AtGateway 502
      | Some svc =>
          match upstream r b with
          | None => Stalled to pt
          | Some r' => AtService svc (serve svc r')
          end
      end
  end.

(** ** Properties *)




(** With chunked framing the handler runs, on [req.body = {}]. *)
Lemma end_to_end_chunked (r : request) (v : jval) (m : string) (o : proxy_options) (svc : service) h :
  json_body r = Consumed v -> chunked r = true -> In (m, o) routes ->
  mount_matches m (pathname (url r)) = true -> service_at (target o) = Some svc ->
  find_route svc (method r) (pathname (url r)) = Some h ->
  end_to_end r = AtService svc (SHandler (h (Some (JObj [])))).
Proof.
  intros Hb Hc Hin Hm Hsvc Hr. unfold end_to_end, gateway.
  rewrite Hb, (dispatch_some m o _ Hin Hm), Hsvc. cbn. rewrite Hc. cbn.
  unfold serve, json_body. cbn. destruct (json_type r); cbn; by rewrite Hr.
Qed.

(** C23: Registration through the gateway always fails.  A [POST
    /auth/register] with a JSON body sent with chunked framing reaches the
    handler with [req.body = {}]; the handler then rejects at
    [bcrypt.hash(undefined, 8)] whatever the state, so no user is ever
    registered through the gateway. *)
Theorem register_through_gateway (r : request) (v : jval) (w : world) :
  json_body r = Consumed v -> chunked r = true ->
  pathname (url r) = "/auth/register"%string -> lower (method r) = "post"%string ->
  exists h, end_to_end r = AtService auth_service (SHandler h) /\
    run_handler h w = (w, [BcryptHash None 8], inl IllegalArguments).
Proof.
  intros Hb Hc Hp Hm. exists (AuthService.post_register (Some (JObj []))). split.
  - apply (end_to_end_chunked r v "/auth"
             (mk_proxy "http://auth-service:4001" true (Some 60000%Z) (Some 60000%Z)) auth_service
             AuthService.post_register Hb Hc); [cbn; tauto|by rewrite Hp|reflexivity|].
    unfold find_route, route_matches. cbn -[lower]. by rewrite Hm, Hp.
  - reflexivity.
Qed.

(** C29: Which services log malformed JSON.  A request whose body
    [express.json()] rejects is answered 400 (413 when over the limit) by
    every service with the same code, but only
    the restaurant and auth services, which install morgan first, log it;
    the order and payment services install the parser first and log
    nothing. *)
Theorem malformed_json_logging (r : request) (c : Z) :
  json_body r = Rejected c ->
  serve restaurant_service r = SRefused c true /\ serve auth_service r = SRefused c true /\
  serve order_service r = SRefused c false /\ serve payment_service r = SRefused c false.
Proof. intros Hb. unfold serve. by rewrite Hb. Qed.

(** ** Requests from a client *)

Definition chunked_register_req : request :=
  mk_request "POST" "/auth/register" true (Some register_json) true.
Definition malformed_req : request := mk_request "POST" "/payments" true (Some "{") false.


Lemma register_through_gateway_witness :
  exists h, end_to_end chunked_register_req = AtService auth_service (SHandler h) /\
    run_handler h boot_world = (boot_world, [BcryptHash None 8], inl IllegalArguments).
Proof.
  apply (register_through_gateway chunked_register_req
           (JObj [("email", JStr "ada@example.com"); ("password", JStr "pw")]) boot_world);
    vm_compute; reflexivity.
Defined.

Lemma malformed_json_logging_witness :
  serve restaurant_service malformed_req = SRefused 400 true /\
  serve auth_service malformed_req = SRefused 400 true /\
  serve order_service malformed_req = SRefused 400 false /\
  serve payment_service malformed_req = SRefused 400 false.
Proof. apply malformed_json_logging. vm_compute. reflexivity. Defined.

End Services.
