(* ===== verification/Infra.v ===== *)
(** * Where the processes meet: the configuration they share

    The model keeps one Redis ([Backend.world]'s [w_redis] and [w_queues])
    for the restaurant service's cache client and for BullMQ, producer and
    worker.  This file holds the configuration the code writes for that:
    the URL the restaurant service gives [redis.createClient], the
    connection record and the queue the shared queue module exports to
    the order service and to the worker, and the gateway's port.  How
    node-redis reads a [redis://] URL is modelled, with the lemma that it
    reads back the connection a URL was written from
    ([redis_endpoint_url_of]); on the URL of the code it yields the host
    and port of the queue module's connection, which is what lets the
    model keep a single Redis.  No property is claimed of these
    constants: on a fixed configuration there is nothing to prove beyond
    evaluating them. *)

From S2P Require Import Prelude Json Backend Order Notification Services.
From stdpp Require Import base strings list.
From Stdlib Require Import String Ascii ZArith Lia.

Module Infra.
Import QueueModule NotificationWorker Services.

(** [const client = redis.createClient({ url: "redis://redis:6379" }); client.connect();] *)
Definition redis_url : string := "redis://redis:6379".

(** [unnamed/part_000]: [const { connection } = require("./shared/queue/redis");],
    passed to [new Worker(..., { connection })]. *)
Definition worker_connection : connection := ex_connection exports.

(** [services/order-service/index.js]:
    [const { orderQueue } = require("./shared/queue/redis");] *)
Definition producer_queue : string := ex_orderQueue exports.

(** [app.listen(8000, ...)] of the gateway. *)
Definition gateway_listen : Z := 8000.

(** ** Reading a [redis://] URL

    node-redis reads the URL with WHATWG URL parsing: the scheme, a
    non-empty host up to [:], and an optional decimal port, 6379 when
    absent; a port beyond 65535 is refused.  URLs with credentials, a
    path or a database number are outside the model and read as [None]. *)

Fixpoint strip_prefix (p s : string) : option string :=
  match p, s with
  | EmptyString, _ => Some s
  | String a p', String b s' => if Ascii.eqb a b then strip_prefix p' s' else None
  | String _ _, EmptyString => None
  end.

Fixpoint break_colon (s : string) : string * string :=
  match s with
  | EmptyString => (EmptyString, EmptyString)
  | String c t => if Ascii.eqb c ":" then (EmptyString, s) else let '(h, r) := break_colon t in (String c h, r)
  end.

Definition redis_default_port : Z := 6379.

Definition redis_endpoint (u : string) : option connection :=
  rest ← strip_prefix "redis://" u;
  let '(h, r) := break_colon rest in
  if String.eqb h "" then None else
  match r with
  | EmptyString => Some (mk_connection h redis_default_port)
  | String _ ds =>
      if negb (String.eqb ds "") && all_digits ds && (decimal_value ds <=? 65535)%Z
      then Some (mk_connection h (decimal_value ds)) else None
  end.

(** The URL of a connection record. *)
Definition redis_url_of (c : connection) : string :=
  ("redis://" ++ host c ++ ":" ++ number_to_string (port c))%string.

(** ** Lemmas *)

Lemma strip_prefix_app (p s : string) : strip_prefix p (p ++ s) = Some s.
Proof. induction p as [|a p IH]; [done|]. rewrite append_cons. cbn [strip_prefix]. by rewrite Ascii.eqb_refl. Qed.

Lemma break_colon_app (h r : string) :
  has_char ":" h = false -> break_colon (h ++ String ":" r) = (h, String ":" r).
Proof.
  induction h as [|c h IH]; [done|]. rewrite append_cons. cbn [break_colon has_char].
  destruct (Ascii.eqb c ":"); [done|]. intros Hh. by rewrite IH.
Qed.

Lemma number_to_string_digits (z : Z) :
  (0 <= z)%Z -> number_to_string z <> EmptyString /\ all_digits (number_to_string z) = true /\
    decimal_value (number_to_string z) = z.
Proof.
  intros Hz. split_and!; [| |rewrite <- (Z2Nat.id z Hz); apply decimal_value_nat];
    (destruct z as [|p|p]; [by vm_compute|cbn [number_to_string]|lia]);
    destruct (pos_decimal_digits p) as (c & cs & -> & Hd & _ & Hall & _); [discriminate|].
  unfold all_digits. cbn. rewrite Hd, list_ascii_of_string_of_list_ascii.
  clear -Hall. induction Hall as [|x l Hx _ IH]; [done|]. cbn. by rewrite Hx, IH.
Qed.

(** node-redis reads back the connection a URL was written from. *)
Lemma redis_endpoint_url_of (c : connection) :
  host c <> EmptyString -> has_char ":" (host c) = false -> (0 <= port c <= 65535)%Z ->
  redis_endpoint (redis_url_of c) = Some c.
Proof.
  intros Hh Hc Hp. destruct (number_to_string_digits (port c)) as (Hne & Hd & Hv); [lia|].
  unfold redis_endpoint, redis_url_of. rewrite strip_prefix_app. cbn [mbind option_bind].
  change ((":" ++ ?x)%string) with (String ":" x). rewrite break_colon_app by done.
  destruct (String.eqb_spec (host c) "") as [|_]; [done|].
  destruct (String.eqb_spec (number_to_string (port c)) "") as [|_]; [done|].
  rewrite Hd, Hv. cbn. destruct (Z.leb_spec (port c) 65535); [|lia]. by destruct c.
Qed.

End Infra.
