(* ===== verification/AccessLog.v ===== *)
(** * The access log of a service

    Every service installs [morgan] with the format of [Services.morgan_line]
    (immediate: false), so a request is logged when its response has been
    sent, with the response's status.  A request that the parser refuses
    is logged only where morgan runs before [express.json()]; Express's
    404 is logged by every service; a request whose handler rejects is
    never logged, since its response is never sent (the process exits,
    [Crash.v]).

    [handle] is one request served by one service: the world after it,
    the access-log lines it prints, and the response, if one is sent:
    a line with the status of the response when one is sent, none for a
    request whose handler rejects.  No property is claimed of it: it
    records what the morgan middleware of [Services.v] prints for one
    request. *)

From S2P Require Import Prelude Json Gateway Backend Services.
From stdpp Require Import base strings list.
From Stdlib Require Import String Ascii ZArith.

Module AccessLog.
Import Gateway Services.

(** The status line of a response: [res.json] sends 200,
    [res.sendStatus(c)] sends [c]. *)
Definition status_of (a : response) : Z :=
  match a with
  | RJson _ => 200
  | RStatus c => c
  end.

Record handled := mk_handled {
  h_world : world;
  h_log : list string;             (** the lines morgan prints *)
  h_answer : option response       (** the response sent, if any *)
}.

Section Handle.
Context `{UuidSource} `{Bcrypt} `{Jwt}.

(** One request on one service; [rt] is the response-time token. *)
Definition handle (svc : service) (r : request) (rt : option string) (w : world) : handled :=
  let line c := morgan_line (svc_name svc) (method r) (url r) (Some c) rt in
  match serve svc r with
  | SRefused c logged => mk_handled w (if logged then [line c] else []) (Some (RStatus c))
  | SNotFound => mk_handled w [line 404%Z] (Some (RStatus 404))
  | SHandler h =>
      let '(w', _, res) := run_handler h w in
      match res with
      | inr a => mk_handled w' [line (status_of a)] (Some a)
      | inl _ => mk_handled w' [] None
      end
  | SUnmodelled => mk_handled w [] None
  end.

End Handle.

End AccessLog.
