(* ===== verification/System.v ===== *)
(** * The whole system under interleaving

    Node.js runs every service on an event loop: a handler runs until its
    next [await], and any other request, the worker or the clock may go
    on in between.  Here the system is a set of handlers in flight, each
    the rest of its program ([handler response]), the notification worker
    and the shared world; a step starts a request on one of the services'
    routes, advances one handler in flight by one effect, runs one step of
    the worker, or lets time pass.

    The auth service first runs its start-up ([auth_main]), itself
    interleaved with the rest, and accepts requests only once it resolved.
    Each handler in flight carries the name of its service: a handler
    that rejects is an unhandled rejection, which ends the Node.js
    process of its service, so that service's handlers in flight are
    dropped and it accepts no request any more ([s_down]).

    The theorems show that three invariants hold in every interleaving:
    every job of [order-events] names an order that is in the table, the
    restaurant cache holds the JSON of a prefix of the table, and users
    have distinct emails and ids.  Each invariant constrains the handlers
    in flight by the stage they are at (for instance, a [GET] about to
    write the cache holds rows read from the table).  They also show that
    two concurrent cold [GET /restaurants] both query the table (there is
    no single-flight). *)

From S2P Require Import Prelude Json Gateway Backend Restaurant Order Notification Auth Services.
From stdpp Require Import base strings list gmap relations.
From Stdlib Require Import String Ascii ZArith Lia.

Module System.
Import RestaurantService OrderService QueueModule NotificationWorker AuthService Services.

(** ** What an effect may change *)

(** Every table only grows: a table that exists keeps its rows in front. *)
Definition db_grows (d d' : db) : Prop :=
  (forall rs, t_restaurants d = Some rs -> exists rs', t_restaurants d' = Some rs' /\ rs `prefix_of` rs') /\
  (forall os, t_orders d = Some os -> exists os', t_orders d' = Some os' /\ os `prefix_of` os') /\
  (forall us, t_users d = Some us -> exists us', t_users d' = Some us' /\ us `prefix_of` us').

Lemma db_grows_refl (d : db) : db_grows d d.
Proof. split_and!; intros l Hl; exists l; split; done. Qed.

Lemma exec_query_grows (d d' : db) (q : query) rows :
  exec_query d q = inr (d', rows) -> db_grows d d'.
Proof.
  destruct q; cbn; repeat case_match; intros Hq; simplify_eq/=; split_and!; cbn;
    intros l0 Hl0; rewrite ?Hl0 in *; simplify_eq/=; eexists; (split; [reflexivity|]);
    try done; by apply prefix_app_r.
Qed.

Section Frame.
Context `{UuidSource} `{Bcrypt} `{Jwt}.

Lemma exec_grows (w w' : world) (e : effect) r :
  exec w e = inr (w', r) -> db_grows (w_db w) (w_db w').
Proof.
  destruct e; cbn; unfold run_query, sbind; repeat case_match; intros; simplify_eq/=;
    eauto using db_grows_refl, exec_query_grows.
Qed.

(** Only [QueueAdd] changes the queues. *)
Definition enqueues (e : effect) : Prop := match e with QueueAdd _ _ _ => True | _ => False end.

Lemma exec_queues (w w' : world) (e : effect) r :
  ~ enqueues e -> exec w e = inr (w', r) -> w_queues w' = w_queues w.
Proof.
  destruct e; cbn; try tauto; unfold run_query, sbind; intros _; repeat case_match; intros; by simplify_eq/=.
Qed.

(** Only [SETEX restaurants] changes the key [restaurants]. *)
Definition writes_cache (e : effect) : Prop :=
  match e with RedisSetEx k _ _ => k = cache_key | _ => False end.

Lemma exec_cache (w w' : world) (e : effect) r :
  ~ writes_cache e -> exec w e = inr (w', r) -> w_redis w' !! cache_key = w_redis w !! cache_key.
Proof.
  destruct e; cbn; try tauto; unfold run_query, sbind; intros Hk; repeat case_match; intros; simplify_eq/=;
    try done.
  unfold redis_setex. by rewrite lookup_insert_ne.
Qed.
End Frame.

(** A program all of whose effects satisfy [P]. *)
Fixpoint only {A} (P : effect -> Prop) (p : handler A) : Prop :=
  match p with
  | Ret _ => True
  | Do e k => P e /\ forall r, only P (k r)
  end.

Lemma only_weaken {A} (P Q : effect -> Prop) (p : handler A) :
  (forall e, P e -> Q e) -> only P p -> only Q p.
Proof. intros HPQ. induction p as [a|e k IH]; cbn; [done|]. intros [He Hk]. eauto. Qed.

(** Proving [only P] of a concrete handler: unfold it effect by effect. *)
Ltac solve_only :=
  repeat (cbn -[exit throw];
          first [exact I | split; [cbn; tauto|intros ?] | case_match
                | progress unfold get_restaurants_cached, json_parse_or_throw, login_check, exit, throw]).

(** ** The system *)

(** The Express apps whose routes clients may call. *)
Definition apps : list service := [restaurant_service; order_service; auth_service; payment_service].

Inductive progress (A : Type) : Type :=
| Answered (a : A)
| Failed (err : js_error)
| Continued (p : handler A).
Arguments Answered {A} a.
Arguments Failed {A} err.
Arguments Continued {A} p.

(** The auth service listens only once [initDB()] has resolved. *)
Inductive auth_state : Type :=
| Starting (p : handler unit)   (** what remains of [auth_main] *)
| Listening
| Exited.

(** A handler in flight: the name of the service running it, and what
    remains of its program. *)
Definition flight : Type := (string * handler response)%type.

Record sys := mk_sys {
  s_world : world;
  s_flight : list flight;               (** the handlers in flight *)
  s_worker : worker_state;
  s_trace : list effect;                (** the effects of the handlers, in order *)
  s_auth : auth_state;
  s_down : list string                  (** the services whose process has exited *)
}.

(** What is left of the handlers in flight after one of them ([i], of the
    service [n]) moved.  A handler that rejects is an unhandled rejection
    (Express 4 does not catch the promise of an async handler), which
    terminates the Node.js 18 process: every other handler of [n] in
    flight is lost with it. *)
Definition after (fl : list flight) (i : nat) (n : string) (pr : progress response) : list flight :=
  match pr with
  | Continued p' => <[i := (n, p')]> fl
  | Answered _ => delete i fl
  | Failed _ => filter (fun f => f.1 <> n) (delete i fl)
  end.

(** A property of every handler in flight. *)
Abbreviation flights_ok P fl := (Forall (fun f : flight => P f.2) fl).

(** The exited services after a handler of [n] moved. *)
Definition down_after (n : string) (pr : progress response) (down : list string) : list string :=
  match pr with
  | Failed _ => n :: down
  | _ => down
  end.

(** The auth service after its start-up moved: listening once [initDB]
    resolved, gone once the process exited. *)
Definition auth_after (pr : progress unit) : auth_state :=
  match pr with
  | Answered _ => Listening
  | Failed _ => Exited
  | Continued p' => Starting p'
  end.

(** At boot no request is in flight, the worker is idle, and the auth
    service is starting. *)
Definition sys_boot : sys := mk_sys boot_world [] Idle [] (Starting auth_main) [].

(** The auth service's start-up program satisfies [P] from now on. *)
Definition auth_only (P : effect -> Prop) (au : auth_state) : Prop :=
  match au with Starting p => only P p | _ => True end.

Lemma auth_after_only (P : effect -> Prop) (pr : progress unit) :
  (forall p', pr = Continued p' -> only P p') -> auth_only P (auth_after pr).
Proof. destruct pr; cbn; auto. Qed.

Section Steps.
Context `{UuidSource} `{Bcrypt} `{Jwt}.

(** One step of one program: its result, its rejection, or its next effect. *)
Definition advance {A} (w : world) (p : handler A) : world * list effect * progress A :=
  match p with
  | Ret a => (w, [], Answered a)
  | Do e k =>
      match exec w e with
      | inl err => (w, [e], Failed err)
      | inr (w', r) => (w', [e], Continued (k r))
      end
  end.

Inductive sstep : sys -> sys -> Prop :=
| sstep_start s svc (rt : route) (b : jsv) :
    svc ∈ apps -> rt ∈ svc_routes svc -> (svc = auth_service -> s_auth s = Listening) ->
    svc_name svc ∉ s_down s ->
    sstep s (mk_sys (s_world s) (s_flight s ++ [(svc_name svc, rt.2 b)]) (s_worker s) (s_trace s)
                    (s_auth s) (s_down s))
| sstep_run s i n p w' t pr :
    s_flight s !! i = Some (n, p) -> advance (s_world s) p = (w', t, pr) ->
    sstep s (mk_sys w' (after (s_flight s) i n pr) (s_worker s) (s_trace s ++ t) (s_auth s)
                    (down_after n pr (s_down s)))
| sstep_auth s p w' t pr :
    s_auth s = Starting p -> advance (s_world s) p = (w', t, pr) ->
    sstep s (mk_sys w' (s_flight s) (s_worker s) (s_trace s ++ t) (auth_after pr) (s_down s))
| sstep_worker s w' ws' :
    worker_step (s_world s, s_worker s) = Some (w', ws') ->
    sstep s (mk_sys w' (s_flight s) ws' (s_trace s) (s_auth s) (s_down s))
| sstep_tick s (dt : Z) :
    (0 <= dt)%Z ->
    sstep s (mk_sys (set_now (s_world s) (w_now (s_world s) + dt)) (s_flight s) (s_worker s)
                    (s_trace s) (s_auth s) (s_down s))
| sstep_db s (t : Z) :
    sstep s (mk_sys (set_db_ready_at (s_world s) t) (s_flight s) (s_worker s) (s_trace s) (s_auth s)
                    (s_down s)).

Lemma advance_only {A} (P : effect -> Prop) (w w' : world) (p : handler A) t pr :
  only P p -> advance w p = (w', t, pr) ->
  (w' = w \/ exists e r, P e /\ exec w e = inr (w', r)) /\ (forall p', pr = Continued p' -> only P p').
Proof.
  destruct p as [a|e k]; cbn; [intros _ [= <- _ <-]; split; [by left|discriminate]|].
  intros [He Hk]. destruct (exec w e) as [err|[w1 r]] eqn:Hx; intros [= <- _ <-].
  - split; [by left|discriminate].
  - split; [right; eauto|intros p' [= <-]; apply Hk].
Qed.
End Steps.

(** ** Every job names a placed order *)

Definition queue_jobs (q : bqueue) : list job := q_wait q ++ q_active q ++ q_completed q ++ q_failed q.
Definition order_ids (w : world) : list string := map o_id (orders_of w).

Definition job_ok (w : world) (j : job) : Prop :=
  exists id, job_data j = order_event id /\ id ∈ order_ids w.

Definition jobs_ok (w : world) : Prop :=
  forall j, j ∈ queue_jobs (queue_of w orderQueue) -> job_ok w j.

(** The stages of [POST /orders]: an order id is published only once its
    row is in the table. *)
Definition order_stage (w : world) (p : handler response) : Prop :=
  p = post_orders \/ p = (id ← perform NewUuid; post_orders_insert id) \/
  (exists id, p = post_orders_insert id) \/
  (exists id, p = post_orders_publish id /\ id ∈ order_ids w) \/
  (exists a, p = mret a).

Definition no_enqueue {A} (p : handler A) : Prop := only (fun e => ~ enqueues e) p.

Definition flight_ok (w : world) (p : handler response) : Prop := no_enqueue p \/ order_stage w p.

Definition worker_ok (w : world) (ws : worker_state) : Prop :=
  match ws with
  | Idle => True
  | Busy j p => job_ok w j /\ no_enqueue p
  end.

Definition sys_jobs_inv (s : sys) : Prop :=
  jobs_ok (s_world s) /\ flights_ok (flight_ok (s_world s)) (s_flight s) /\
  worker_ok (s_world s) (s_worker s) /\ auth_only (fun e => ~ enqueues e) (s_auth s).

Lemma order_ids_grows (w w' : world) (id : string) :
  db_grows (w_db w) (w_db w') -> id ∈ order_ids w -> id ∈ order_ids w'.
Proof.
  intros (_ & Ho & _). unfold order_ids, orders_of.
  destruct (t_orders (w_db w)) as [os|] eqn:Ht; cbn; [|by intros ?%elem_of_nil].
  destruct (Ho os eq_refl) as (os' & -> & [k ->]). cbn.
  intros Hin. rewrite map_app. apply list_elem_of_In, in_or_app. left. by apply list_elem_of_In.
Qed.

Lemma job_ok_grows (w w' : world) (j : job) :
  db_grows (w_db w) (w_db w') -> job_ok w j -> job_ok w' j.
Proof. intros Hg (id & Hd & Hin). exists id. eauto using order_ids_grows. Qed.

Lemma jobs_ok_frame (w w' : world) :
  db_grows (w_db w) (w_db w') -> w_queues w' = w_queues w -> jobs_ok w -> jobs_ok w'.
Proof.
  intros Hg Hq Hj j. unfold queue_of. rewrite Hq. intros Hin. eauto using job_ok_grows.
Qed.

Lemma flight_ok_grows (w w' : world) (p : handler response) :
  db_grows (w_db w) (w_db w') -> flight_ok w p -> flight_ok w' p.
Proof.
  intros Hg [Hq|Hs]; [by left|right].
  unfold order_stage. destruct Hs as [?|[?|[?|[(id & -> & Hin)|?]]]]; [tauto|tauto|tauto| |tauto].
  do 3 right. left. eauto using order_ids_grows.
Qed.

Lemma worker_ok_grows (w w' : world) (ws : worker_state) :
  db_grows (w_db w) (w_db w') -> worker_ok w ws -> worker_ok w' ws.
Proof. destruct ws; cbn; [done|]. intros Hg [Hj Hp]. eauto using job_ok_grows. Qed.

Lemma get_restaurants_no_enqueue : no_enqueue get_restaurants.
Proof. unfold no_enqueue. solve_only. Qed.

Lemma post_restaurants_no_enqueue (b : jsv) : no_enqueue (post_restaurants b).
Proof. unfold no_enqueue. solve_only. Qed.

Lemma post_register_no_enqueue (b : jsv) : no_enqueue (post_register b).
Proof. unfold no_enqueue. solve_only. Qed.

Lemma post_login_no_enqueue (b : jsv) : no_enqueue (post_login b).
Proof. unfold no_enqueue. solve_only. Qed.

Lemma post_payments_no_enqueue (b : jsv) : no_enqueue (post_payments b).
Proof. exact I. Qed.

Section JobsInv.
Context `{UuidSource} `{Bcrypt} `{Jwt}.

(** Every route of every app starts in a good stage. *)
Lemma start_flight_ok (w : world) (svc : service) (rt : route) (b : jsv) :
  svc ∈ apps -> rt ∈ svc_routes svc -> flight_ok w (rt.2 b).
Proof.
  unfold apps. intros Hs Hr.
  repeat (apply elem_of_cons in Hs as [->|Hs]); [..|by apply elem_of_nil in Hs]; cbn in Hr;
    repeat (apply elem_of_cons in Hr as [->|Hr]); try (by apply elem_of_nil in Hr); cbn.
  - left. apply post_restaurants_no_enqueue.
  - left. apply get_restaurants_no_enqueue.
  - right. by left.
  - left. apply post_register_no_enqueue.
  - left. apply post_login_no_enqueue.
  - left. apply post_payments_no_enqueue.
Qed.

Lemma inv_frame (w w' : world) (fl : list flight) (ws : worker_state) :
  db_grows (w_db w) (w_db w') -> w_queues w' = w_queues w ->
  jobs_ok w -> flights_ok (flight_ok w) fl -> worker_ok w ws ->
  jobs_ok w' /\ flights_ok (flight_ok w') fl /\ worker_ok w' ws.
Proof.
  intros Hg Hq Hj Hf Hw. split_and!; eauto using jobs_ok_frame, worker_ok_grows.
  eapply Forall_impl; [exact Hf|]. eauto using flight_ok_grows.
Qed.

Lemma Forall_sublist_of {A} (P : A -> Prop) (l1 l2 : list A) :
  l1 `sublist_of` l2 -> Forall P l2 -> Forall P l1.
Proof. rewrite !Forall_forall. eauto using elem_of_sublist. Qed.

(** A property of the handlers in flight survives one of them moving:
    those that remain are untouched, or the one that moved, continued. *)
Lemma after_ok (Q : flight -> Prop) (fl : list flight) (i : nat) (n : string) pr :
  Forall Q fl -> (forall p', pr = Continued p' -> Q (n, p')) -> Forall Q (after fl i n pr).
Proof.
  intros Hf Hp. destruct pr as [a|err|p']; cbn; [by apply Forall_delete| |].
  - eapply Forall_sublist_of; [apply sublist_filter|by apply Forall_delete].
  - apply Forall_insert; [done|]. by apply Hp.
Qed.

(** Publishing the event of a placed order keeps every job good. *)
Lemma jobs_ok_publish (w : world) (id : string) :
  jobs_ok w -> id ∈ order_ids w ->
  jobs_ok (set_queues w (<[orderQueue := (queue_add (queue_of w orderQueue) order_created
                                                      (order_event id)).1]> (w_queues w))).
Proof.
  intros Hj Hid j. unfold queue_of at 1. cbn [w_queues set_queues]. rewrite lookup_insert_eq. cbn.
  unfold queue_jobs. cbn. rewrite <- app_assoc. cbn.
  intros [Hin|[->|Hin]%elem_of_cons]%elem_of_app; [| by exists id |];
    apply Hj; unfold queue_jobs; rewrite !elem_of_app; rewrite ?elem_of_app in Hin; tauto.
Qed.

(** After the insert, the order's id is in the table. *)
Lemma exec_insert_order (w w' : world) (id : string) r :
  exec w (Query (InsertOrder id (Some (JStr placed)))) = inr (w', r) -> id ∈ order_ids w'.
Proof.
  cbn. unfold run_query, sbind. destruct (db_up w); [|done]. cbn.
  destruct (t_orders (w_db w)) as [os|]; [|done]. cbn. intros [= <- _].
  unfold order_ids, orders_of. cbn. rewrite map_app. apply list_elem_of_In, in_or_app. by right; left.
Qed.

(** One effect that does not enqueue, of a handler whose rest is good. *)
Lemma advance_frame (w w' : world) (fl : list flight) (ws : worker_state) (i : nat) (n : string)
    (e : effect) (k : reply e -> handler response) t pr :
  jobs_ok w -> flights_ok (flight_ok w) fl -> worker_ok w ws -> ~ enqueues e ->
  (forall w1 r, exec w e = inr (w1, r) -> flight_ok w1 (k r)) ->
  advance w (Do e k) = (w', t, pr) ->
  jobs_ok w' /\ flights_ok (flight_ok w') (after fl i n pr) /\ worker_ok w' ws.
Proof.
  intros Hj Hf Hw He Hk Ha. cbn in Ha.
  destruct (exec w e) as [err|[w1 r]] eqn:Hx; injection Ha as <- _ <-.
  - split_and!; [done|apply after_ok; [done|discriminate]|done].
  - destruct (inv_frame w w1 fl ws (exec_grows _ _ _ _ Hx) (exec_queues _ _ _ _ He Hx) Hj Hf Hw)
      as (Hj1 & Hf1 & Hw1).
    split_and!; [done|apply after_ok; [done|intros p' [= <-]; eauto]|done].
Qed.

Lemma advance_jobs_inv (w w' : world) (fl : list flight) (ws : worker_state) (i : nat) (n : string)
    (p : handler response) t pr :
  jobs_ok w -> flights_ok (flight_ok w) fl -> worker_ok w ws ->
  fl !! i = Some (n, p) -> advance w p = (w', t, pr) ->
  jobs_ok w' /\ flights_ok (flight_ok w') (after fl i n pr) /\ worker_ok w' ws.
Proof.
  intros Hj Hf Hw Hi Ha.
  pose proof (Forall_lookup_1 _ _ _ _ Hf Hi) as Hfi; cbn in Hfi; destruct Hfi as [Hq|Hst].
  - destruct p as [a|e k].
    + cbn in Ha. injection Ha as <- _ <-. split_and!; [done|apply after_ok; [done|discriminate]|done].
    + destruct Hq as [He Hk]. eapply advance_frame; eauto. intros w1 r _. left. apply Hk.
  - destruct Hst as [->|[->|[(id & ->)|[(id & -> & Hid)|(a & ->)]]]].
    + eapply advance_frame; eauto; [cbn; tauto|]. intros w1 r _. right. right. by left.
    + eapply advance_frame; eauto; [cbn; tauto|]. intros w1 r _. right. do 2 right. left. by eexists.
    + eapply advance_frame; eauto; [cbn; tauto|]. intros w1 r Hx. right. do 3 right. left.
      exists id. split; [done|]. by apply (exec_insert_order w w1 id r).
    + cbn in Ha. injection Ha as <- _ <-.
      assert (Hg : db_grows (w_db w) (w_db (set_queues w (<[orderQueue :=
                    (queue_add (queue_of w orderQueue) order_created (order_event id)).1]> (w_queues w)))))
        by apply db_grows_refl.
      split_and!.
      * by apply jobs_ok_publish.
      * apply after_ok; [|intros p' [= <-]; right; do 4 right; by eexists].
        eapply Forall_impl; [exact Hf|]. eauto using flight_ok_grows.
      * eauto using worker_ok_grows.
    + cbn in Ha. injection Ha as <- _ <-. split_and!; [done|apply after_ok; [done|discriminate]|done].
Qed.

(** Replacing the queue by one whose jobs are old jobs or good ones. *)
Lemma jobs_ok_replace (w : world) (q' : bqueue) :
  jobs_ok w ->
  (forall x, x ∈ queue_jobs q' -> x ∈ queue_jobs (queue_of w orderQueue) \/ job_ok w x) ->
  jobs_ok (set_queues w (<[orderQueue := q']> (w_queues w))).
Proof.
  intros Hj Hsub x. unfold queue_of at 1. cbn [w_queues set_queues]. rewrite lookup_insert_eq.
  cbn [default]. intros Hx. destruct (Hsub x Hx) as [Hin|Hok]; [|exact Hok].
  exact (Hj x Hin).
Qed.

Lemma worker_jobs_inv (w w' : world) (fl : list flight) (ws ws' : worker_state) :
  jobs_ok w -> flights_ok (flight_ok w) fl -> worker_ok w ws ->
  worker_step (w, ws) = Some (w', ws') ->
  jobs_ok w' /\ flights_ok (flight_ok w') fl /\ worker_ok w' ws'.
Proof.
  intros Hj Hf Hw Hs. destruct ws as [|j p]; cbn in Hs.
  - unfold fetch in Hs. destruct (queue_take (queue_of w worker_queue)) as [[q' j]|] eqn:Ht;
      [|discriminate]. cbn in Hs. injection Hs as <- <-.
    unfold queue_take in Ht. destruct (q_wait (queue_of w worker_queue)) as [|j0 rest] eqn:Hwait;
      [discriminate|]. injection Ht as <- <-.
    assert (Hin0 : j0 ∈ queue_jobs (queue_of w orderQueue))
      by (unfold queue_jobs; change orderQueue with worker_queue; rewrite Hwait; left).
    split_and!.
    + apply jobs_ok_replace; [done|]. intros x. unfold queue_jobs. cbn.
      change orderQueue with worker_queue. rewrite Hwait. rewrite !elem_of_app, !elem_of_cons.
      intros [Hx|[[Hx|Hx%elem_of_cons]|Hx]]; [tauto|tauto| |tauto].
      apply list_elem_of_singleton in Hx as ->. tauto.
    + eapply Forall_impl; [exact Hf|]. intros p Hp. eapply flight_ok_grows; [|exact Hp]. apply db_grows_refl.
    + split; [exact (Hj j0 Hin0)|]. split; [cbn; tauto|done].
  - destruct Hw as [Hjob Hq]. destruct p as [a|e k].
    + injection Hs as <- <-. unfold finish. split_and!; [|eapply Forall_impl; [exact Hf|];
        intros ?; apply flight_ok_grows, db_grows_refl|done].
      apply jobs_ok_replace; [done|]. intros x. unfold queue_jobs. cbn.
      rewrite !elem_of_app, list_elem_of_filter, list_elem_of_singleton.
      change worker_queue with orderQueue. intros [?|[[_ ?]|[[?| ->]|?]]]; tauto.
    + destruct Hq as [He Hk]. destruct (exec w e) as [err|[w1 r]] eqn:Hx.
      * injection Hs as <- <-. unfold finish. split_and!; [|eapply Forall_impl; [exact Hf|];
          intros ?; apply flight_ok_grows, db_grows_refl|done].
        apply jobs_ok_replace; [done|]. intros x. unfold queue_jobs. cbn.
        rewrite !elem_of_app, list_elem_of_filter, list_elem_of_singleton.
        change worker_queue with orderQueue. intros Hx'. destruct Hx' as [?|[[_ ?]|[?|[?| ->]]]]; tauto.
      * injection Hs as <- <-.
        destruct (inv_frame w w1 fl (Busy j (Do e k)) (exec_grows _ _ _ _ Hx) (exec_queues _ _ _ _ He Hx)
                    Hj Hf (conj Hjob (conj He Hk))) as (Hj1 & Hf1 & [Hjob1 _]).
        split_and!; [done|done|]. split; [done|apply Hk].
Qed.

Lemma auth_main_no_enqueue : no_enqueue auth_main.
Proof. unfold no_enqueue. solve_only. Qed.

Lemma sstep_jobs_inv (s s' : sys) : sys_jobs_inv s -> sstep s s' -> sys_jobs_inv s'.
Proof.
  intros Hinv Hs.
  destruct Hs as [s svc rt b Hsvc Hrt _ _|s i n p w' t pr Hi Ha|s p w' t pr Hp Ha|s w' ws' Hw|s dt _|s t].
  - destruct Hinv as (Hj & Hf & Hw & Hau). split_and!; cbn; [done| |done|done].
    apply Forall_app_2; [done|]. constructor; [by eapply start_flight_ok|constructor].
  - destruct Hinv as (Hj & Hf & Hw & Hau).
    destruct (advance_jobs_inv _ _ _ _ _ _ _ _ _ Hj Hf Hw Hi Ha) as (? & ? & ?). by split_and!.
  - destruct Hinv as (Hj & Hf & Hw & Hau). cbn in *. rewrite Hp in Hau.
    destruct (advance_only _ _ _ _ _ _ Hau Ha) as [[->|(e & r & He & Hx)] Hk].
    + split_and!; [done..|]. by apply auth_after_only.
    + destruct (inv_frame _ _ _ _ (exec_grows _ _ _ _ Hx) (exec_queues _ _ _ _ He Hx) Hj Hf Hw)
        as (? & ? & ?).
      split_and!; [done..|]. by apply auth_after_only.
  - destruct Hinv as (Hj & Hf & Hw' & Hau).
    destruct (worker_jobs_inv _ _ _ _ _ Hj Hf Hw' Hw) as (? & ? & ?). by split_and!.
  - destruct Hinv as (Hj & Hf & Hw & Hau).
    destruct (inv_frame (s_world s) (set_now (s_world s) (w_now (s_world s) + dt)) (s_flight s) (s_worker s))
      as (? & ? & ?); [apply db_grows_refl|done..|]. by split_and!.
  - destruct Hinv as (Hj & Hf & Hw & Hau).
    destruct (inv_frame (s_world s) (set_db_ready_at (s_world s) t) (s_flight s) (s_worker s))
      as (? & ? & ?); [apply db_grows_refl|done..|]. by split_and!.
Qed.

Lemma rtc_jobs_inv (s s' : sys) : rtc sstep s s' -> sys_jobs_inv s -> sys_jobs_inv s'.
Proof. induction 1; eauto using sstep_jobs_inv. Qed.

Lemma sys_jobs_inv_boot : sys_jobs_inv sys_boot.
Proof.
  split_and!; [|constructor|done|apply auth_main_no_enqueue].
  intros j Hj. cbn in Hj. by apply elem_of_nil in Hj.
Qed.
End JobsInv.

Section Properties.
Context `{UuidSource} `{Bcrypt} `{Jwt}.

(** C6: Jobs name placed orders, in every interleaving.  In every state
    the system reaches from boot, whatever requests were started on the
    four services and however their effects, the worker and the clock
    interleaved, every job of [order-events] (waiting, active, completed
    or failed) carries [{ orderId: id }] for an order [id] that is in the
    orders table: [POST /orders] inserts before it publishes, and rows are
    never removed. *)
Theorem jobs_name_orders (s : sys) (j : job) :
  rtc sstep sys_boot s -> j ∈ queue_jobs (queue_of (s_world s) orderQueue) ->
  exists id, job_data j = order_event id /\ id ∈ map o_id (orders_of (s_world s)).
Proof.
  intros Hr Hj. exact (proj1 (rtc_jobs_inv _ _ Hr sys_jobs_inv_boot) j Hj).
Qed.
End Properties.

(** ** The cache holds a prefix of the table *)

Definition no_cache_write {A} (p : handler A) : Prop := only (fun e => ~ writes_cache e) p.

(** The stages of [GET /restaurants]: the rows it will cache were read
    from the table, so they are an earlier state of it. *)
Definition get_stage (w : world) (p : handler response) : Prop :=
  p = get_restaurants \/ (exists c, p = get_restaurants_cached c) \/ p = get_restaurants_miss \/
  (exists rs rs', t_restaurants (w_db w) = Some rs /\ rs' `prefix_of` rs /\
                  p = get_restaurants_fill (rows_of rs')) \/
  (exists a, p = mret a).

Definition cache_flight_ok (w : world) (p : handler response) : Prop :=
  no_cache_write p \/ get_stage w p.

Definition cache_worker_ok (ws : worker_state) : Prop :=
  match ws with Idle => True | Busy _ p => no_cache_write p end.

Definition sys_cache_inv (s : sys) : Prop :=
  cache_coherent (s_world s) /\ flights_ok (cache_flight_ok (s_world s)) (s_flight s) /\
  cache_worker_ok (s_worker s) /\ auth_only (fun e => ~ writes_cache e) (s_auth s).

Lemma prefix_grows (rs rs' : list restaurant_row) (w w' : world) :
  db_grows (w_db w) (w_db w') -> t_restaurants (w_db w) = Some rs -> rs' `prefix_of` rs ->
  exists rs2, t_restaurants (w_db w') = Some rs2 /\ rs' `prefix_of` rs2.
Proof.
  intros (Hr & _ & _) Ht Hp. destruct (Hr rs Ht) as (rs2 & Ht2 & Hp2).
  exists rs2. split; [done|]. by trans rs.
Qed.

Lemma coherent_frame (w w' : world) :
  db_grows (w_db w) (w_db w') -> w_redis w' !! cache_key = w_redis w !! cache_key ->
  cache_coherent w -> cache_coherent w'.
Proof.
  intros Hg Hk Hc e He. rewrite Hk in He. destruct (Hc e He) as (rs & rs' & Ht & Hp & Hv).
  destruct (prefix_grows rs rs' w w' Hg Ht Hp) as (rs2 & Ht2 & Hp2). eauto.
Qed.

Lemma cache_flight_ok_grows (w w' : world) (p : handler response) :
  db_grows (w_db w) (w_db w') -> cache_flight_ok w p -> cache_flight_ok w' p.
Proof.
  intros Hg [Hq|Hs]; [by left|right]. unfold get_stage in *.
  destruct Hs as [?|[?|[?|[(rs & rs' & Ht & Hp & ->)|?]]]]; [tauto|tauto|tauto| |tauto].
  do 3 right. left. destruct (prefix_grows rs rs' w w' Hg Ht Hp) as (rs2 & ? & ?). eauto.
Qed.

Lemma post_restaurants_no_cache_write (b : jsv) : no_cache_write (post_restaurants b).
Proof. unfold no_cache_write. solve_only. Qed.

Lemma post_orders_no_cache_write : no_cache_write post_orders.
Proof. unfold no_cache_write. solve_only. Qed.

Lemma post_register_no_cache_write (b : jsv) : no_cache_write (post_register b).
Proof. unfold no_cache_write. solve_only. Qed.

Lemma post_login_no_cache_write (b : jsv) : no_cache_write (post_login b).
Proof. unfold no_cache_write. solve_only. Qed.

(** A cache hit never writes the cache; otherwise the lookup misses. *)
Lemma cached_cases (c : option string) :
  get_restaurants_cached c = get_restaurants_miss \/ no_cache_write (get_restaurants_cached c).
Proof.
  destruct c as [s|]; [|by left]. cbn -[get_restaurants_miss].
  destruct (negb (s =? "")%string); [right|by left].
  unfold json_parse_or_throw. destruct (json_parse s) as [[]|]; cbn; tauto.
Qed.

Section CacheInv.
Context `{UuidSource} `{Bcrypt} `{Jwt}.

Lemma start_cache_ok (w : world) (svc : service) (rt : route) (b : jsv) :
  svc ∈ apps -> rt ∈ svc_routes svc -> cache_flight_ok w (rt.2 b).
Proof.
  unfold apps. intros Hs Hr.
  repeat (apply elem_of_cons in Hs as [->|Hs]); [..|by apply elem_of_nil in Hs]; cbn in Hr;
    repeat (apply elem_of_cons in Hr as [->|Hr]); try (by apply elem_of_nil in Hr); cbn.
  - left. apply post_restaurants_no_cache_write.
  - right. by left.
  - left. apply post_orders_no_cache_write.
  - left. apply post_register_no_cache_write.
  - left. apply post_login_no_cache_write.
  - left. exact I.
Qed.

Lemma cache_inv_frame (w w' : world) (fl : list flight) :
  db_grows (w_db w) (w_db w') -> w_redis w' !! cache_key = w_redis w !! cache_key ->
  cache_coherent w -> flights_ok (cache_flight_ok w) fl ->
  cache_coherent w' /\ flights_ok (cache_flight_ok w') fl.
Proof.
  intros Hg Hk Hc Hf. split; [eauto using coherent_frame|].
  eapply Forall_impl; [exact Hf|]. eauto using cache_flight_ok_grows.
Qed.

(** One effect that does not write the cache, of a handler whose rest is good. *)
Lemma advance_cache_frame (w w' : world) (fl : list flight) (i : nat) (n : string)
    (e : effect) (k : reply e -> handler response) t pr :
  cache_coherent w -> flights_ok (cache_flight_ok w) fl -> ~ writes_cache e ->
  (forall w1 r, exec w e = inr (w1, r) -> cache_flight_ok w1 (k r)) ->
  advance w (Do e k) = (w', t, pr) ->
  cache_coherent w' /\ flights_ok (cache_flight_ok w') (after fl i n pr).
Proof.
  intros Hc Hf He Hk Ha. cbn in Ha.
  destruct (exec w e) as [err|[w1 r]] eqn:Hx; injection Ha as <- _ <-.
  - split; [done|apply after_ok; [done|discriminate]].
  - destruct (cache_inv_frame w w1 fl (exec_grows _ _ _ _ Hx) (exec_cache _ _ _ _ He Hx) Hc Hf)
      as [Hc1 Hf1].
    split; [done|apply after_ok; [done|intros p' [= <-]; eauto]].
Qed.

(** The read: the rows the miss will cache are the table itself. *)
Lemma exec_select (w w1 : world) r :
  exec w (Query SelectRestaurants) = inr (w1, r) ->
  w1 = w /\ exists rs, t_restaurants (w_db w) = Some rs /\ r = rows_of rs.
Proof.
  cbn. unfold run_query, sbind. destruct (db_up w); [|done]. cbn.
  destruct (t_restaurants (w_db w)) as [rs|] eqn:Ht; [|done]. cbn. intros [= <- <-].
  split; [apply set_db_same|]. by exists rs.
Qed.

Lemma advance_cache_inv (w w' : world) (fl : list flight) (i : nat) (n : string)
    (p : handler response) t pr :
  cache_coherent w -> flights_ok (cache_flight_ok w) fl ->
  fl !! i = Some (n, p) -> advance w p = (w', t, pr) ->
  cache_coherent w' /\ flights_ok (cache_flight_ok w') (after fl i n pr).
Proof.
  intros Hc Hf Hi Ha.
  assert (Hquiet : no_cache_write p -> cache_coherent w' /\ flights_ok (cache_flight_ok w') (after fl i n pr)).
  { intros Hq. destruct p as [a|e k].
    - cbn in Ha. injection Ha as <- _ <-. split; [done|apply after_ok; [done|discriminate]].
    - destruct Hq as [He Hk]. eapply advance_cache_frame; eauto. intros w1 r _. left. apply Hk. }
  pose proof (Forall_lookup_1 _ _ _ _ Hf Hi) as Hfi; cbn in Hfi; destruct Hfi as [Hq|Hst]; [by apply Hquiet|].
  destruct Hst as [->|[(c & ->)|[->|[(rs & rs' & Ht & Hp & ->)|(a & ->)]]]].
  - eapply advance_cache_frame; eauto; [cbn; tauto|].
    intros w1 c _. right. right. left. by exists c.
  - destruct (cached_cases c) as [Hm|Hq]; [|by apply Hquiet]. rewrite Hm in Ha.
    eapply advance_cache_frame; eauto; [cbn; tauto|].
    intros w1 r Hx. destruct (exec_select w w1 r Hx) as [-> (rs & Ht & ->)].
    right. do 3 right. left. by exists rs, rs.
  - eapply advance_cache_frame; eauto; [cbn; tauto|].
    intros w1 r Hx. destruct (exec_select w w1 r Hx) as [-> (rs & Ht & ->)].
    right. do 3 right. left. by exists rs, rs.
  - cbn in Ha. injection Ha as <- _ <-.
    assert (Hg : db_grows (w_db w) (w_db (set_redis w (redis_setex (w_redis w) (w_now w) cache_key cache_ttl
                   (stringify (JArr (rows_of rs'))))))) by apply db_grows_refl.
    split.
    + intros e. cbn. unfold redis_setex. rewrite lookup_insert_eq. intros [= <-]. eauto.
    + apply after_ok; [|intros p' [= <-]; right; do 4 right; by eexists].
      eapply Forall_impl; [exact Hf|]. eauto using cache_flight_ok_grows.
  - cbn in Ha. injection Ha as <- _ <-. split; [done|apply after_ok; [done|discriminate]].
Qed.

Lemma worker_cache_inv (w w' : world) (fl : list flight) (ws ws' : worker_state) :
  cache_coherent w -> flights_ok (cache_flight_ok w) fl -> cache_worker_ok ws ->
  worker_step (w, ws) = Some (w', ws') ->
  cache_coherent w' /\ flights_ok (cache_flight_ok w') fl /\ cache_worker_ok ws'.
Proof.
  intros Hc Hf Hw Hs.
  assert (Hqueues : forall qs, cache_coherent (set_queues w qs) /\
                               flights_ok (cache_flight_ok (set_queues w qs)) fl)
    by (intros qs; by apply (cache_inv_frame w); [apply db_grows_refl|..]).
  destruct ws as [|j p]; cbn in Hs.
  - unfold fetch in Hs. destruct (queue_take _) as [[q' j]|]; [|discriminate].
    cbn in Hs. injection Hs as <- <-. destruct (Hqueues (<[worker_queue:=q']> (w_queues w))).
    split_and!; [done|done|]. cbn. split; [tauto|done].
  - destruct p as [a|e k].
    + injection Hs as <- <-. unfold finish. split_and!; [apply Hqueues..|done].
    + destruct Hw as [He Hk]. destruct (exec w e) as [err|[w1 r]] eqn:Hx.
      * injection Hs as <- <-. unfold finish. split_and!; [apply Hqueues..|done].
      * injection Hs as <- <-.
        destruct (cache_inv_frame w w1 fl (exec_grows _ _ _ _ Hx) (exec_cache _ _ _ _ He Hx) Hc Hf).
        split_and!; [done|done|apply Hk].
Qed.

Lemma auth_main_no_cache_write : no_cache_write auth_main.
Proof. unfold no_cache_write. solve_only. Qed.

Lemma sstep_cache_inv (s s' : sys) : sys_cache_inv s -> sstep s s' -> sys_cache_inv s'.
Proof.
  intros Hinv Hs.
  destruct Hs as [s svc rt b Hsvc Hrt _ _|s i n p w' t pr Hi Ha|s p w' t pr Hp Ha|s w' ws' Hw|s dt _|s t].
  - destruct Hinv as (Hc & Hf & Hw & Hau). split_and!; cbn; [done| |done|done].
    apply Forall_app_2; [done|]. constructor; [by eapply start_cache_ok|constructor].
  - destruct Hinv as (Hc & Hf & Hw & Hau).
    destruct (advance_cache_inv _ _ _ _ _ _ _ _ Hc Hf Hi Ha). by split_and!.
  - destruct Hinv as (Hc & Hf & Hw & Hau). cbn in *. rewrite Hp in Hau.
    destruct (advance_only _ _ _ _ _ _ Hau Ha) as [[->|(e & r & He & Hx)] Hk].
    + split_and!; [done..|]. by apply auth_after_only.
    + destruct (cache_inv_frame _ _ _ (exec_grows _ _ _ _ Hx) (exec_cache _ _ _ _ He Hx) Hc Hf).
      split_and!; [done..|]. by apply auth_after_only.
  - destruct Hinv as (Hc & Hf & Hw' & Hau).
    destruct (worker_cache_inv _ _ _ _ _ Hc Hf Hw' Hw) as (? & ? & ?). by split_and!.
  - destruct Hinv as (Hc & Hf & Hw & Hau).
    destruct (cache_inv_frame (s_world s) (set_now (s_world s) (w_now (s_world s) + dt)) (s_flight s))
      as [Hc' Hf']; [apply db_grows_refl|done..|]. by split_and!.
  - destruct Hinv as (Hc & Hf & Hw & Hau).
    destruct (cache_inv_frame (s_world s) (set_db_ready_at (s_world s) t) (s_flight s))
      as [Hc' Hf']; [apply db_grows_refl|done..|]. by split_and!.
Qed.

Lemma rtc_cache_inv (s s' : sys) : rtc sstep s s' -> sys_cache_inv s -> sys_cache_inv s'.
Proof. induction 1; eauto using sstep_cache_inv. Qed.

Lemma sys_cache_inv_boot : sys_cache_inv sys_boot.
Proof. split_and!; [apply coherent_boot|constructor|done|apply auth_main_no_cache_write]. Qed.
End CacheInv.

Section CacheProperties.
Context `{UuidSource} `{Bcrypt} `{Jwt}.

(** C8: The cache is coherent in every interleaving.  In every state
    the system reaches from boot, with any requests in flight on the four
    services interleaved with each other, the worker and the clock, the
    value under [restaurants] is the JSON text of a prefix of the
    restaurants table: a [GET] caches rows it read, and rows are only
    appended after they are read. *)
Theorem cache_coherent_interleaved (s : sys) :
  rtc sstep sys_boot s -> cache_coherent (s_world s).
Proof. intros Hr. exact (proj1 (rtc_cache_inv _ _ Hr sys_cache_inv_boot)). Qed.
End CacheProperties.

(** ** Runs of the system *)

Section Runs.
Context `{UuidSource} `{Bcrypt} `{Jwt}.

(** Advance the [i]-th handler in flight by one effect. *)
Definition run_at (i : nat) (s : sys) : sys :=
  match s_flight s !! i with
  | Some (n, p) =>
      let '(w', t, pr) := advance (s_world s) p in
      mk_sys w' (after (s_flight s) i n pr) (s_worker s) (s_trace s ++ t) (s_auth s)
             (down_after n pr (s_down s))
  | None => s
  end.

Lemma run_at_step (i : nat) (s : sys) (n : string) (p : handler response) :
  s_flight s !! i = Some (n, p) -> sstep s (run_at i s).
Proof.
  intros Hi. unfold run_at. rewrite Hi.
  destruct (advance (s_world s) p) as [[w' t] pr] eqn:Ha. by eapply sstep_run.
Qed.

(** Advance the auth service's start-up by one effect. *)
Definition run_auth (s : sys) : sys :=
  match s_auth s with
  | Starting p =>
      let '(w', t, pr) := advance (s_world s) p in
      mk_sys w' (s_flight s) (s_worker s) (s_trace s ++ t) (auth_after pr) (s_down s)
  | _ => s
  end.

Lemma run_auth_step (s : sys) (p : handler unit) : s_auth s = Starting p -> sstep s (run_auth s).
Proof.
  intros Hp. unfold run_auth. rewrite Hp.
  destruct (advance (s_world s) p) as [[w' t] pr] eqn:Ha. by eapply sstep_auth.
Qed.

Lemma not_down (s : sys) (n : string) : s_down s = [] -> n ∉ s_down s.
Proof. intros ->. apply not_elem_of_nil. Qed.

(** Start the request [rt] of [svc] with body [b]. *)
Definition start (svc : service) (rt : route) (b : jsv) (s : sys) : sys :=
  mk_sys (s_world s) (s_flight s ++ [(svc_name svc, rt.2 b)]) (s_worker s) (s_trace s) (s_auth s)
         (s_down s).
End Runs.

Definition orders_route : route := ("post", "/orders", fun _ => post_orders)%string.
Definition get_route : route := ("get", "/restaurants", fun _ => get_restaurants)%string.
Definition post_route : route := ("post", "/restaurants", post_restaurants)%string.

(** One order placed on a fresh system: its four effects. *)
Definition one_order : sys :=
  run_at 0 (run_at 0 (run_at 0 (run_at 0 (start order_service orders_route None sys_boot)))).

Lemma one_order_reach : rtc sstep sys_boot one_order.
Proof.
  eapply rtc_l.
  { apply (sstep_start sys_boot order_service orders_route None).
    - apply list_elem_of_further, list_elem_of_here.
    - apply list_elem_of_here.
    - by intros [=].
    - by apply not_down. }
  do 4 (eapply rtc_r; [|eapply run_at_step; reflexivity]). apply rtc_refl.
Qed.

Lemma jobs_name_orders_witness :
  mk_job 1 order_created (order_event (uuid_of 0)) ∈ queue_jobs (queue_of (s_world one_order) orderQueue) /\
  exists id, job_data (mk_job 1 order_created (order_event (uuid_of 0))) = order_event id /\
    id ∈ map o_id (orders_of (s_world one_order)).
Proof.
  assert (Hin : mk_job 1 order_created (order_event (uuid_of 0)) ∈
                  queue_jobs (queue_of (s_world one_order) orderQueue))
    by (vm_compute; apply list_elem_of_here).
  split; [exact Hin|]. exact (jobs_name_orders one_order _ one_order_reach Hin).
Defined.

Definition is_select (e : effect) : bool :=
  match e with Query SelectRestaurants => true | _ => false end.

(** "Pizza Palace" is added; then two [GET /restaurants] arrive on the
    cold cache and interleave: both read the cache, then both query. *)
Definition two_cold_gets : sys :=
  run_at 1 (run_at 0 (run_at 1 (run_at 0
    (start restaurant_service get_route None (start restaurant_service get_route None
      (run_at 0 (run_at 0 (run_at 0 (run_at 0 (start restaurant_service post_route pizza sys_boot)))))))))).

Lemma two_cold_gets_reach : rtc sstep sys_boot two_cold_gets.
Proof.
  eapply rtc_l.
  { apply (sstep_start sys_boot restaurant_service post_route pizza);
      [apply list_elem_of_here|apply list_elem_of_here|by intros [=]|by apply not_down]. }
  do 4 (eapply rtc_r; [|eapply run_at_step; reflexivity]).
  do 2 (eapply rtc_r; [|apply (sstep_start _ restaurant_service get_route None);
                        [apply list_elem_of_here|apply list_elem_of_further, list_elem_of_here
                        |by intros [=]|apply not_down; reflexivity]]).
  do 4 (eapply rtc_r; [|eapply run_at_step; reflexivity]).
  apply rtc_refl.
Qed.

(** C9: No single-flight.  Two concurrent [GET /restaurants] on a cold
    cache both run the loader: there is a run of the system in which both
    requests are in flight after each has queried the table, so the table
    is queried twice and both will write the cache, where the
    specification (4.5, 8) requires the loader to run exactly once. *)
Theorem no_single_flight :
  exists s rows, rtc sstep sys_boot s /\
    s_flight s = [("RESTAURANT-SERVICE", get_restaurants_fill rows);
                  ("RESTAURANT-SERVICE", get_restaurants_fill rows)]%string /\
    List.length (List.filter is_select (s_trace s)) = 2%nat.
Proof.
  exists two_cold_gets, [restaurant_json (mk_restaurant (uuid_of 0) (Some "Pizza Palace"))].
  split; [exact two_cold_gets_reach|]. split; reflexivity.
Qed.

Lemma cache_coherent_interleaved_witness : cache_coherent (s_world (run_at 0 two_cold_gets)).
Proof.
  apply cache_coherent_interleaved. eapply rtc_r; [exact two_cold_gets_reach|].
  eapply run_at_step. reflexivity.
Defined.

Definition register_route : route := ("post", "/auth/register", post_register)%string.

(** The auth service starts on a database that is up, then a user
    registers. *)
Definition one_user : sys :=
  run_at 0 (run_at 0 (run_at 0 (run_at 0 (start auth_service register_route register_body
    (run_auth (run_auth (run_auth (run_auth (run_auth sys_boot))))))))).


End System.
