(* ===== verification/Staleness.v ===== *)
(** * How old a cached read can be

    The specification (3, 4.5) serves a cache entry only while
    [now < insertion + TTL].  What a client cares about is the age of the
    data: how long ago a row may have been inserted and still be missing
    from an answer.  This file proves the bound the restaurant service
    gives when its handlers run one at a time ([RestaurantService.rstep]):
    every row a [GET /restaurants] answer lacks was inserted at most 60 s
    before the read.

    The proof carries, next to the world, the history of the insertion
    times of the table's rows ([tstep], a ghost copy of [rstep]: every run
    of [rstep] has exactly one such history, [rstep_tstep]).  The
    invariant relates the cache entry to the history: the entry holds a
    prefix of the table read when it was stored, and every row after that
    prefix was inserted no earlier than that.

    With handlers interleaved the bound does not hold: see
    [stale_beyond_ttl] below. *)

From S2P Require Import Prelude Json Backend Restaurant Services System.
From stdpp Require Import base strings list gmap relations.
From Stdlib Require Import String ZArith Lia.

Module Staleness.
Import RestaurantService Services System.

(** The rows of the table, none before it exists. *)
Definition table_rows (w : world) : list restaurant_row := default [] (t_restaurants (w_db w)).

(** The insertion times of the new rows: a step that appends rows to the
    table stamps them with the current time. *)
Definition stamp (w w' : world) (ts : list Z) : list Z :=
  ts ++ replicate (List.length (table_rows w') - List.length (table_rows w)) (w_now w).

Section Timed.
Context `{UuidSource} `{Bcrypt} `{Jwt}.

(** [rstep] with the history of insertion times. *)
Inductive tstep : world * list Z -> world * list Z -> Prop :=
| tstep_rstep (w w' : world) (ts : list Z) : rstep w w' -> tstep (w, ts) (w', stamp w w' ts).

Lemma tstep_intro (w w' : world) (ts ts' : list Z) :
  rstep w w' -> ts' = stamp w w' ts -> tstep (w, ts) (w', ts').
Proof. intros Hs ->. by constructor. Qed.

(** The history is a ghost: every run of the service has one. *)
Lemma rtc_rstep_tstep (w w' : world) (ts : list Z) :
  rtc rstep w w' -> exists ts', rtc tstep (w, ts) (w', ts').
Proof.
  intros Hr. revert ts. induction Hr as [w|w1 w2 w3 Hs _ IH]; intros ts; [by exists ts|].
  destruct (IH (stamp w1 w2 ts)) as [ts' Hr']. exists ts'. eapply rtc_l; [|exact Hr']. by constructor.
Qed.

(** The entry stored at [e] is at most [cache_ttl] seconds old, holds a
    prefix of the table, and the rows after that prefix are younger. *)
Definition entry_ok (w : world) (ts : list Z) (e : rentry) : Prop :=
  (rv_expires_at e - cache_ttl * 1000 <= w_now w)%Z /\
  exists rs', t_restaurants (w_db w) <> None /\ rs' `prefix_of` table_rows w /\
    rv_value e = stringify (JArr (rows_of rs')) /\
    forall i t, (List.length rs' <= i)%nat -> ts !! i = Some t -> (rv_expires_at e - cache_ttl * 1000 <= t)%Z.

Definition timed_inv (st : world * list Z) : Prop :=
  List.length st.2 = List.length (table_rows st.1) /\
  forall e, w_redis st.1 !! cache_key = Some e -> entry_ok st.1 st.2 e.

Lemma stamp_same (w w' : world) (ts : list Z) : table_rows w' = table_rows w -> stamp w w' ts = ts.
Proof. intros Ht. unfold stamp. rewrite Ht, Nat.sub_diag. apply app_nil_r. Qed.

Lemma table_rows_add (w : world) id name :
  table_rows (add_restaurant w id name) = table_rows w ++ [mk_restaurant id name].
Proof. done. Qed.

Lemma stamp_add (w : world) (ts : list Z) id name :
  stamp w (add_restaurant w id name) ts = ts ++ [w_now w].
Proof.
  unfold stamp. rewrite table_rows_add, length_app. cbn.
  by replace (List.length (table_rows w) + 1 - List.length (table_rows w))%nat with 1%nat by lia.
Qed.

(** Rows inserted now are younger than any entry stored so far. *)
Lemma timed_inv_add (w : world) (ts : list Z) id name :
  timed_inv (w, ts) ->
  timed_inv (add_restaurant w id name, stamp w (add_restaurant w id name) ts).
Proof.
  intros [Hl He]. rewrite stamp_add. unfold timed_inv in *; cbn [fst snd] in *. split; [rewrite table_rows_add, !length_app; cbn; lia|].
  intros e Hle. destruct (He e Hle) as (Hnow & rs' & _ & Hp & Hv & Hold).
  split; [done|]. exists rs'. rewrite table_rows_add. split; [done|].
  split; [by apply prefix_app_r|]. split; [done|].
  intros i t Hi Ht. apply lookup_app_Some in Ht as [Ht|[Hlen Ht]]; [by eapply Hold|].
  apply list_lookup_singleton_Some in Ht as [_ <-]. done.
Qed.

(** A refused [INSERT] adds no row and leaves the cache. *)
Lemma timed_inv_refused (w : world) (ts : list Z) : timed_inv (w, ts) -> timed_inv (post_refused w, ts).
Proof.
  intros [Hl He]. split; [exact Hl|]. intros e Hle. destruct (He e Hle) as (Hnow & rs' & _ & Hp & Hv & Hold).
  split; [exact Hnow|]. exists rs'. split; [cbn; discriminate|]. split; [exact Hp|]. split; [exact Hv|exact Hold].
Qed.

(** A miss stores the whole table, now. *)
Lemma timed_inv_fill (w : world) (ts : list Z) rs :
  timed_inv (w, ts) -> t_restaurants (w_db w) = Some rs ->
  timed_inv (fill_cache w (rows_of rs), ts).
Proof.
  intros [Hl _] Ht. unfold timed_inv; cbn [fst snd] in *. split; [done|].
  intros e. unfold fill_cache, redis_setex. cbn. rewrite lookup_insert_eq. intros [= <-].
  split; [cbn; lia|]. exists rs. unfold table_rows in *. rewrite Ht in Hl. cbn -[stringify].
  rewrite Ht. split; [done|]. split; [done|]. split; [done|].
  intros i t Hi Hti. apply lookup_lt_Some in Hti. cbn in Hl. lia.
Qed.

Lemma tstep_timed_inv (st st' : world * list Z) : tstep st st' -> timed_inv st -> timed_inv st'.
Proof.
  destruct 1 as [w w' ts Hs]. intros Hinv. destruct Hs as [w w' body tr res Hr|w w' tr res Hr|w d Hd|w t].
  - destruct (post_restaurants_shape _ _ _ _ _ Hr) as [->|[->| ->]];
      [by rewrite stamp_same|by apply timed_inv_add|rewrite stamp_same by done; by apply timed_inv_refused].
  - destruct (get_restaurants_shape _ _ _ _ Hr) as [->|(rs & Ht & ->)]; [by rewrite stamp_same|].
    rewrite stamp_same by done. by apply timed_inv_fill.
  - rewrite stamp_same by done. destruct Hinv as [Hl He]. split; [done|].
    intros e Hle. destruct (He e Hle) as [Hnow Hrest]. split; [unfold cache_ttl in *; cbn in *; lia|exact Hrest].
  - rewrite stamp_same by done. done.
Qed.

Lemma rtc_timed_inv (st st' : world * list Z) : rtc tstep st st' -> timed_inv st -> timed_inv st'.
Proof. induction 1; eauto using tstep_timed_inv. Qed.

Lemma timed_inv_boot : timed_inv (boot_world, []).
Proof. split; [done|]. intros e He. discriminate He. Qed.
End Timed.

Section Properties.
Context `{UuidSource} `{Bcrypt} `{Jwt}.

(** C10: Bounded staleness.  In every state the restaurant service reaches
    from its first boot, with the history [ts] of the rows' insertion
    times, a [GET /restaurants] that answers answers the rows of a prefix
    of the table, and every row it leaves out was inserted at most 60 s
    before the read (at a time [t >= now - 60000]). *)
Theorem bounded_staleness (w : world) (ts : list Z) (w' : world) tr (v : jval) :
  rtc tstep (boot_world, []) (w, ts) ->
  run_handler get_restaurants w = (w', tr, inr (RJson v)) ->
  exists rs', v = JArr (rows_of rs') /\ rs' `prefix_of` table_rows w /\
    forall i t, (List.length rs' <= i)%nat -> ts !! i = Some t -> (w_now w - 60000 <= t)%Z.
Proof.
  intros Hr Hrun. destruct (rtc_timed_inv _ _ Hr timed_inv_boot) as [Hl He]. cbn in Hl, He.
  destruct (live_cache w) as [s|] eqn:Hlive.
  - unfold live_cache, redis_get in Hlive.
    destruct (w_redis w !! cache_key) as [e|] eqn:Hle; [|discriminate].
    destruct (w_now w <=? rv_expires_at e)%Z eqn:Hfresh; [|discriminate]. injection Hlive as <-.
    destruct (He e eq_refl) as (_ & rs' & _ & Hp & Hv & Hold). apply Z.leb_le in Hfresh.
    rewrite (get_restaurants_hit w (JArr (rows_of rs'))) in Hrun; [|apply rows_wf|].
    + injection Hrun as _ _ <-. exists rs'. split; [done|]. split; [done|].
      intros i t Hi Ht. pose proof (Hold i t Hi Ht). unfold cache_ttl in *. lia.
    + unfold live_cache, redis_get. by rewrite Hle, (proj2 (Z.leb_le _ _) Hfresh), Hv.
  - rewrite get_restaurants_on_miss in Hrun by done.
    destruct (run_handler get_restaurants_miss w) as [[w1 tr1] res1] eqn:E.
    injection Hrun as -> _ ->. destruct (get_restaurants_miss_answer _ _ _ _ E) as (rs & Ht & ->).
    exists rs. unfold table_rows in *. rewrite Ht in Hl |- *. split; [done|]. split; [done|].
    intros i t Hi Hti. apply lookup_lt_Some in Hti. cbn in Hl. lia.
Qed.
End Properties.

(** The walk-through with Sushi Bar added after the read: the cached list
    lacks it, and it was inserted at time 0, the time of the read. *)
Lemma staleness_reach : rtc tstep (boot_world, []) (demo_w4, [0; 0]%Z).
Proof.
  apply (rtc_l _ _ (demo_w1, [])); [apply tstep_intro; [apply rstep_db|reflexivity]|].
  apply (rtc_l _ _ (demo_w2, [0%Z])); [apply tstep_intro; [eapply (rstep_post _ _ pizza); reflexivity|reflexivity]|].
  apply (rtc_l _ _ (demo_w3, [0%Z])); [apply tstep_intro; [eapply rstep_get; reflexivity|reflexivity]|].
  apply (rtc_l _ _ (demo_w4, [0; 0]%Z)); [apply tstep_intro; [eapply (rstep_post _ _ sushi); reflexivity|reflexivity]|].
  apply rtc_refl.
Qed.

Lemma bounded_staleness_witness :
  exists rs', JArr (rows_of [pizza_row]) = JArr (rows_of rs') /\ rs' `prefix_of` table_rows demo_w4 /\
    forall i t, (List.length rs' <= i)%nat -> [0; 0]%Z !! i = Some t -> (w_now demo_w4 - 60000 <= t)%Z.
Proof.
  apply (bounded_staleness demo_w4 [0; 0]%Z demo_w4 [RedisGet cache_key]).
  - exact staleness_reach.
  - reflexivity.
Defined.

(** ** With handlers interleaved

    A [GET /restaurants] reads the table, then a [POST] inserts a row, and
    only then, 10 s later, does the [GET] store what it read: the entry
    lives 60 s from the [SETEX], not from the [SELECT], and it lacks the
    row inserted before the [SETEX]. *)

Section Runs.
Context `{UuidSource} `{Bcrypt} `{Jwt}.

(** The clock advances by [dt] ms. *)
Definition tick (dt : Z) (s : sys) : sys :=
  mk_sys (set_now (s_world s) (w_now (s_world s) + dt)) (s_flight s) (s_worker s) (s_trace s)
         (s_auth s) (s_down s).

Lemma tick_step (dt : Z) (s : sys) : (0 <= dt)%Z -> sstep s (tick dt s).
Proof. apply sstep_tick. Qed.

Lemma start_restaurant_step (rt : route) (b : jsv) (s : sys) :
  rt ∈ svc_routes restaurant_service -> s_down s = [] ->
  sstep s (start restaurant_service rt b s).
Proof.
  intros Hr Hd. apply sstep_start; [apply list_elem_of_here|done|by intros [=]|by apply not_down].
Qed.
End Runs.

Definition sushi_row : restaurant_row := mk_restaurant (uuid_of 1) (Some "Sushi Bar").

(** Pizza Palace is added; a [GET] reads the cache and the table; Sushi
    Bar is added, at time 0. *)
Definition sushi_added : sys :=
  run_at 1 (run_at 1 (run_at 1 (run_at 1 (start restaurant_service post_route sushi
    (run_at 0 (run_at 0 (start restaurant_service get_route None
      (run_at 0 (run_at 0 (run_at 0 (run_at 0 (start restaurant_service post_route pizza sys_boot)))))))))))).

(** 10 s later the [GET] stores and answers; 55 s after that the list is
    read again. *)
Definition late_read : sys := tick 55000 (run_at 0 (run_at 0 (tick 10000 sushi_added))).

Lemma sushi_added_reach : rtc sstep sys_boot sushi_added.
Proof.
  eapply rtc_l; [apply start_restaurant_step; [apply list_elem_of_here|reflexivity]|].
  do 4 (eapply rtc_r; [|eapply run_at_step; reflexivity]).
  eapply rtc_r; [|apply start_restaurant_step; [apply list_elem_of_here|reflexivity]].
  do 2 (eapply rtc_r; [|eapply run_at_step; reflexivity]).
  eapply rtc_r; [|apply start_restaurant_step; [apply list_elem_of_further, list_elem_of_here|reflexivity]].
  do 4 (eapply rtc_r; [|eapply run_at_step; reflexivity]).
  apply rtc_refl.
Qed.

Lemma late_read_reach : rtc sstep sushi_added late_read.
Proof.
  eapply rtc_r; [|apply tick_step; lia].
  do 2 (eapply rtc_r; [|eapply run_at_step; reflexivity]).
  eapply rtc_r; [|apply tick_step; lia]. apply rtc_refl.
Qed.

(** C11: Interleaved, a cached read can be older than the TTL.  There is a
    run of the system in which Sushi Bar is in the table at time 0, and a
    [GET /restaurants] at time 65000 (65 s later) answers the list without
    it: the bound of [bounded_staleness] does not hold once handlers
    interleave, since the entry's 60 s count from the [SETEX] and not from
    the [SELECT] whose rows it stores. *)
Theorem stale_beyond_ttl :
  exists s1 s2, rtc sstep sys_boot s1 /\ rtc sstep s1 s2 /\
    w_now (s_world s1) = 0%Z /\ sushi_row ∈ table_rows (s_world s1) /\
    w_now (s_world s2) = 65000%Z /\
    (run_handler get_restaurants (s_world s2)).2 = inr (RJson (JArr (rows_of [pizza_row]))).
Proof.
  exists sushi_added, late_read. split; [exact sushi_added_reach|]. split; [exact late_read_reach|].
  split; [reflexivity|]. split; [vm_compute; apply list_elem_of_further, list_elem_of_here|].
  split; vm_compute; reflexivity.
Qed.

End Staleness.
