(* ===== verification/SystemIds.v ===== *)
(** * Ids are never reused, in any interleaving

    The tables [restaurants(id UUID, name TEXT)] and [orders(id UUID,
    status TEXT)] have no key constraint: that their ids are distinct
    relies only on [uuid()].  Every handler that inserts a row draws its
    id with [uuid()] and inserts it at its very next effect.  The
    invariant of this file tracks the ids drawn and not yet inserted (the
    id of a handler in flight whose next effect is the [INSERT]) next to
    the ids of the three tables: all of them are distinct and were issued
    by the uuid source.  So in every state of [System.sstep] reachable
    from boot, no id occurs twice in the restaurants, orders and users
    tables together. *)

From S2P Require Import Prelude Json Backend Restaurant Order Notification Auth Services System.
From stdpp Require Import base strings list relations.
From Stdlib Require Import String ZArith Lia.

Module SystemIds.
Import RestaurantService OrderService NotificationWorker AuthService Services System.

(** The id a query inserts as a new row, if it inserts one. *)
Definition query_inserted (q : query) : option string :=
  match q with
  | InsertRestaurant id _ | InsertOrder id _ | InsertUser id _ _ _ => Some id
  | _ => None
  end.

Definition inserted_id (e : effect) : option string :=
  match e with
  | Query q | TryQuery q => query_inserted q
  | _ => None
  end.

(** The id a reply carries when the effect is [uuid()]. *)
Definition as_uuid (e : effect) : reply e -> option string :=
  match e as e0 return reply e0 -> option string with
  | NewUuid => fun id => Some id
  | _ => fun _ => None
  end.

(** A program that inserts only ids it has just drawn: every insert
    directly follows the [uuid()] whose id it inserts. *)
Fixpoint draws_fresh {A} (p : handler A) : Prop :=
  match p with
  | Ret _ => True
  | Do e k =>
      inserted_id e = None /\
      forall r, match as_uuid e r with
                | None => draws_fresh (k r)
                | Some id =>
                    draws_fresh (k r) \/
                    match k r with
                    | Ret _ => True
                    | Do e' k' => inserted_id e' = Some id /\ forall r', draws_fresh (k' r')
                    end
                end
  end.

(** A handler in flight: about to insert an id it drew, or drawing fresh. *)
Definition flight_fresh {A} (p : handler A) : Prop :=
  match p with
  | Ret _ => True
  | Do e k => match inserted_id e with
              | None => draws_fresh p
              | Some _ => forall r, draws_fresh (k r)
              end
  end.

(** The id a handler in flight holds and has not inserted yet. *)
Definition pending {A} (p : handler A) : list string :=
  match p with
  | Ret _ => []
  | Do e _ => match inserted_id e with Some id => [id] | None => [] end
  end.

(** The ids of the three tables. *)
Definition db_ids (d : db) : list string :=
  map r_id (default [] (t_restaurants d)) ++ map o_id (default [] (t_orders d)) ++
  map u_id (default [] (t_users d)).

Abbreviation table_ids w := (db_ids (w_db w)).

Lemma exec_query_ids (d d' : db) (q : query) rows :
  exec_query d q = inr (d', rows) ->
  match query_inserted q with
  | None => db_ids d' = db_ids d
  | Some id => db_ids d' ≡ₚ db_ids d ++ [id]
  end.
Proof.
  destruct q; cbn; repeat case_match; intros Hq; simplify_eq/=; unfold db_ids; cbn;
    rewrite ?map_app; cbn; try reflexivity;
    repeat match goal with H : _ = Some _ |- _ => rewrite H; clear H end; cbn; solve_Permutation.
Qed.

(** Proving [draws_fresh] of a concrete handler, effect by effect. *)
Ltac solve_fresh :=
  repeat (cbn -[exit throw];
          first [exact I | split; [reflexivity|intros ?] | case_match
                | match goal with |- _ \/ _ => right end
                | progress unfold get_restaurants_cached, json_parse_or_throw, login_check,
                                  post_orders_insert, post_orders_publish, exit, throw]).

Lemma flat_map_delete {A B} (f : A -> list B) (l : list A) (i : nat) (x : A) :
  l !! i = Some x -> flat_map f l ≡ₚ flat_map f (delete i l) ++ f x.
Proof.
  intros Hi. rewrite <- (take_drop_middle l i x Hi) at 1. rewrite delete_take_drop.
  rewrite !flat_map_app. cbn. solve_Permutation.
Qed.

Lemma flat_map_sublist {A B} (f : A -> list B) (l1 l2 : list A) :
  l1 `sublist_of` l2 -> flat_map f l1 `sublist_of` flat_map f l2.
Proof.
  induction 1; cbn; [done|by apply sublist_app|by apply sublist_inserts_l].
Qed.

Lemma flat_map_insert {A B} (f : A -> list B) (l : list A) (i : nat) (x y : A) :
  l !! i = Some x -> flat_map f (<[i := y]> l) ≡ₚ flat_map f (delete i l) ++ f y.
Proof.
  intros Hi. rewrite insert_take_drop by (eapply lookup_lt_Some; exact Hi).
  rewrite delete_take_drop, !flat_map_app. cbn. solve_Permutation.
Qed.

Section Ids.
Context `{UuidSource} `{Bcrypt} `{Jwt}.

(** What one effect does to the tables and to the uuid counter. *)
Lemma exec_ids (w w' : world) (e : effect) r :
  exec w e = inr (w', r) ->
  match inserted_id e with
  | None => table_ids w' = table_ids w
  | Some id => table_ids w' ≡ₚ table_ids w ++ [id] \/ table_ids w' = table_ids w
  end /\
  match as_uuid e r with
  | None => w_uuid w' = w_uuid w
  | Some id => id = uuid_of (w_uuid w) /\ w_uuid w' = S (w_uuid w)
  end.
Proof.
  destruct e; cbn; unfold run_query, sbind; repeat case_match; intros Hx; simplify_eq/=;
    try (split; [|reflexivity]);
    try match goal with H : exec_query _ _ = inr _ |- _ => apply exec_query_ids in H end;
    repeat match goal with H : query_inserted _ = _ |- _ => rewrite H in *; clear H end; simplify_eq; auto.
Qed.

Definition issued (w : world) (id : string) : Prop := exists n, (n < w_uuid w)%nat /\ id = uuid_of n.

(** The ids of the tables and the ids held in flight: distinct, and issued. *)
Definition ids_ok (w : world) (held : list string) : Prop :=
  NoDup (table_ids w ++ held) /\ Forall (issued w) (table_ids w ++ held).

Definition sys_ids_inv (s : sys) : Prop :=
  ids_ok (s_world s) (flat_map (fun f : flight => pending f.2) (s_flight s)) /\
  flights_ok flight_fresh (s_flight s) /\
  match s_worker s with Idle => True | Busy _ p => only (fun e => inserted_id e = None) p end /\
  auth_only (fun e => inserted_id e = None) (s_auth s).

(** Only the multiset of held ids matters. *)
#[export] Instance ids_ok_perm (w : world) : Proper ((≡ₚ) ==> iff) (ids_ok w).
Proof. intros l l' Hp. unfold ids_ok. by rewrite Hp. Qed.

Lemma ids_ok_drop (w : world) (l l2 : list string) : ids_ok w (l ++ l2) -> ids_ok w l.
Proof.
  unfold ids_ok. intros [Hn Hf]. rewrite app_assoc in Hn, Hf. apply NoDup_app in Hn as [Hn _].
  apply Forall_app in Hf as [Hf _]. by split.
Qed.

(** The ids held by handlers that are gone are forgotten. *)
Lemma ids_ok_sublist (w : world) (l1 l2 : list string) :
  l1 `sublist_of` l2 -> ids_ok w l2 -> ids_ok w l1.
Proof.
  unfold ids_ok. intros Hs [Hn Hf].
  assert (Hs' : table_ids w ++ l1 `sublist_of` table_ids w ++ l2) by by apply sublist_app.
  split; [by eapply sublist_NoDup|by eapply Forall_sublist_of].
Qed.

(** An effect that leaves the tables and draws no id. *)
Lemma ids_ok_frame (w w' : world) (l : list string) :
  table_ids w' = table_ids w -> (w_uuid w <= w_uuid w')%nat -> ids_ok w l -> ids_ok w' l.
Proof.
  unfold ids_ok. intros Ht Hu [Hn Hf]. rewrite Ht. split; [done|].
  eapply Forall_impl; [exact Hf|]. intros id (n & Hn' & ->). exists n. split; [lia|done].
Qed.

(** An insert moves a held id into a table. *)
Lemma ids_ok_insert (w w' : world) (l : list string) (id : string) :
  table_ids w' ≡ₚ table_ids w ++ [id] -> w_uuid w' = w_uuid w -> ids_ok w (l ++ [id]) -> ids_ok w' l.
Proof.
  unfold ids_ok. intros Ht Hu [Hn Hf]. assert (Hp : table_ids w' ++ l ≡ₚ table_ids w ++ l ++ [id]).
  { rewrite Ht, <- app_assoc. f_equiv. apply Permutation_app_comm. }
  split; rewrite Hp; [done|]. eapply Forall_impl; [exact Hf|]. unfold issued. by rewrite Hu.
Qed.

(** [uuid()] issues an id distinct from every id issued before. *)
Lemma ids_ok_draw (w w' : world) (l : list string) :
  table_ids w' = table_ids w -> w_uuid w' = S (w_uuid w) ->
  ids_ok w l -> ids_ok w' (l ++ [uuid_of (w_uuid w)]).
Proof.
  unfold ids_ok. intros Ht Hu [Hn Hf]. rewrite Ht, app_assoc. split.
  - apply NoDup_app. split_and!; [done| |apply NoDup_singleton].
    intros x Hx ->%list_elem_of_singleton. rewrite Forall_forall in Hf.
    destruct (Hf _ Hx) as (n & Hlt & Heq). apply uuid_of_inj in Heq. lia.
  - apply Forall_app. split; [|constructor; [|constructor]].
    + eapply Forall_impl; [exact Hf|]. intros id (n & Hn' & ->). exists n. split; [lia|done].
    + exists (w_uuid w). split; [lia|done].
Qed.
Lemma draws_fresh_pending {A} (p : handler A) : draws_fresh p -> pending p = [].
Proof. destruct p as [a|e k]; cbn; [done|]. by intros [-> _]. Qed.

Lemma draws_fresh_flight {A} (p : handler A) : draws_fresh p -> flight_fresh p.
Proof. destruct p as [a|e k]; [done|]. intros Hp. cbn [flight_fresh]. by rewrite (proj1 Hp). Qed.

Lemma as_uuid_inserted (e : effect) (id : string) r : inserted_id e = Some id -> as_uuid e r = None.
Proof. by destruct e. Qed.

(** The program moved on to [q] with the tables unchanged and the counter
    not decreased, and [q] holds no id. *)
Lemma ids_continue {A} (w w1 : world) (held : list string) (q : handler A) :
  table_ids w1 = table_ids w -> (w_uuid w <= w_uuid w1)%nat -> ids_ok w held -> draws_fresh q ->
  ids_ok w1 (held ++ pending q) /\ flight_fresh q.
Proof.
  intros Ht Hu Hok Hq. rewrite draws_fresh_pending, app_nil_r by done.
  split; [by eapply ids_ok_frame|by apply draws_fresh_flight].
Qed.

(** One step of one program keeps the ids apart: the id it holds, if
    any, is inserted or dropped, and an id it draws is new. *)
Lemma advance_ids {A} (w w' : world) (p : handler A) t pr (held : list string) :
  ids_ok w (held ++ pending p) -> flight_fresh p -> advance w p = (w', t, pr) ->
  match pr with
  | Continued q => ids_ok w' (held ++ pending q) /\ flight_fresh q
  | _ => ids_ok w' held
  end.
Proof.
  intros Hok Hf Ha. destruct p as [a|e k]; cbn in Ha.
  { injection Ha as <- _ <-. by rewrite app_nil_r in Hok. }
  destruct (exec w e) as [err|[w1 r]] eqn:Hx; injection Ha as <- _ <-; [by eapply ids_ok_drop|].
  destruct (exec_ids _ _ _ _ Hx) as [Ht Hu]. cbn [pending flight_fresh] in Hok, Hf.
  destruct (inserted_id e) as [id|] eqn:Hi.
  - rewrite (as_uuid_inserted _ _ _ Hi) in Hu. destruct Ht as [Ht|Ht].
    + rewrite draws_fresh_pending, app_nil_r by apply Hf.
      split; [by eapply ids_ok_insert|by apply draws_fresh_flight].
    + apply (ids_continue w); [done|lia|exact (ids_ok_drop _ _ _ Hok)|apply Hf].
  - destruct Hf as [_ Hf]. specialize (Hf r). rewrite app_nil_r in Hok.
    destruct (as_uuid e r) as [id|]; [destruct Hu as [-> Hu]|].
    + destruct Hf as [Hf|Hf]; [apply (ids_continue w); [done|lia|done..]|].
      destruct (k r) as [b|e' k']; cbn; [rewrite app_nil_r; split; [|done]|].
      * eapply ids_ok_frame; [done| |done]. lia.
      * destruct Hf as [-> Hf]. split; [|done]. by apply ids_ok_draw.
    + apply (ids_continue w); [done|lia|done..].
Qed.
(** Every route of every app inserts only the id it has just drawn. *)
Lemma start_draws_fresh (svc : service) (rt : route) (b : jsv) :
  svc ∈ apps -> rt ∈ svc_routes svc -> draws_fresh (rt.2 b).
Proof.
  unfold apps. intros Hs Hr.
  repeat (apply elem_of_cons in Hs as [->|Hs]); [..|by apply elem_of_nil in Hs]; cbn in Hr;
    repeat (apply elem_of_cons in Hr as [->|Hr]); try (by apply elem_of_nil in Hr); solve_fresh.
Qed.

Lemma auth_main_no_insert : only (fun e => inserted_id e = None) auth_main.
Proof. solve_fresh. Qed.
Lemma exec_no_insert (w w' : world) (e : effect) r :
  inserted_id e = None -> exec w e = inr (w', r) ->
  table_ids w' = table_ids w /\ (w_uuid w <= w_uuid w')%nat.
Proof.
  intros He Hx. destruct (exec_ids _ _ _ _ Hx) as [Ht Hu]. rewrite He in Ht.
  split; [done|]. destruct (as_uuid e r); lia.
Qed.

(** The worker only logs: it leaves the ids alone. *)
Lemma worker_ids (w w' : world) (ws ws' : worker_state) (held : list string) :
  ids_ok w held ->
  match ws with Idle => True | Busy _ p => only (fun e => inserted_id e = None) p end ->
  worker_step (w, ws) = Some (w', ws') ->
  ids_ok w' held /\ match ws' with Idle => True | Busy _ p => only (fun e => inserted_id e = None) p end.
Proof.
  intros Hok Hw Hs. destruct ws as [|j [a|e k]]; cbn in Hs.
  - unfold fetch in Hs. destruct (queue_take _) as [[q' j]|]; simplify_eq/=. split; [done|].
    split; [reflexivity|done].
  - by simplify_eq/=.
  - destruct Hw as [He Hk]. destruct (exec w e) as [err|[w1 r]] eqn:Hx; simplify_eq/=; [done|].
    destruct (exec_no_insert _ _ _ _ He Hx). split; [by eapply ids_ok_frame|apply Hk].
Qed.

Lemma sstep_ids_inv (s s' : sys) : sys_ids_inv s -> sstep s s' -> sys_ids_inv s'.
Proof.
  intros (Hok & Hf & Hw & Hau) Hs.
  destruct Hs as [s svc rt b Hsvc Hrt _ _|s i n p w' t pr Hi Ha|s p w' t pr Hp Ha|s w' ws' Hs|s dt _|s t];
    unfold sys_ids_inv; simpl in *.
  - pose proof (start_draws_fresh svc rt b Hsvc Hrt) as Hd. split_and!; [|..|done|done].
    + rewrite flat_map_app. cbn [flat_map]. by rewrite draws_fresh_pending, !app_nil_r.
    + apply Forall_app_2; [done|]. constructor; [by apply draws_fresh_flight|constructor].
  - pose proof (Forall_lookup_1 _ _ _ _ Hf Hi) as Hfp.
    rewrite (flat_map_delete _ _ _ _ Hi) in Hok.
    pose proof (advance_ids _ _ _ _ _ _ Hok Hfp Ha) as Hstep.
    split_and!; [|apply after_ok; [done|intros q ->; apply Hstep]|done|done].
    destruct pr as [a|err|q]; cbn; [done| |].
    + eapply ids_ok_sublist; [apply flat_map_sublist, sublist_filter|exact Hstep].
    + rewrite (flat_map_insert _ _ _ (n, p)) by done. apply Hstep.
  - rewrite Hp in Hau. destruct (advance_only _ _ _ _ _ _ Hau Ha) as [[->|(e & r & He & Hx)] Hk].
    + split_and!; [done..|by apply auth_after_only].
    + destruct (exec_no_insert _ _ _ _ He Hx).
      split_and!; [by eapply ids_ok_frame|done|done|by apply auth_after_only].
  - destruct (worker_ids _ _ _ _ _ Hok Hw Hs). by split_and!.
  - by split_and!.
  - by split_and!.
Qed.

Lemma rtc_ids_inv (s s' : sys) : rtc sstep s s' -> sys_ids_inv s -> sys_ids_inv s'.
Proof. induction 1; eauto using sstep_ids_inv. Qed.

Lemma sys_ids_inv_boot : sys_ids_inv sys_boot.
Proof.
  split_and!; [split; cbn; constructor|constructor|done|exact auth_main_no_insert].
Qed.
End Ids.

Section Properties.
Context `{UuidSource} `{Bcrypt} `{Jwt}.

(** C7: Ids are never reused.  In every interleaving of requests, worker
    steps and time reachable from boot, the ids of the restaurants, orders
    and users tables are pairwise distinct.  The restaurants and orders
    tables declare no key: this holds because every handler inserts the
    id it has just drawn from [uuid()], and an id drawn but not yet
    inserted is never drawn again. *)
Theorem ids_never_reused (s : sys) : rtc sstep sys_boot s -> NoDup (db_ids (w_db (s_world s))).
Proof.
  intros Hr. destruct (rtc_ids_inv _ _ Hr sys_ids_inv_boot) as [[Hn _] _].
  by apply NoDup_app in Hn as [Hn _].
Qed.
End Properties.

(** ** A run: two restaurants added concurrently

    Both [POST /restaurants] create the table and draw their ids before
    either inserts; the second inserts first. *)
Definition two_posts : sys :=
  run_at 0 (run_at 1 (run_at 1 (run_at 0 (run_at 1 (run_at 0
    (start restaurant_service post_route sushi (start restaurant_service post_route pizza sys_boot))))))).

Lemma two_posts_reach : rtc sstep sys_boot two_posts.
Proof.
  eapply rtc_l.
  { apply (sstep_start sys_boot restaurant_service post_route pizza);
      [apply list_elem_of_here|apply list_elem_of_here|by intros [=]|by apply not_down]. }
  eapply rtc_l.
  { apply (sstep_start _ restaurant_service post_route sushi);
      [apply list_elem_of_here|apply list_elem_of_here|by intros [=]|by apply not_down]. }
  do 6 (eapply rtc_r; [|eapply run_at_step; reflexivity]).
  apply rtc_refl.
Qed.

Lemma ids_never_reused_witness :
  db_ids (w_db (s_world two_posts)) = [uuid_of 1; uuid_of 0] /\
  NoDup (db_ids (w_db (s_world two_posts))).
Proof. split; [vm_compute; reflexivity|exact (ids_never_reused two_posts two_posts_reach)]. Defined.

End SystemIds.
